(** * Dialog evaluation metrics (parlai/core/metrics.py)

    A shallow embedding of the metric accumulator of [parlai.core.metrics]:
    text normalisation, the scorer functions, the [Metrics] class with its
    [update], [report] and [clear] methods, and [aggregate_metrics].

    Modelling conventions.
    - Python numbers (int and float alike) are exact rationals [Q]; the
      embedding does not model floating-point rounding error.
    - Python [str] is [string]; the text functions are modelled on ASCII
      text (case folding, word characters and white space of code points
      below 128).
    - A [dict] is a [gmap]; a [collections.Counter] is a [gmap] into [Z].
    - A method that mutates [self] is a function from the object's state to
      the new state paired with its outcome, a returned value or the raised
      exception; the state reached when an exception is raised is kept,
      as the mutations done before the [raise] stay in the Python object.
    - What the module imports from outside [src/] (nltk's BLEU, py-rouge,
      [round_sigfigs]) is taken as a parameter, class [Externals]. *)

From Stdlib Require Import QArith Qminmax Qround Qabs Qpower Lqa ZArith Lia Ascii String DecimalString.
From stdpp Require Import base option list strings gmap fin_maps.

Local Open Scope string_scope.

(** ** Exceptions and results *)

Inductive exn :=
| KeyError (k : string)
| TypeError
| ValueError
| AttributeError
| LookupError
| OtherError.

Inductive res (A : Type) :=
| Ok (a : A)
| Raise (e : exn).
Arguments Ok {A} a.
Arguments Raise {A} e.

Definition res_bind {A B} (r : res A) (f : A → res B) : res B :=
  match r with
  | Ok a => f a
  | Raise e => Raise e
  end.

#[export] Instance res_mret : MRet res := λ A a, Ok a.
#[export] Instance res_mbind : MBind res := λ A B f r, res_bind r f.

(** [for x in l: body] over a computation that may raise. *)
Fixpoint res_map {A B} (f : A → res B) (l : list A) : res (list B) :=
  match l with
  | [] => Ok []
  | x :: l' => y ← f x; ys ← res_map f l'; Ok (y :: ys)
  end.

(** ** Numbers *)

(** Python's [max(a, b)]: [b] when it is strictly greater, else [a]. *)
Definition max2 (a b : Q) : Q := if Qlt_le_dec a b then b else a.

(** Python's [max(iterable)]; [ValueError] on an empty one. *)
Definition max_of (l : list Q) : res Q :=
  match l with
  | [] => Raise ValueError
  | x :: l' => Ok (foldl max2 x l')
  end.

Definition Qgtb (a b : Q) : bool := if Qlt_le_dec b a then true else false.

(** The literals [1e-12] and [1e-5]. *)
Definition eps12 : Q := 1 # 1000000000000.
Definition eps5 : Q := 1 # 100000.

(** ** Text normalisation *)

Definition code (c : ascii) : nat := nat_of_ascii c.

Definition in_range (lo hi : nat) (c : ascii) : bool :=
  (lo <=? code c)%nat && (code c <=? hi)%nat.

(** [str.lower] on ASCII. *)
Definition lower_char (c : ascii) : ascii :=
  if in_range 65 90 c then ascii_of_nat (code c + 32) else c.

Fixpoint lower (text : string) : string :=
  match text with
  | EmptyString => EmptyString
  | String c r => String (lower_char c) (lower r)
  end.

(** The character class of [re_punc], its members in the order of the
    pattern: ! quote # $ % & ( ) * + , - . / : ; < = > ? @ [ ] \ ^ ` { | } ~ _ '
    (the three characters [,-.] are the pattern's range from comma to dot). *)
Definition re_punc_class : list nat :=
  [33; 34; 35; 36; 37; 38; 40; 41; 42; 43; 44; 45; 46; 47; 58; 59; 60; 61;
   62; 63; 64; 91; 93; 92; 94; 96; 123; 124; 125; 126; 95; 39].

Definition is_punc (c : ascii) : bool := bool_decide (code c ∈ re_punc_class).

(** [re_punc.sub(' ', text)] *)
Fixpoint remove_punc (text : string) : string :=
  match text with
  | EmptyString => EmptyString
  | String c r => String (if is_punc c then " "%char else c) (remove_punc r)
  end.

(** The regular expression class [\w] on ASCII. *)
Definition is_word (c : ascii) : bool :=
  in_range 48 57 c || in_range 65 90 c || in_range 97 122 c || (code c =? 95)%nat.

Definition is_article (w : string) : bool :=
  bool_decide (w ∈ ["a"; "an"; "the"]).

(** [re_art.sub(' ', text)] with [re_art = \b(a|an|the)\b]: a match starts
    and ends at a word boundary and holds word characters only, so it is a
    maximal run of word characters that spells one of the three articles;
    every such run is replaced by one space. [word] is the run read so far. *)
Definition flush_word (word : string) : string :=
  if is_article word then " " else word.

Fixpoint remove_articles_from (word text : string) : string :=
  match text with
  | EmptyString => flush_word word
  | String c r =>
      if is_word c then remove_articles_from (word +:+ String c EmptyString) r
      else flush_word word +:+ String c (remove_articles_from EmptyString r)
  end.

Definition remove_articles (text : string) : string :=
  remove_articles_from EmptyString text.

(** White space of [str.split()] on ASCII: tab, line feed, vertical tab,
    form feed, carriage return, the four separators 28..31 and space. *)
Definition is_space (c : ascii) : bool :=
  in_range 9 13 c || in_range 28 32 c.

(** [text.split()] : the maximal runs of characters that are not white space. *)
Fixpoint split_from (cur text : string) : list string :=
  match text with
  | EmptyString => if decide (cur = EmptyString) then [] else [cur]
  | String c r =>
      if is_space c then
        (if decide (cur = EmptyString) then [] else [cur]) ++ split_from EmptyString r
      else split_from (cur +:+ String c EmptyString) r
  end.

Definition split (text : string) : list string := split_from EmptyString text.

(** [text.split(" ")] : the pieces between single spaces, empty ones kept. *)
Fixpoint split_on_space_from (cur text : string) : list string :=
  match text with
  | EmptyString => [cur]
  | String c r =>
      if Ascii.eqb c " "%char then cur :: split_on_space_from EmptyString r
      else split_on_space_from (cur +:+ String c EmptyString) r
  end.

Definition split_on_space (text : string) : list string :=
  split_on_space_from EmptyString text.

Definition white_space_fix (text : string) : string :=
  String.concat " " (split text).

Definition normalize_answer (s : string) : string :=
  white_space_fix (remove_articles (remove_punc (lower s))).

(** ** Counters *)

Section counter.
  Context {K : Type} `{Countable K}.

  (** [c[k]] of a Counter: zero for a missing key. *)
Definition counter_get (c : gmap K Z) (k : K) : Z := default 0%Z (c !! k).

  (** [Counter(iterable)] *)
Definition counter_of (l : list K) : gmap K Z :=
    foldl (λ c k, <[k := (counter_get c k + 1)%Z]> c) ∅ l.

  (** [Counter._keep_positive] *)
Definition keep_positive (c : gmap K Z) : gmap K Z :=
    filter (λ kv, (0 < kv.2)%Z) c.

  (** [a & b] : the minimum of the counts, positive ones kept. *)
Definition counter_and (a b : gmap K Z) : gmap K Z :=
    keep_positive (intersection_with (λ x y, Some (Z.min x y)) a b).

  (** [a += b] : the counts added, positive ones kept. *)
Definition counter_iadd (a b : gmap K Z) : gmap K Z :=
    keep_positive (union_with (λ x y, Some (x + y)%Z) a b).

  (** [sum(c.values())] *)
Definition counter_total (c : gmap K Z) : Z :=
    map_fold (λ _ v acc, (v + acc)%Z) 0%Z c.

  (** [len(c)] *)
Definition counter_len (c : gmap K Z) : nat := size c.
End counter.

(** ** Scorer functions *)

Definition _exact_match (guess : option string) (answers : option (list string)) : bool :=
  match guess, answers with
  | Some guess, Some answers =>
      let guess := normalize_answer guess in
      existsb (λ a, bool_decide (guess = normalize_answer a)) answers
  | _, _ => false
  end.

Definition _prec_recall_f1_score (pred_items gold_items : list string) : Q * Q * Q :=
  let common := counter_and (counter_of gold_items) (counter_of pred_items) in
  let num_same := counter_total common in
  if decide (num_same = 0%Z) then (0, 0, 0)%Q
  else
    let precision := (1 * inject_Z num_same / inject_Z (Z.of_nat (length pred_items)))%Q in
    let recall := (1 * inject_Z num_same / inject_Z (Z.of_nat (length gold_items)))%Q in
    let f1 := ((2 * precision * recall) / (precision + recall))%Q in
    (precision, recall, f1).

Definition _f1_score (guess : option string) (answers : option (list string)) : res Q :=
  match guess, answers with
  | Some guess, Some answers =>
      let g_tokens := split (normalize_answer guess) in
      let scores :=
        map (λ a, _prec_recall_f1_score g_tokens (split (normalize_answer a))) answers in
      max_of (map (λ prf, prf.2) scores)
  | _, _ => Ok 0%Q
  end.

(** [_ngram(seq, n)] : the [len(seq) - n + 1] windows of length [n]. *)
Definition _ngram (sequence : list string) (n : nat) : list (list string) :=
  map (λ i, take n (drop i sequence)) (seq 0 (length sequence + 1 - n)).

Definition _inter_distinct (guess : string) (ngram : nat) : gmap (list string) Z :=
  let tokens := split (normalize_answer guess) in
  counter_of (_ngram tokens ngram).

Definition _intra_distinct (guess : string) (ngram : nat) : Q :=
  let tokens := split (normalize_answer guess) in
  let counts := counter_of (_ngram tokens ngram) in
  (max2 (inject_Z (Z.of_nat (counter_len counts))) eps12
   / max2 (inject_Z (counter_total counts)) eps5)%Q.

(** What the module takes from outside the repository's sources. *)
Class Externals := {
  (** [nltkbleu is not None] : nltk could be imported *)
  nltkbleu_available : bool;
  (** [rouge is not None] : py-rouge could be imported *)
  rouge_available : bool;
  (** [nltkbleu.sentence_bleu(references, hypothesis, smoothing_function=...,
      weights=weights)] *)
  sentence_bleu : list (list string) → list string → list Q → res Q;
  (** [evaluator.get_scores(hypothesis, reference)] of py-rouge: the score
      by metric name (rouge-1, rouge-2, rouge-l) and measure (f, p, r) *)
  rouge_get_scores : string → string → res (string → string → Q);
  (** [parlai.core.utils.round_sigfigs(x, sigfigs)] *)
  round_sigfigs : Q → nat → Q
}.

Section scorers.
  Context `{Externals}.

Definition _bleu (guess : string) (answers : list string) (k : nat) : res (option Q) :=
    if negb nltkbleu_available then Ok None
    else
      let weights := replicate k (1 / inject_Z (Z.of_nat k))%Q in
      b ← sentence_bleu
            (map (λ a, split_on_space (normalize_answer a)) answers)
            (split_on_space (normalize_answer guess))
            weights;
      Ok (Some b).

  (** The list comprehension of [_rouge] inside its [try]: the scores of
      every answer, [None] when one call raises [LookupError]. *)
Fixpoint rouge_scores_of (guess : string) (answers : list string)
    : res (option (list (string → string → Q))) :=
    match answers with
    | [] => Ok (Some [])
    | a :: rest =>
        match rouge_get_scores (normalize_answer guess) (normalize_answer a) with
        | Raise LookupError => Ok None
        | Raise e => Raise e
        | Ok score =>
            r ← rouge_scores_of guess rest;
            Ok (option_map (cons score) r)
        end
    end.

Definition _rouge (guess : string) (answers : list string) (measure : string)
    : res (list (option Q)) :=
    scores ← rouge_scores_of guess answers;
    match scores with
    | None => Ok [None; None; None; None; None]
    | Some scores =>
        scores_rouge1 ← max_of (map (λ score, score "rouge-1" measure) scores);
        scores_rouge2 ← max_of (map (λ score, score "rouge-2" measure) scores);
        scores_rougeL ← max_of (map (λ score, score "rouge-l" measure) scores);
        Ok [Some scores_rouge1; Some scores_rouge2; Some scores_rougeL]
    end.
End scorers.

(** ** The accumulator *)

(** A value of the table [self.metrics]: a number or a [Counter] of n-grams. *)
Inductive value :=
| VNum (x : Q)
| VCounter (c : gmap (list string) Z).

(** [self.flags] *)
Record Flags := {
  has_text_cands : bool;
  print_prediction_metrics : bool
}.

(** The state of a [Metrics] object. [shared] says that [self.metrics] is a
    [SharedTable], which [__init__] chooses when [numthreads] exceeds one.

    Modelled from the spec: [SharedTable] (parlai.core.thread_utils, not under
    src/) is the same mapping kept in shared memory and guarded by one mutex;
    sequentially it reads and writes like the plain dict. *)
Record Metrics := {
  metrics : gmap string value;
  metrics_list : list string;
  flags : Flags;
  shared : bool
}.

(** The observation of one example, [observation.get('text')],
    [observation.get('text_candidates')] and [observation['metrics'].items()]
    in the dict's order, [None] for a key that is absent. *)
Record Observation := {
  text : option string;
  text_candidates : option (list string);
  obs_metrics : option (list (string * Q))
}.

Definition crs_metrics : list string :=
  ["bleu"; "rouge"; "intra-distinct"; "inter-distinct"].

Definition eval_pr : list nat := [1; 5; 10; 100]%nat.

(** [str(k)] of a natural number *)
Definition str (k : nat) : string := NilEmpty.string_of_uint (Nat.to_uint k).

(** [s.startswith(prefix)] *)
Fixpoint startswith (prefix s : string) : bool :=
  match prefix, s with
  | EmptyString, _ => true
  | String a p, String b r => Ascii.eqb a b && startswith p r
  | String _ _, EmptyString => false
  end.

Fixpoint has_char (sep : ascii) (s : string) : bool :=
  match s with
  | EmptyString => false
  | String c r => Ascii.eqb c sep || has_char sep r
  end.

(** [s.rsplit(sep, 1)[0]] : what stands before the last [sep], all of [s]
    when it holds none. *)
Fixpoint rsplit1_head (sep : ascii) (s : string) : string :=
  match s with
  | EmptyString => EmptyString
  | String c r =>
      if has_char sep r then String c (rsplit1_head sep r)
      else if Ascii.eqb c sep then EmptyString
      else String c r
  end.

(** [any(k.startswith(prefix) for prefix in self.crs_metrics)] *)
Definition is_crs (k : string) : bool :=
  existsb (λ prefix, startswith prefix k) crs_metrics.

(** The key of the counter that [report] pairs with [k]. *)
Definition cnt_key (k : string) : string := rsplit1_head "-" k +:+ "_cnt".

(** *** The state and exception monad of the methods *)

Definition M (A : Type) : Type := Metrics → Metrics * res A.

Definition ret {A} (a : A) : M A := λ s, (s, Ok a).

Definition raise {A} (e : exn) : M A := λ s, (s, Raise e).

Definition bind {A B} (m : M A) (f : A → M B) : M B :=
  λ s, match m s with
       | (s', Ok a) => f a s'
       | (s', Raise e) => (s', Raise e)
       end.

#[export] Instance M_mret : MRet M := λ A a, ret a.
#[export] Instance M_mbind : MBind M := λ A B f m, bind m f.

(** A computation that does not touch the object. *)
Definition lift {A} (r : res A) : M A := λ s, (s, r).

(** [for x in l: body x] *)
Fixpoint for_each {A} (l : list A) (body : A → M unit) : M unit :=
  match l with
  | [] => ret tt
  | x :: l' => body x;; for_each l' body
  end.

(** [with self._lock(): body] : one critical section. Sequentially the lock
    changes nothing; it is released on exit, also by an exception. *)
Definition with_lock {A} (body : M A) : M A := body.

Definition set_metrics (m : gmap string value) (s : Metrics) : Metrics :=
  {| metrics := m; metrics_list := metrics_list s; flags := flags s; shared := shared s |}.

Definition set_flags (f : Flags) (s : Metrics) : Metrics :=
  {| metrics := metrics s; metrics_list := metrics_list s; flags := f; shared := shared s |}.

(** [self.metrics[k]] *)
Definition getitem (k : string) : M value :=
  λ s, (s, match metrics s !! k with
           | Some v => Ok v
           | None => Raise (KeyError k)
           end).

(** [self.metrics[k] = v] *)
Definition setitem (k : string) (v : value) : M unit :=
  λ s, (set_metrics (<[k := v]> (metrics s)) s, Ok tt).

(** [k in self.metrics] *)
Definition contains (k : string) : M bool :=
  λ s, (s, Ok (bool_decide (is_Some (metrics s !! k)))).

(** [self.metrics[k] += x] for a number [x]: on a [Counter] the in-place
    addition asks a number for its [items] and raises. *)
Definition iadd_num (k : string) (x : Q) : M unit :=
  v ← getitem k;
  match v with
  | VNum y => setitem k (VNum (y + x)%Q)
  | VCounter _ => raise AttributeError
  end.

(** [self.metrics[k] += x] where [x] may be [None] *)
Definition iadd_opt (k : string) (x : option Q) : M unit :=
  v ← getitem k;
  match v, x with
  | VNum y, Some x => setitem k (VNum (y + x)%Q)
  | VNum _, None => raise TypeError
  | VCounter _, _ => raise AttributeError
  end.

(** [self.metrics[k] += c] for a [Counter] [c] *)
Definition iadd_counter (k : string) (c : gmap (list string) Z) : M unit :=
  v ← getitem k;
  match v with
  | VCounter d => setitem k (VCounter (counter_iadd d c))
  | VNum _ => raise TypeError
  end.

Definition set_has_text_cands : M unit :=
  λ s, (set_flags {| has_text_cands := true;
                     print_prediction_metrics := print_prediction_metrics (flags s) |} s,
        Ok tt).

Definition set_print_prediction_metrics : M unit :=
  λ s, (set_flags {| has_text_cands := has_text_cands (flags s);
                     print_prediction_metrics := true |} s,
        Ok tt).

(** [self.metrics_list.append(k)] *)
Definition append_metrics_list (k : string) : M unit :=
  λ s, ({| metrics := metrics s; metrics_list := metrics_list s ++ [k];
           flags := flags s; shared := shared s |}, Ok tt).

Definition get_metrics_list : M (list string) := λ s, (s, Ok (metrics_list s)).

Definition is_shared : M bool := λ s, (s, Ok (shared s)).

Section accumulator.
  Context `{Externals}.

  (** *** [Metrics.__init__] *)

Definition initial_metrics_list : list string :=
    ["mean_rank"; "loss"; "correct"; "f1"; "ppl"]
    ++ (if nltkbleu_available then map (λ i, "bleu-" +:+ str i) (seq 1 4) else [])
    ++ (if rouge_available then ["rouge-1"; "rouge-2"; "rouge-l"] else [])
    ++ flat_map (λ i, ["intra-distinct-" +:+ str i; "inter-distinct-" +:+ str i]) (seq 1 4).

  (** The body of [for k in self.metrics_list] in [__init__]. *)
Definition init_key (m : gmap string value) (k : string) : gmap string value :=
    let m := if negb (startswith "inter-distinct" k) then <[k := VNum 0]> m
             else <[k := VCounter ∅]> m in
    if negb (is_crs k) then <[k +:+ "_cnt" := VNum 0]> m else m.

Definition init_crs_cnt (m : gmap string value) (crs_metric : string) : gmap string value :=
    if negb (bool_decide (crs_metric = "inter-distinct"))
    then <[crs_metric +:+ "_cnt" := VNum 0]> m else m.

Definition init_hits (m : gmap string value) (k : nat) : gmap string value :=
    <["hits@" +:+ str k := VNum 0]> m.

  (** [opt] is the options dict; only [numthreads] is read. *)
Definition __init__ (opt : gmap string Z) : Metrics :=
    let m := <["cnt" := VNum 0]> ∅ in
    let m := foldl init_key m initial_metrics_list in
    let m := foldl init_crs_cnt m crs_metrics in
    let m := foldl init_hits m eval_pr in
    let m := <["hits@_cnt" := VNum 0]> m in
    {| metrics := m;
       metrics_list := initial_metrics_list;
       flags := {| has_text_cands := false; print_prediction_metrics := false |};
       shared := bool_decide (1 < default 1 (opt !! "numthreads"))%Z |}.

  (** *** [Metrics.update_ranking_metrics] *)

  (** One turn of [for c in text_cands]: [cnt] and the dict [cnts]. *)
Definition rank_step (label_set : list string) (acc : nat * gmap nat nat) (c : string)
    : nat * gmap nat nat :=
    let cnt := (acc.1 + 1)%nat in
    if bool_decide (normalize_answer c ∈ label_set) then
      (cnt, foldl (λ cnts k, if (cnt <=? k)%nat
                             then <[k := (default 0 (cnts !! k) + 1)%nat]> cnts
                             else cnts) acc.2 eval_pr)
    else (cnt, acc.2).

Definition rank_counts (text_cands labels : list string) : gmap nat nat :=
    let label_set := map normalize_answer labels in
    let cnts := foldl (λ cnts k, <[k := 0%nat]> cnts) ∅ eval_pr in
    (foldl (rank_step label_set) (0%nat, cnts) text_cands).2.

  (** The critical section of [update_ranking_metrics]. *)
Definition fold_ranking (cnts : gmap nat nat) : M unit :=
    with_lock (
      set_has_text_cands;;
      for_each eval_pr (λ k,
        if (0 <? default 0 (cnts !! k))%nat then iadd_num ("hits@" +:+ str k) 1 else ret tt);;
      iadd_num "hits@_cnt" 1).

Definition update_ranking_metrics (observation : Observation) (labels : list string) : M unit :=
    match text_candidates observation with
    | None => ret tt
    | Some text_cands => fold_ranking (rank_counts text_cands labels)
    end.

  (** *** [Metrics.update] *)

  (** First critical section: the example counter. *)
Definition fold_cnt : M unit := with_lock (iadd_num "cnt" 1).

  (** Second critical section: the exact match. *)
Definition fold_correct (correct : Q) : M unit :=
    with_lock (
      set_print_prediction_metrics;;
      iadd_num "correct" correct;;
      iadd_num "correct_cnt" 1).

  (** Third critical section: F1, BLEU, ROUGE and the distinct scores. *)
Definition fold_scores (prediction : string) (labels : list string) (f1 : Q) : M unit :=
    with_lock (
      iadd_num "f1" f1;;
      iadd_num "f1_cnt" 1;;
      (if nltkbleu_available then
         for_each (seq 1 4) (λ i,
           b ← lift (_bleu prediction labels i);
           iadd_opt ("bleu-" +:+ str i) b);;
         iadd_num "bleu_cnt" 1
       else ret tt);;
      (if rouge_available then
         rouge_scores ← lift (_rouge prediction labels "r");
         iadd_opt "rouge-1" (mjoin (rouge_scores !! 0%nat));;
         iadd_opt "rouge-2" (mjoin (rouge_scores !! 1%nat));;
         iadd_opt "rouge-l" (mjoin (rouge_scores !! 2%nat));;
         iadd_num "rouge_cnt" 1
       else ret tt);;
      for_each (seq 1 4) (λ i,
        iadd_num ("intra-distinct-" +:+ str i) (_intra_distinct prediction i);;
        iadd_counter ("inter-distinct-" +:+ str i) (_inter_distinct prediction i));;
      iadd_num "intra-distinct_cnt" 1).

  (** The part of [update] on the prediction text; it yields [correct]. *)
Definition update_text (observation : Observation) (labels : list string) : M Q :=
    match text observation with
    | None => ret 0%Q
    | Some prediction =>
        let correct := if _exact_match (Some prediction) (Some labels) then 1%Q else 0%Q in
        fold_correct correct;;
        f1 ← lift (_f1_score (Some prediction) (Some labels));
        fold_scores prediction labels f1;;
        ret correct
    end.

  (** The keys that the user-reported metrics may not name. *)
Definition reserved : list string := ["correct"; "f1"; "hits@k"; "bleu"].

  (** The body of [for k, v in observation['metrics'].items()]. *)
Definition user_metric (kv : string * Q) : M unit :=
    let '(k, v) := kv in
    if bool_decide (k ∉ reserved) then
      l ← get_metrics_list;
      if bool_decide (k ∈ (l : list string)) then
        with_lock (iadd_num k v;; iadd_num (k +:+ "_cnt") 1)
      else
        sh ← is_shared;
        if (sh : bool) then ret tt
        else
          known ← contains k;
          if negb (known : bool) then
            setitem k (VNum v);;
            append_metrics_list k;;
            setitem (k +:+ "_cnt") (VNum 1)
          else iadd_num k v
    else ret tt.

Definition update_user_metrics (observation : Observation) : M unit :=
    match obs_metrics observation with
    | None => ret tt
    | Some items => for_each items user_metric
    end.

  (** [update] returns the dict [{'correct': correct}]. *)
Definition update (observation : Observation) (labels : list string) : M (gmap string Q) :=
    fold_cnt;;
    correct ← update_text observation labels;
    update_ranking_metrics observation labels;;
    update_user_metrics observation;;
    ret {[ "correct" := correct ]}.

  (** *** [Metrics.report] *)

  (** [self.metrics[k]] read as a number *)
Definition num_at (s : Metrics) (k : string) : res Q :=
    match metrics s !! k with
    | Some (VNum x) => Ok x
    | Some (VCounter _) => Raise TypeError
    | None => Raise (KeyError k)
    end.

  (** The body of [for k in self.metrics_list] in [report]. *)
Definition report_key (s : Metrics) (m : gmap string Q) (k : string) : res (gmap string Q) :=
    if negb (startswith "inter-distinct" k) then
      c ← num_at s (cnt_key k);
      if Qgtb c 0 && negb (bool_decide (k = "correct")) && negb (bool_decide (k = "f1")) then
        x ← num_at s k;
        c' ← num_at s (cnt_key k);
        Ok (<[k := round_sigfigs (x / max2 1 c')%Q 4]> m)
      else Ok m
    else
      match metrics s !! k with
      | None => Raise (KeyError k)
      | Some (VNum _) => Raise TypeError
      | Some (VCounter t) =>
          if negb (bool_decide (counter_len t = 0%nat)) then
            Ok (<[k := round_sigfigs
                         (max2 (inject_Z (Z.of_nat (counter_len t))) eps12
                          / max2 (inject_Z (counter_total t)) eps5)%Q 4]> m)
          else Ok m
      end.

  (** [for x in l: m = step m x] where the step may raise *)
Fixpoint res_fold {A B} (step : B → A → res B) (b : B) (l : list A) : res B :=
    match l with
    | [] => Ok b
    | x :: l' => b' ← step b x; res_fold step b' l'
    end.

Definition report_hits (s : Metrics) (m : gmap string Q) (k : nat) : res (gmap string Q) :=
    h ← num_at s ("hits@" +:+ str k);
    c ← num_at s "hits@_cnt";
    Ok (<["hits@" +:+ str k := round_sigfigs (h / max2 1 c)%Q 3]> m).

Definition report (s : Metrics) : res (gmap string Q) :=
    total ← num_at s "cnt";
    let m := <["exs" := total]> ∅ in
    if Qgtb total 0 then
      m ← (if print_prediction_metrics (flags s) then
             correct ← num_at s "correct";
             correct_cnt ← num_at s "correct_cnt";
             let m := <["accuracy" := round_sigfigs (correct / max2 1 correct_cnt)%Q 4]> m in
             f1 ← num_at s "f1";
             f1_cnt ← num_at s "f1_cnt";
             Ok (<["f1" := round_sigfigs (f1 / max2 1 f1_cnt)%Q 4]> m)
           else Ok m);
      m ← (if has_text_cands (flags s) then res_fold (report_hits s) m eval_pr else Ok m);
      res_fold (report_key s) m (metrics_list s)
    else Ok m.

  (** *** [Metrics.clear] *)

  (** The body of [for k in self.metrics_list] in [clear]; no value of the
      table is a tensor, so the first branch of the source is never taken. *)
Definition clear_key (k : string) : M unit :=
    _ ← getitem k;
    (if startswith "inter-distinct" k then setitem k (VCounter ∅)
     else setitem k (VNum 0));;
    if negb (is_crs k) then setitem (k +:+ "_cnt") (VNum 0) else ret tt.

Definition clear : M unit :=
    with_lock (
      setitem "cnt" (VNum 0);;
      l ← get_metrics_list;
      for_each l clear_key;;
      for_each crs_metrics (λ crs_metric,
        if negb (bool_decide (crs_metric = "inter-distinct"))
        then setitem (crs_metric +:+ "_cnt") (VNum 0) else ret tt);;
      for_each eval_pr (λ k, setitem ("hits@" +:+ str k) (VNum 0));;
      setitem "hits@_cnt" (VNum 0)).

  (** *** [aggregate_metrics] *)

  (** The dict [m] that [aggregate_metrics] returns: the entry [tasks] and
      the numeric entries. *)
Record Aggregate := {
    tasks : gmap string (gmap string Q);
    entries : gmap string Q
  }.

  (** [while tid in m['tasks']: tid += '_'], at most [fuel] turns. *)
Fixpoint fresh_tid (fuel : nat) (tasks : gmap string (gmap string Q)) (tid : string) : string :=
    match fuel with
    | O => tid
    | S fuel' =>
        if bool_decide (is_Some (tasks !! tid)) then fresh_tid fuel' tasks (tid +:+ "_")
        else tid
    end.

  (** The keys of [sums], in the order they are inserted. *)
Definition sums_keys : list string :=
    ["accuracy"; "f1"; "loss"; "ppl"] ++ (if nltkbleu_available then ["bleu"] else []).

  (** The loop variables of [aggregate_metrics]. *)
Record AggState := {
    agg_tasks : gmap string (gmap string Q);
    agg_sums : gmap string Q;
    agg_num_tasks : Z;
    agg_total : Q
  }.

  (** [for k in sums.keys(): if k in mt: sums[k] += mt[k]; found_any = True] *)
Definition add_report (mt : gmap string Q) (acc : gmap string Q * bool) (k : string)
    : gmap string Q * bool :=
    match mt !! k with
    | Some x => (<[k := (default 0 (acc.1 !! k) + x)%Q]> acc.1, true)
    | None => acc
    end.

  (** One turn of [for i in range(len(reporters))]; a reporter is given by
      what its [getID()] and [report()] return. *)
Definition aggregate_step (a : AggState) (reporter : string * gmap string Q) : res AggState :=
    let '(tid, mt) := reporter in
    let tid := fresh_tid (S (size (agg_tasks a))) (agg_tasks a) tid in
    let tasks := <[tid := mt]> (agg_tasks a) in
    match mt !! "exs" with
    | None => Raise (KeyError "exs")
    | Some exs =>
        let total := (agg_total a + exs)%Q in
        let '(sums, found_any) := foldl (add_report mt) (agg_sums a, false) sums_keys in
        Ok {| agg_tasks := tasks; agg_sums := sums;
              agg_num_tasks := if found_any then (agg_num_tasks a + 1)%Z else agg_num_tasks a;
              agg_total := total |}
    end.

Definition aggregate_metrics (reporters : list (string * gmap string Q)) : res Aggregate :=
    let sums := foldl (λ sums k, <[k := 0%Q]> sums) ∅ sums_keys in
    a ← res_fold aggregate_step
          {| agg_tasks := ∅; agg_sums := sums; agg_num_tasks := 0; agg_total := 0 |}
          reporters;
    let m := <["accuracy" := 0%Q]> (<["exs" := agg_total a]> ∅) in
    let m :=
      if decide (0 < agg_num_tasks a)%Z then
        foldl (λ m k, <[k := round_sigfigs
                              (default 0 (agg_sums a !! k) / inject_Z (agg_num_tasks a))%Q 4]> m)
              m sums_keys
      else m in
    Ok {| tasks := agg_tasks a; entries := m |}.
End accumulator.

(** ** A model of [round_sigfigs] and an installation to run examples on *)

(** [10 ** e] *)
Definition pow10 (e : Z) : Q :=
  if (0 <=? e)%Z then inject_Z (10 ^ e) else (1 / inject_Z (10 ^ (- e)))%Q.

(** [floor(log10(n))] of an integer [n >= 1] *)
Fixpoint ilog10 (fuel : nat) (n : Z) : Z :=
  match fuel with
  | O => 0
  | S fuel' => if (n <? 10)%Z then 0%Z else (1 + ilog10 fuel' (n / 10))%Z
  end.

(** [floor(log10(x))] of a rational [0 < x < 1] *)
Fixpoint neg_log10 (fuel : nat) (x : Q) : Z :=
  match fuel with
  | O => 0
  | S fuel' => if Qle_bool 1 x then 0%Z else (neg_log10 fuel' (x * 10)%Q - 1)%Z
  end.

(** [math.floor(math.log10(x))] of a rational [x > 0] *)
Definition floor_log10 (x : Q) : Z :=
  if Qle_bool 1 x then ilog10 (S (Z.to_nat (Z.log2 (Qfloor x)))) (Qfloor x)
  else neg_log10 (S (Z.to_nat (Z.log2 (Zpos (Qden x))))) x.

(** Python's [round] to an integer: to the nearest, a tie to the even one. *)
Definition round_half_even (x : Q) : Z :=
  let f := Qfloor x in
  match (x - inject_Z f ?= 1 # 2)%Q with
  | Lt => f
  | Gt => (f + 1)%Z
  | Eq => if Z.even f then f else (f + 1)%Z
  end.

(** [round(x, ndigits)] *)
Definition round_to (x : Q) (ndigits : Z) : Q :=
  (inject_Z (round_half_even (x * pow10 ndigits)) * pow10 (- ndigits))%Q.

(** Modelled from the spec: [round_sigfigs] (parlai.core.utils, not under
    src/) rounds to the given number of significant figures, zero to zero:
    [round(x, -floor(log10(abs(x))) + sigfigs - 1)]. *)
Definition round_sigfigs_model (x : Q) (sigfigs : nat) : Q :=
  if Qeq_bool x 0 then 0%Q
  else Qred (round_to x (- (floor_log10 (Qabs x) - Z.of_nat sigfigs + 1))).

(** An installation without nltk and without py-rouge: the two scorers are
    never called. *)
Definition plain_install : Externals := {|
  nltkbleu_available := false;
  rouge_available := false;
  sentence_bleu := λ _ _ _, Raise OtherError;
  rouge_get_scores := λ _ _, Raise OtherError;
  round_sigfigs := round_sigfigs_model
|}.

(** An installation with both libraries, whose scorers answer one half. *)
Definition full_install : Externals := {|
  nltkbleu_available := true;
  rouge_available := true;
  sentence_bleu := λ _ _ _, Ok (1 # 2);
  rouge_get_scores := λ _ _, Ok (λ _ _, 1 # 2);
  round_sigfigs := round_sigfigs_model
|}.

(** [update] and [clear] called for their effect on the object. *)
Definition run {A} (m : M A) (s : Metrics) : Metrics := (m s).1.

Definition outcome {A} (m : M A) (s : Metrics) : res A := (m s).2.

(** A call of a method that mutates the accumulator. *)
Inductive call :=
| Update (observation : Observation) (labels : list string)
| Clear.

Section calls.
  Context `{Externals}.

  (** The state after a call, whether it returned or raised. *)
Definition do_call (s : Metrics) (c : call) : Metrics :=
    match c with
    | Update observation labels => run (update observation labels) s
    | Clear => run clear s
    end.

Definition do_calls (s : Metrics) (cs : list call) : Metrics := foldl do_call s cs.
End calls.

(** ** Reasoning about the methods *)

(** [m] leaves the entry of the table at [k] as it was, also when it raises. *)
Definition keeps {A} (k : string) (m : M A) : Prop :=
  ∀ s, metrics (m s).1 !! k = metrics s !! k.

(** [m] keeps the property [P] of the object, also when it raises. *)
Definition preserves {A} (P : Metrics → Prop) (m : M A) : Prop :=
  ∀ s, P s → P (m s).1.

(** When [m] returns, it has added [x] to the number at [k]. *)
Definition advances {A} (k : string) (x : Q) (m : M A) : Prop :=
  ∀ s s' r, m s = (s', Ok r) →
    ∃ y, metrics s !! k = Some (VNum y) ∧ metrics s' !! k = Some (VNum (y + x)%Q).

(** [m] changes neither the list of registered keys nor the kind of table. *)
Definition keeps_list {A} (m : M A) : Prop :=
  ∀ s, metrics_list (m s).1 = metrics_list s ∧ shared (m s).1 = shared s.

Section monad_facts.
  Context {A B : Type}.
  Implicit Types (m : M A) (f : A → M B).

Lemma bind_unfold m f s :
    (m ≫= f) s = match m s with
                 | (s', Ok a) => f a s'
                 | (s', Raise e) => (s', Raise e)
                 end.
  Proof. reflexivity. Qed.

Lemma bind_ok m f s s' b :
    (m ≫= f) s = (s', Ok b) → ∃ s1 a, m s = (s1, Ok a) ∧ f a s1 = (s', Ok b).
  Proof.
    rewrite bind_unfold. destruct (m s) as [s1 [a|e]]; [eauto | discriminate].
  Qed.

Lemma bind_ok_intro m f s s1 a :
    m s = (s1, Ok a) → (m ≫= f) s = f a s1.
  Proof. intros E. by rewrite bind_unfold, E. Qed.

Lemma keeps_bind k m f :
    keeps k m → (∀ a, keeps k (f a)) → keeps k (m ≫= f).
  Proof.
    intros Hm Hf s. rewrite bind_unfold. specialize (Hm s).
    destruct (m s) as [s1 [a|e]]; simpl in *; [| done].
    by rewrite Hf.
  Qed.

Lemma preserves_bind P m f :
    preserves P m → (∀ a, preserves P (f a)) → preserves P (m ≫= f).
  Proof.
    intros Hm Hf s HP. rewrite bind_unfold. specialize (Hm s HP).
    destruct (m s) as [s1 [a|e]]; simpl in *; [| done].
    by apply Hf.
  Qed.

Lemma keeps_list_bind m f :
    keeps_list m → (∀ a, keeps_list (f a)) → keeps_list (m ≫= f).
  Proof.
    intros Hm Hf s. rewrite bind_unfold. specialize (Hm s).
    destruct (m s) as [s1 [a|e]]; simpl in *; [| done].
    destruct (Hf a s1) as [-> ->]. done.
  Qed.

Lemma advances_bind_l k x m f :
    advances k x m → (∀ a, keeps k (f a)) → advances k x (m ≫= f).
  Proof.
    intros Hm Hf s s' r E. apply bind_ok in E as (s1 & a & E1 & E2).
    destruct (Hm _ _ _ E1) as (y & Hy & Hy'). exists y. split; [done |].
    specialize (Hf a s1). rewrite E2 in Hf. simpl in Hf. by rewrite Hf.
  Qed.

Lemma advances_bind_r k x m f :
    keeps k m → (∀ a, advances k x (f a)) → advances k x (m ≫= f).
  Proof.
    intros Hm Hf s s' r E. apply bind_ok in E as (s1 & a & E1 & E2).
    destruct (Hf _ _ _ _ E2) as (y & Hy & Hy'). exists y. split; [| done].
    specialize (Hm s). rewrite E1 in Hm. simpl in Hm. by rewrite <- Hm.
  Qed.
End monad_facts.

Section primitive_facts.
  Context {A : Type}.

Lemma keeps_ret k (a : A) : keeps k (ret a).
  Proof. done. Qed.

Lemma keeps_raise k e : keeps k (raise (A := A) e).
  Proof. done. Qed.

Lemma keeps_lift k (r : res A) : keeps k (lift r).
  Proof. done. Qed.

Lemma preserves_ret P (a : A) : preserves P (ret a).
  Proof. by intros s. Qed.

Lemma preserves_raise P e : preserves P (raise (A := A) e).
  Proof. by intros s. Qed.

Lemma preserves_lift P (r : res A) : preserves P (lift r).
  Proof. by intros s. Qed.

Lemma keeps_list_ret (a : A) : keeps_list (ret a).
  Proof. done. Qed.

Lemma keeps_list_raise e : keeps_list (raise (A := A) e).
  Proof. done. Qed.

Lemma keeps_list_lift (r : res A) : keeps_list (lift r).
  Proof. done. Qed.

Lemma keeps_for_each k (l : list A) body :
    (∀ x, x ∈ l → keeps k (body x)) → keeps k (for_each l body).
  Proof.
    induction l as [| x l IH]; intros Hb; [done |].
    apply keeps_bind; [apply Hb; left | intros _; apply IH].
    intros y Hy. apply Hb. by right.
  Qed.

Lemma preserves_for_each P (l : list A) body :
    (∀ x, x ∈ l → preserves P (body x)) → preserves P (for_each l body).
  Proof.
    induction l as [| x l IH]; intros Hb; [by intros s |].
    apply preserves_bind; [apply Hb; left | intros _; apply IH].
    intros y Hy. apply Hb. by right.
  Qed.

Lemma keeps_list_for_each (l : list A) body :
    (∀ x, x ∈ l → keeps_list (body x)) → keeps_list (for_each l body).
  Proof.
    induction l as [| x l IH]; intros Hb; [done |].
    apply keeps_list_bind; [apply Hb; left | intros _; apply IH].
    intros y Hy. apply Hb. by right.
  Qed.
End primitive_facts.

Lemma keeps_getitem k k' : keeps k (getitem k').
Proof. done. Qed.

Lemma keeps_contains k k' : keeps k (contains k').
Proof. done. Qed.

Lemma keeps_get_metrics_list k : keeps k get_metrics_list.
Proof. done. Qed.

Lemma keeps_is_shared k : keeps k is_shared.
Proof. done. Qed.

Lemma keeps_set_has_text_cands k : keeps k set_has_text_cands.
Proof. done. Qed.

Lemma keeps_set_print k : keeps k set_print_prediction_metrics.
Proof. done. Qed.

Lemma keeps_append k k' : keeps k (append_metrics_list k').
Proof. done. Qed.

Lemma keeps_setitem k k' v : k' ≠ k → keeps k (setitem k' v).
Proof. intros Hne s. simpl. by rewrite lookup_insert_ne. Qed.

Lemma keeps_iadd_num k k' x : k' ≠ k → keeps k (iadd_num k' x).
Proof.
  intros Hne. apply keeps_bind; [apply keeps_getitem |].
  intros [y | c]; [by apply keeps_setitem | apply keeps_raise].
Qed.

Lemma keeps_iadd_opt k k' x : k' ≠ k → keeps k (iadd_opt k' x).
Proof.
  intros Hne. apply keeps_bind; [apply keeps_getitem |].
  intros [y | c]; destruct x; try apply keeps_raise. by apply keeps_setitem.
Qed.

Lemma keeps_iadd_counter k k' c : k' ≠ k → keeps k (iadd_counter k' c).
Proof.
  intros Hne. apply keeps_bind; [apply keeps_getitem |].
  intros [y | d]; [apply keeps_raise | by apply keeps_setitem].
Qed.

Lemma keeps_list_getitem k : keeps_list (getitem k).
Proof. done. Qed.

Lemma keeps_list_setitem k v : keeps_list (setitem k v).
Proof. done. Qed.

Lemma keeps_list_iadd_num k x : keeps_list (iadd_num k x).
Proof.
  apply keeps_list_bind; [done |]. by intros [y | c].
Qed.

Lemma keeps_list_iadd_opt k x : keeps_list (iadd_opt k x).
Proof.
  apply keeps_list_bind; [done |]. by intros [y | c]; destruct x.
Qed.

Lemma keeps_list_iadd_counter k c : keeps_list (iadd_counter k c).
Proof.
  apply keeps_list_bind; [done |]. by intros [y | d].
Qed.

Lemma keeps_list_set_has_text_cands : keeps_list set_has_text_cands.
Proof. done. Qed.

Lemma keeps_list_set_print : keeps_list set_print_prediction_metrics.
Proof. done. Qed.

Lemma iadd_num_run k x s :
  iadd_num k x s =
    match metrics s !! k with
    | Some (VNum y) => (set_metrics (<[k := VNum (y + x)%Q]> (metrics s)) s, Ok tt)
    | Some (VCounter _) => (s, Raise AttributeError)
    | None => (s, Raise (KeyError k))
    end.
Proof.
  unfold iadd_num. rewrite bind_unfold. unfold getitem.
  by destruct (metrics s !! k) as [[y | c] |].
Qed.

Lemma advances_iadd_num k x : advances k x (iadd_num k x).
Proof.
  intros s s' r. rewrite iadd_num_run.
  destruct (metrics s !! k) as [[y | c] |] eqn:E; intros [= <-]; [].
  exists y. split; [done |]. simpl. by rewrite lookup_insert_eq.
Qed.

(** *** The keys each part of [update] writes *)

Definition score_keys : list string :=
  ["f1"; "f1_cnt"; "bleu-1"; "bleu-2"; "bleu-3"; "bleu-4"; "bleu_cnt";
   "rouge-1"; "rouge-2"; "rouge-l"; "rouge_cnt";
   "intra-distinct-1"; "intra-distinct-2"; "intra-distinct-3"; "intra-distinct-4";
   "inter-distinct-1"; "inter-distinct-2"; "inter-distinct-3"; "inter-distinct-4";
   "intra-distinct_cnt"].

Definition text_keys : list string := ["correct"; "correct_cnt"] ++ score_keys.

Definition hits_keys : list string :=
  ["hits@1"; "hits@5"; "hits@10"; "hits@100"; "hits@_cnt"].

(** No user-reported metric of the observation writes a key of [K]: a
    user-reported key [k] may write the entries [k] and [k_cnt]. *)
Definition avoids (K : list string) (o : Observation) : Prop :=
  Forall (λ kv : string * Q, (fst kv ∉ K) ∧ ((fst kv +:+ "_cnt") ∉ K)) (default [] (obs_metrics o)).

Lemma ne_of_not_elem (l : list string) k k' :
  k ∉ l → bool_decide (k' ∈ l) = true → k' ≠ k.
Proof. intros Hk Hk' ->. apply Hk. by apply bool_decide_eq_true in Hk'. Qed.

(** Decides a closed proposition by evaluation. *)
Ltac by_compute := apply (bool_decide_unpack _); vm_compute; exact I.

Ltac key_ne :=
  first [ assumption
        | apply not_eq_sym; assumption
        | discriminate
        | eapply ne_of_not_elem; [eassumption | reflexivity]
        | let E := fresh in intros E; vm_compute in E; discriminate E ].

Ltac keeps_step :=
  first
    [ apply keeps_ret | apply keeps_raise | apply keeps_lift
    | apply keeps_getitem | apply keeps_contains | apply keeps_get_metrics_list
    | apply keeps_is_shared | apply keeps_set_has_text_cands | apply keeps_set_print
    | apply keeps_append
    | apply keeps_setitem; key_ne
    | apply keeps_iadd_num; key_ne
    | apply keeps_iadd_opt; key_ne
    | apply keeps_iadd_counter; key_ne
    | apply keeps_bind; [| intros ?]
    | match goal with
      | |- keeps _ (if ?b then _ else _) => case b
      end ].

Ltac keeps_tac := unfold with_lock; simpl for_each; repeat keeps_step.

Section frames.
  Context `{Externals}.

Lemma keeps_fold_cnt k : k ≠ "cnt" → keeps k fold_cnt.
  Proof. intros Hk. unfold fold_cnt. keeps_tac. Qed.

Lemma keeps_fold_correct k c : k ∉ text_keys → keeps k (fold_correct c).
  Proof. intros Hk. unfold fold_correct. keeps_tac. Qed.

Lemma keeps_fold_scores k p l f1 : k ∉ score_keys → keeps k (fold_scores p l f1).
  Proof. intros Hk. unfold fold_scores. keeps_tac. Qed.

Lemma keeps_update_text k o l :
    text o = None ∨ k ∉ text_keys → keeps k (update_text o l).
  Proof.
    intros Hk. unfold update_text. destruct (text o) as [p |]; [| apply keeps_ret].
    destruct Hk as [| Hk]; [done |].
    assert (k ∉ score_keys).
    { intros Hin. apply Hk. unfold text_keys. rewrite elem_of_app. by right. }
    apply keeps_bind; [by apply keeps_fold_correct | intros _].
    apply keeps_bind; [apply keeps_lift | intros f1].
    apply keeps_bind; [by apply keeps_fold_scores | intros _; apply keeps_ret].
  Qed.

Lemma keeps_fold_ranking k cnts : k ∉ hits_keys → keeps k (fold_ranking cnts).
  Proof. intros Hk. unfold fold_ranking. keeps_tac. Qed.

Lemma keeps_update_ranking_metrics k o l :
    text_candidates o = None ∨ k ∉ hits_keys → keeps k (update_ranking_metrics o l).
  Proof.
    intros Hk. unfold update_ranking_metrics.
    destruct (text_candidates o); [| apply keeps_ret].
    destruct Hk as [| Hk]; [done |]. by apply keeps_fold_ranking.
  Qed.

Lemma keeps_user_metric k0 k v :
    k ≠ k0 → k +:+ "_cnt" ≠ k0 → keeps k0 (user_metric (k, v)).
  Proof. intros Hk Hc. unfold user_metric. keeps_tac. Qed.

Lemma keeps_update_user_metrics k o :
    avoids [k] o → keeps k (update_user_metrics o).
  Proof.
    unfold avoids, update_user_metrics. destruct (obs_metrics o) as [items |]; simpl;
      [| intros _; apply keeps_ret].
    intros Hav. apply keeps_for_each. intros [k' v] Hin.
    rewrite Forall_forall in Hav. destruct (Hav _ Hin) as [H1 H2]. simpl in *.
    apply keeps_user_metric; intros E; [apply H1 | apply H2]; rewrite E; by left.
  Qed.

End frames.

(** *** The freshly constructed accumulator *)

(** The table holds a number at [k]. *)
Definition holds_num (k : string) (s : Metrics) : Prop :=
  ∃ x, metrics s !! k = Some (VNum x).

(** Every registered key is a key of the table. *)
Definition registered_present (s : Metrics) : Prop :=
  Forall (λ k, is_Some (metrics s !! k)) (metrics_list s).

Definition builtin_num_keys : list string :=
  ["cnt"; "correct"; "correct_cnt"; "f1"; "f1_cnt"; "bleu_cnt"; "rouge_cnt";
   "intra-distinct-1"; "intra-distinct-2"; "intra-distinct-3"; "intra-distinct-4";
   "intra-distinct_cnt"; "hits@1"; "hits@5"; "hits@10"; "hits@100"; "hits@_cnt"].

Section init_facts.
  Context `{Externals}.

Lemma init_num opt k :
    k ∈ builtin_num_keys → metrics (__init__ opt) !! k = Some (VNum 0).
  Proof.
    intros Hk. unfold __init__, initial_metrics_list. cbn [metrics].
    destruct nltkbleu_available, rouge_available;
      repeat (apply elem_of_cons in Hk as [-> | Hk]; [vm_compute; reflexivity |]);
      by apply elem_of_nil in Hk.
  Qed.

Lemma init_counter opt k :
    k ∈ ["inter-distinct-1"; "inter-distinct-2"; "inter-distinct-3"; "inter-distinct-4"] →
    metrics (__init__ opt) !! k = Some (VCounter ∅).
  Proof.
    intros Hk. unfold __init__, initial_metrics_list. cbn [metrics].
    destruct nltkbleu_available, rouge_available;
      repeat (apply elem_of_cons in Hk as [-> | Hk]; [vm_compute; reflexivity |]);
      by apply elem_of_nil in Hk.
  Qed.

Lemma init_registered_present opt : registered_present (__init__ opt).
  Proof.
    unfold registered_present, __init__, initial_metrics_list. cbn [metrics metrics_list].
    destruct nltkbleu_available, rouge_available;
      apply (bool_decide_unpack _); vm_compute; reflexivity.
  Qed.
End init_facts.

(** *** What the critical sections of [update] compute *)

Section sections_run.
  Context `{Externals}.

Lemma fold_cnt_run s c :
    metrics s !! "cnt" = Some (VNum c) →
    fold_cnt s = (set_metrics (<["cnt" := VNum (c + 1)%Q]> (metrics s)) s, Ok tt).
  Proof. intros E. unfold fold_cnt, with_lock. by rewrite iadd_num_run, E. Qed.

Lemma fold_correct_run s c x y :
    metrics s !! "correct" = Some (VNum x) →
    metrics s !! "correct_cnt" = Some (VNum y) →
    fold_correct c s =
      ({| metrics := <["correct_cnt" := VNum (y + 1)%Q]>
                       (<["correct" := VNum (x + c)%Q]> (metrics s));
          metrics_list := metrics_list s;
          flags := {| has_text_cands := has_text_cands (flags s);
                      print_prediction_metrics := true |};
          shared := shared s |}, Ok tt).
  Proof.
    intros Ex Ey. unfold fold_correct, with_lock.
    rewrite bind_unfold. cbn [set_print_prediction_metrics].
    rewrite bind_unfold, iadd_num_run. cbn [set_flags metrics]. rewrite Ex.
    rewrite iadd_num_run. cbn [set_metrics metrics].
    rewrite lookup_insert_ne by done. by rewrite Ey.
  Qed.

  (** With a prediction and an empty list of labels, [_f1_score] takes the
      maximum of an empty sequence. *)
Lemma f1_score_no_labels p : _f1_score (Some p) (Some []) = Raise ValueError.
  Proof. reflexivity. Qed.

Lemma update_no_labels_raises s o p :
    text o = Some p →
    holds_num "cnt" s → holds_num "correct" s → holds_num "correct_cnt" s →
    outcome (update o []) s = Raise ValueError.
  Proof.
    intros Et [c Ec] [x Ex] [y Ey]. unfold outcome, update.
    rewrite bind_unfold, (fold_cnt_run _ _ Ec).
    rewrite bind_unfold. unfold update_text. rewrite Et.
    rewrite bind_unfold.
    erewrite fold_correct_run; cycle 1.
    { cbn [set_metrics metrics]. rewrite lookup_insert_ne by done. exact Ex. }
    { cbn [set_metrics metrics]. rewrite lookup_insert_ne by done. exact Ey. }
    rewrite bind_unfold, f1_score_no_labels. reflexivity.
  Qed.
End sections_run.

(** ** C4: a prediction with an empty list of labels *)

(** C4. On a freshly constructed accumulator, [update] with a prediction
    text and an empty list of reference labels does not return: it raises
    the [ValueError] of [max()] over an empty sequence, from [_f1_score]. *)
Theorem update_empty_labels_raises `{Externals} opt p cands user :
  outcome (update {| text := Some p; text_candidates := cands; obs_metrics := user |} [])
          (__init__ opt)
  = Raise ValueError.
Proof.
  apply (update_no_labels_raises _ _ p); [done | ..];
    eexists; apply init_num; by apply (bool_decide_unpack _).
Qed.

(** *** Invariants of the methods *)

(** [m] returns from every state. *)
Definition total {A} (m : M A) : Prop := ∀ s, ∃ a, (m s).2 = Ok a.

Lemma total_bind {A B} (m : M A) (f : A → M B) :
  total m → (∀ a, total (f a)) → total (m ≫= f).
Proof.
  intros Hm Hf s. rewrite bind_unfold. destruct (Hm s) as [a Ha].
  destruct (m s) as [s1 r]. simpl in Ha. subst r. apply Hf.
Qed.

Lemma total_ret {A} (a : A) : total (ret a).
Proof. intros s. by exists a. Qed.

Lemma total_setitem k v : total (setitem k v).
Proof. intros s. by exists tt. Qed.

Lemma total_for_each {A} (l : list A) body :
  (∀ x, total (body x)) → total (for_each l body).
Proof.
  intros Hb. induction l as [| x l IH]; [apply total_ret |].
  apply total_bind; [apply Hb | intros _; apply IH].
Qed.

Lemma preserves_getitem P k : preserves P (getitem k).
Proof. by intros s. Qed.

Lemma preserves_contains P k : preserves P (contains k).
Proof. by intros s. Qed.

Lemma preserves_get_metrics_list P : preserves P get_metrics_list.
Proof. by intros s. Qed.

Lemma preserves_is_shared P : preserves P is_shared.
Proof. by intros s. Qed.

Lemma preserves_iadd_num (P : Metrics → Prop) k x :
  (∀ s y, P s → metrics s !! k = Some (VNum y) →
          P (set_metrics (<[k := VNum (y + x)%Q]> (metrics s)) s)) →
  preserves P (iadd_num k x).
Proof.
  intros HP s Hs. rewrite iadd_num_run.
  destruct (metrics s !! k) as [[y | c] |] eqn:E; simpl; eauto.
Qed.

Lemma preserves_iadd_opt (P : Metrics → Prop) k x :
  (∀ s y z, P s → metrics s !! k = Some (VNum y) →
            P (set_metrics (<[k := VNum (y + z)%Q]> (metrics s)) s)) →
  preserves P (iadd_opt k x).
Proof.
  intros HP s Hs. unfold iadd_opt. rewrite bind_unfold. unfold getitem.
  destruct (metrics s !! k) as [[y | c] |] eqn:E; destruct x; simpl; eauto.
Qed.

Lemma preserves_iadd_counter (P : Metrics → Prop) k c :
  (∀ s d, P s → metrics s !! k = Some (VCounter d) →
          P (set_metrics (<[k := VCounter (counter_iadd d c)]> (metrics s)) s)) →
  preserves P (iadd_counter k c).
Proof.
  intros HP s Hs. unfold iadd_counter. rewrite bind_unfold. unfold getitem.
  destruct (metrics s !! k) as [[y | d] |] eqn:E; simpl; eauto.
Qed.

(** A property of the entry at [k] alone is kept by what keeps that entry. *)
Lemma keeps_preserves {A} (m : M A) k (Q : option value → Prop) :
  keeps k m → preserves (λ s, Q (metrics s !! k)) m.
Proof. intros Hk s Hs. by rewrite Hk. Qed.

(** Decomposes a goal [preserves P m] along the structure of [m], down to
    the assignments it makes. *)
Ltac preserves_step :=
  first
    [ apply preserves_ret | apply preserves_raise | apply preserves_lift
    | apply preserves_getitem | apply preserves_contains
    | apply preserves_get_metrics_list | apply preserves_is_shared
    | apply preserves_bind; [| intros ?]
    | match goal with
      | |- preserves _ (if ?b then _ else _) => case b
      end ].

Ltac preserves_tac := unfold with_lock; simpl for_each; repeat preserves_step.

(** The calls of a sequence keep what each call keeps. *)
Lemma do_calls_ind `{Externals} (P : Metrics → Prop) s cs :
  (∀ o l, preserves P (update o l)) → preserves P clear →
  P s → P (do_calls s cs).
Proof.
  intros Hu Hc. revert s. induction cs as [| c cs IH]; intros s Hs; [done |].
  simpl. apply IH. destruct c as [o l |]; [by apply Hu | by apply Hc].
Qed.

(** A property of the object that every assignment of [update] and [clear]
    keeps: writing a number, adding a [Counter] to a [Counter], resetting an
    inter-distinct key to the empty [Counter], setting a flag, and
    registering a key that is in the table. *)
Record stable (P : Metrics → Prop) : Prop := {
  stable_num : ∀ s k z, P s → P (setitem k (VNum z) s).1;
  stable_counter : ∀ s k d c, P s → metrics s !! k = Some (VCounter d) →
                   P (setitem k (VCounter (counter_iadd d c)) s).1;
  stable_reset : ∀ s k, P s → startswith "inter-distinct" k = true →
                 P (setitem k (VCounter ∅) s).1;
  stable_flags : ∀ s f, P s → P (set_flags f s);
  stable_append : ∀ s k, P s → is_Some (metrics s !! k) → P (append_metrics_list k s).1
}.

Section stable_facts.
  Context `{Externals} (P : Metrics → Prop) (HP : stable P).

Lemma stable_setitem_num k z : preserves P (setitem k (VNum z)).
  Proof. intros s Hs. exact (stable_num P HP s k z Hs). Qed.

Lemma stable_iadd_num k x : preserves P (iadd_num k x).
  Proof. apply preserves_iadd_num. intros s y Hs _. exact (stable_num P HP s k _ Hs). Qed.

Lemma stable_iadd_opt k x : preserves P (iadd_opt k x).
  Proof. apply preserves_iadd_opt. intros s y z Hs _. exact (stable_num P HP s k _ Hs). Qed.

Lemma stable_iadd_counter k c : preserves P (iadd_counter k c).
  Proof.
    apply preserves_iadd_counter. intros s d Hs E. exact (stable_counter P HP s k d c Hs E).
  Qed.

Lemma stable_set_has_text_cands : preserves P set_has_text_cands.
  Proof. intros s Hs. exact (stable_flags P HP s _ Hs). Qed.

Lemma stable_set_print : preserves P set_print_prediction_metrics.
  Proof. intros s Hs. exact (stable_flags P HP s _ Hs). Qed.

Ltac stable_tac :=
    unfold with_lock; simpl for_each;
    repeat first
      [ apply stable_setitem_num | apply stable_iadd_num | apply stable_iadd_opt
      | apply stable_iadd_counter | apply stable_set_has_text_cands
      | apply stable_set_print | preserves_step ].

Lemma stable_fold_cnt : preserves P fold_cnt.
  Proof. unfold fold_cnt. stable_tac. Qed.

Lemma stable_fold_correct c : preserves P (fold_correct c).
  Proof. unfold fold_correct. stable_tac. Qed.

Lemma stable_fold_scores p l f1 : preserves P (fold_scores p l f1).
  Proof. unfold fold_scores. stable_tac. Qed.

Lemma stable_update_text o l : preserves P (update_text o l).
  Proof.
    unfold update_text. destruct (text o) as [p |]; [| apply preserves_ret].
    apply preserves_bind; [apply stable_fold_correct | intros _].
    apply preserves_bind; [apply preserves_lift | intros f1].
    apply preserves_bind; [apply stable_fold_scores | intros _; apply preserves_ret].
  Qed.

Lemma stable_update_ranking_metrics o l : preserves P (update_ranking_metrics o l).
  Proof.
    unfold update_ranking_metrics. destruct (text_candidates o); [| apply preserves_ret].
    unfold fold_ranking. stable_tac.
  Qed.

Lemma stable_user_metric kv : preserves P (user_metric kv).
  Proof.
    destruct kv as [k v]. unfold user_metric.
    case (bool_decide (k ∉ reserved)); [| apply preserves_ret].
    apply preserves_bind; [apply preserves_get_metrics_list | intros l].
    case (bool_decide (k ∈ l)); [stable_tac |].
    apply preserves_bind; [apply preserves_is_shared | intros sh].
    destruct sh; [apply preserves_ret |].
    apply preserves_bind; [apply preserves_contains | intros known].
    destruct known; simpl; [stable_tac |].
    intros s Hs.
    pose proof (stable_num P HP s k v Hs) as H1.
    assert (is_Some (metrics (setitem k (VNum v) s).1 !! k)) as Hk.
    { cbn. rewrite lookup_insert_eq. by eexists. }
    pose proof (stable_append P HP _ k H1 Hk) as H2.
    exact (stable_num P HP _ (k +:+ "_cnt") 1%Q H2).
  Qed.

Lemma stable_update o l : preserves P (update o l).
  Proof.
    unfold update.
    apply preserves_bind; [apply stable_fold_cnt | intros _].
    apply preserves_bind; [apply stable_update_text | intros c].
    apply preserves_bind; [apply stable_update_ranking_metrics | intros _].
    apply preserves_bind; [| intros _; apply preserves_ret].
    unfold update_user_metrics. destruct (obs_metrics o); [| apply preserves_ret].
    apply preserves_for_each. intros kv _. apply stable_user_metric.
  Qed.

Lemma stable_clear_key k : preserves P (clear_key k).
  Proof.
    unfold clear_key.
    apply preserves_bind; [apply preserves_getitem | intros _].
    apply preserves_bind; [| intros _; stable_tac].
    destruct (startswith "inter-distinct" k) eqn:E; [| apply stable_setitem_num].
    intros s Hs. exact (stable_reset P HP s k Hs E).
  Qed.

Lemma stable_clear : preserves P clear.
  Proof.
    unfold clear, with_lock.
    apply preserves_bind; [apply stable_setitem_num | intros _].
    apply preserves_bind; [apply preserves_get_metrics_list | intros l].
    apply preserves_bind;
      [apply preserves_for_each; intros k _; apply stable_clear_key | intros _].
    stable_tac.
  Qed.

  (** A stable property of the fresh accumulator holds after every sequence
      of calls. *)
Lemma stable_do_calls s cs : P s → P (do_calls s cs).
  Proof.
    apply do_calls_ind; [apply stable_update | apply stable_clear].
  Qed.
End stable_facts.

Lemma stable_holds_num k0 :
  startswith "inter-distinct" k0 = false → stable (holds_num k0).
Proof.
  intros Hk0. split; unfold holds_num.
  - intros s k z [x Hx]. cbn. destruct (decide (k = k0)) as [-> | Hne].
    + exists z. by rewrite lookup_insert_eq.
    + exists x. by rewrite lookup_insert_ne.
  - intros s k d c [x Hx] E. exists x. cbn.
    rewrite lookup_insert_ne; [done |]. intros ->. congruence.
  - intros s k [x Hx] E. exists x. cbn [setitem fst set_metrics metrics].
    rewrite lookup_insert_ne; [done |]. intros Heq. subst. congruence.
  - done.
  - done.
Qed.

Lemma stable_registered_present : stable registered_present.
Proof.
  split; unfold registered_present; cbn.
  - intros s k z Hs. eapply Forall_impl; [exact Hs |].
    intros k' Hk'. cbn. rewrite lookup_insert_is_Some. destruct (decide (k = k')); auto.
  - intros s k d c Hs _. eapply Forall_impl; [exact Hs |].
    intros k' Hk'. cbn. rewrite lookup_insert_is_Some. destruct (decide (k = k')); auto.
  - intros s k Hs _. eapply Forall_impl; [exact Hs |].
    intros k' Hk'. cbn. rewrite lookup_insert_is_Some. destruct (decide (k = k')); auto.
  - done.
  - intros s k Hs Hk. apply Forall_app. split; [done |]. by apply Forall_singleton.
Qed.

Lemma stable_is_Some k0 : stable (λ s, is_Some (metrics s !! k0)).
Proof.
  split; cbn; try done;
    intros; rewrite lookup_insert_is_Some; destruct (decide (k = k0)); auto.
Qed.

Lemma total_unit (m : M unit) : total m → ∀ s, m s = ((m s).1, Ok tt).
Proof.
  intros Hm s. destruct (Hm s) as [[] Ha]. destruct (m s) as [s' r]. simpl in *. by subst.
Qed.

(** ** C7: the report of an accumulator with no example *)

Section zero_state.
  Context `{Externals}.

Definition cnt_is_zero (s : Metrics) : Prop := metrics s !! "cnt" = Some (VNum 0).

Lemma cnt_is_zero_setitem_zero k : preserves cnt_is_zero (setitem k (VNum 0)).
  Proof.
    intros s Hs. unfold cnt_is_zero in *. cbn.
    destruct (decide (k = "cnt")) as [-> | Hne];
      [by rewrite lookup_insert_eq | by rewrite lookup_insert_ne].
  Qed.

Lemma cnt_is_zero_clear_key k : preserves cnt_is_zero (clear_key k).
  Proof.
    unfold clear_key.
    apply preserves_bind; [apply preserves_getitem | intros _].
    apply preserves_bind.
    - destruct (startswith "inter-distinct" k) eqn:E; [| apply cnt_is_zero_setitem_zero].
      apply (keeps_preserves _ "cnt" (λ o, o = Some (VNum 0))).
      apply keeps_setitem. by intros ->.
    - intros _. case (negb (is_crs k)); [apply cnt_is_zero_setitem_zero | apply preserves_ret].
  Qed.

Lemma clear_sets_cnt s : cnt_is_zero (run clear s).
  Proof.
    unfold run, clear, with_lock. rewrite bind_unfold. cbn [setitem].
    assert (cnt_is_zero (set_metrics (<["cnt" := VNum 0]> (metrics s)) s)) as Hz.
    { unfold cnt_is_zero. cbn. by rewrite lookup_insert_eq. }
    revert Hz. generalize (set_metrics (<["cnt" := VNum 0]> (metrics s)) s). intros s1 Hz.
    revert s1 Hz. change (preserves cnt_is_zero
      (l ← get_metrics_list;
       for_each l clear_key;;
       for_each crs_metrics (λ crs_metric,
         if negb (bool_decide (crs_metric = "inter-distinct"))
         then setitem (crs_metric +:+ "_cnt") (VNum 0) else ret tt);;
       for_each eval_pr (λ k, setitem ("hits@" +:+ str k) (VNum 0));;
       setitem "hits@_cnt" (VNum 0))).
    apply preserves_bind; [apply preserves_get_metrics_list | intros l].
    apply preserves_bind;
      [apply preserves_for_each; intros k _; apply cnt_is_zero_clear_key | intros _].
    simpl for_each.
    repeat first [ apply cnt_is_zero_setitem_zero | preserves_step ].
  Qed.

Lemma report_of_zero_cnt s : cnt_is_zero s → report s = Ok {[ "exs" := 0%Q ]}.
  Proof.
    intros Hz. unfold report, num_at. rewrite Hz. cbn. by rewrite insert_empty.
  Qed.

Lemma clear_key_returns k s :
    is_Some (metrics s !! k) → clear_key k s = ((clear_key k s).1, Ok tt).
  Proof.
    intros [v Hv]. unfold clear_key. rewrite bind_unfold. unfold getitem. rewrite Hv.
    apply total_unit. apply total_bind.
    - case (startswith "inter-distinct" k); apply total_setitem.
    - intros _. case (negb (is_crs k)); [apply total_setitem | apply total_ret].
  Qed.

Lemma for_each_clear_key_returns l s :
    Forall (λ k, is_Some (metrics s !! k)) l →
    for_each l clear_key s = ((for_each l clear_key s).1, Ok tt).
  Proof.
    revert s. induction l as [| k l IH]; intros s Hl; [done |].
    apply Forall_cons in Hl as [Hk Hl]. cbn [for_each].
    rewrite bind_unfold, (clear_key_returns _ _ Hk).
    apply IH. eapply Forall_impl; [exact Hl |]. intros k' Hk'.
    apply (stable_clear_key _ (stable_is_Some k') k s Hk').
  Qed.

  (** [clear] returns when every registered key is in the table. *)
Lemma clear_returns s : registered_present s → outcome clear s = Ok tt.
  Proof.
    intros Hs. unfold outcome, clear, with_lock. rewrite bind_unfold. cbn [setitem].
    rewrite bind_unfold. cbn [get_metrics_list set_metrics metrics_list].
    rewrite bind_unfold, for_each_clear_key_returns; cycle 1.
    { eapply Forall_impl; [exact Hs |]. intros k Hk. cbn.
      rewrite lookup_insert_is_Some. destruct (decide ("cnt" = k)); auto. }
    match goal with |- (?m ?s).2 = _ => rewrite (total_unit m); [done |] end.
    apply total_bind; [| intros _; apply total_bind; [| intros _; apply total_setitem]];
      apply total_for_each; intros x; [case (negb _) |]; first [apply total_setitem | apply total_ret].
  Qed.

  (** C7. [report()] on a freshly constructed accumulator, and after a
      [clear()] that follows any sequence of [update] and [clear] calls,
      returns exactly the mapping with the one entry [exs = 0]; that
      [clear()] returns. *)
Theorem report_zero_state opt cs :
    report (__init__ opt) = Ok {[ "exs" := 0%Q ]}
    ∧ outcome clear (do_calls (__init__ opt) cs) = Ok tt
    ∧ report (run clear (do_calls (__init__ opt) cs)) = Ok {[ "exs" := 0%Q ]}.
  Proof.
    split; [| split].
    - apply report_of_zero_cnt. apply init_num. by apply (bool_decide_unpack _).
    - apply clear_returns. apply stable_do_calls;
        [apply stable_registered_present | apply init_registered_present].
    - apply report_of_zero_cnt, clear_sets_cnt.
  Qed.
End zero_state.

(** ** C1: the scalar keys of the report *)

(** The keys that [report] writes before its loop over the registered keys. *)
Definition report_head_keys : list string :=
  ["exs"; "accuracy"; "f1"; "hits@1"; "hits@5"; "hits@10"; "hits@100"].

Section report_facts.
  Context `{Externals}.

  (** The entry that one turn of the loop of [report] writes at [k], if any. *)
Definition key_entry (s : Metrics) (k : string) : option Q :=
    match report_key s ∅ k with
    | Ok m => m !! k
    | Raise _ => None
    end.

Lemma res_bind_ok {A B} (r : res A) (f : A → res B) b :
    r ≫= f = Ok b → ∃ a, r = Ok a ∧ f a = Ok b.
  Proof. destruct r as [a | e]; [eauto | done]. Qed.

Lemma Qgtb_true c : Qgtb c 0 = true ↔ (0 < c)%Q.
  Proof.
    unfold Qgtb. destruct (Qlt_le_dec 0 c) as [Hlt | Hle]; split; try done.
    intros Hc. exfalso. by apply (Qlt_not_le _ _ Hc).
  Qed.

Lemma report_key_lookup s m0 k m1 k' :
    report_key s m0 k = Ok m1 →
    m1 !! k' = if decide (k' = k) then from_option Some (m0 !! k') (key_entry s k)
               else m0 !! k'.
  Proof.
    unfold key_entry, report_key.
    destruct (negb (startswith "inter-distinct" k)).
    - destruct (num_at s (cnt_key k)) as [c | e]; [| done]. cbn.
      destruct (Qgtb c 0 && negb (bool_decide (k = "correct"))
                && negb (bool_decide (k = "f1"))).
      + destruct (num_at s k) as [x | e]; [| done]. cbn. intros [= <-].
        destruct (decide (k' = k)) as [-> | Hne];
          [by rewrite !lookup_insert_eq | by rewrite lookup_insert_ne].
      + intros [= <-]. rewrite lookup_empty. by destruct (decide (k' = k)).
    - destruct (metrics s !! k) as [[x | t] |]; [done | | done].
      destruct (negb (bool_decide (counter_len t = 0%nat))).
      + intros [= <-].
        destruct (decide (k' = k)) as [-> | Hne];
          [by rewrite !lookup_insert_eq | by rewrite lookup_insert_ne].
      + intros [= <-]. rewrite lookup_empty. by destruct (decide (k' = k)).
  Qed.

Lemma res_fold_cons {A B} (step : B → A → res B) b x l :
    res_fold step b (x :: l) = res_bind (step b x) (λ b', res_fold step b' l).
  Proof. reflexivity. Qed.

  (** The loop of [report] over the registered keys: a registered key holds
      what its turn wrote, or what was there when its turn wrote nothing;
      the other keys are left as they were. *)
Lemma report_keys_lookup s l m0 m k :
    res_fold (report_key s) m0 l = Ok m →
    m !! k = if decide (k ∈ l) then from_option Some (m0 !! k) (key_entry s k)
             else m0 !! k.
  Proof.
    revert m0. induction l as [| x l IH]; intros m0.
    - intros [= <-]. destruct (decide (k ∈ [])) as [Hin | _]; [| done].
      by apply elem_of_nil in Hin.
    - rewrite res_fold_cons. destruct (report_key s m0 x) as [m1 | e] eqn:E1; [| done].
      cbn [res_bind]. intros E. rewrite (IH _ E).
      rewrite (report_key_lookup _ _ _ _ k E1).
      destruct (decide (k ∈ l)) as [Hl | Hl].
      + destruct (decide (k ∈ x :: l)) as [_ | Hx];
          [| exfalso; apply Hx; by apply list_elem_of_further].
        destruct (key_entry s k) eqn:Ek; [done |]. cbn.
        destruct (decide (k = x)) as [-> | _]; [by rewrite Ek | done].
      + destruct (decide (k = x)) as [-> | Hne].
        * destruct (decide (x ∈ x :: l)) as [_ | Hx];
            [done | exfalso; apply Hx; by apply list_elem_of_here].
        * destruct (decide (k ∈ x :: l)) as [Hx | _]; [| done].
          apply elem_of_cons in Hx as [? | ?]; done.
  Qed.

Lemma report_hits_lookup s l m0 m k :
    res_fold (report_hits s) m0 l = Ok m →
    k ∉ map (λ n, "hits@" +:+ str n) l → m !! k = m0 !! k.
  Proof.
    revert m0. induction l as [| x l IH]; intros m0; [by intros [= <-] |].
    rewrite res_fold_cons. unfold report_hits at 1.
    destruct (num_at s ("hits@" +:+ str x)) as [h | e]; [| done]. cbn.
    destruct (num_at s "hits@_cnt") as [c | e]; [| done]. cbn.
    intros E Hk. rewrite (IH _ E).
    - rewrite lookup_insert_ne; [done |]. intros <-. apply Hk. by left.
    - intros Hin. apply Hk. by right.
  Qed.

  (** The shape of [report] when the example counter is positive. *)
Lemma report_positive s m total :
    report s = Ok m → metrics s !! "cnt" = Some (VNum total) → (0 < total)%Q →
    ∃ m0, res_fold (report_key s) m0 (metrics_list s) = Ok m
          ∧ ∀ k, k ∉ report_head_keys → m0 !! k = None.
  Proof.
    intros E Ec Hpos. unfold report in E.
    assert (num_at s "cnt" = Ok total) as En by (unfold num_at; by rewrite Ec).
    rewrite En in E.
    apply res_bind_ok in E as (t & [= <-] & E).
    rewrite (proj2 (Qgtb_true total) Hpos) in E.
    apply res_bind_ok in E as (ma & Ea & E).
    apply res_bind_ok in E as (mb & Eb & E).
    exists mb. split; [exact E |].
    intros k Hk.
    assert (ma !! k = None) as Hma.
    { destruct (print_prediction_metrics (flags s)).
      - destruct (num_at s "correct"); [| done]. destruct (num_at s "correct_cnt"); [| done].
        destruct (num_at s "f1"); [| done]. destruct (num_at s "f1_cnt"); [| done].
        cbn in Ea. injection Ea as <-.
        rewrite !lookup_insert_ne, lookup_empty; [done | ..];
          intros <-; apply Hk; by apply (bool_decide_unpack _).
      - injection Ea as <-.
        rewrite !lookup_insert_ne, lookup_empty; [done | ..];
          intros <-; apply Hk; by apply (bool_decide_unpack _). }
    destruct (has_text_cands (flags s)); [| by injection Eb as <-].
    rewrite (report_hits_lookup _ _ _ _ k Eb); [done |].
    intros Hin. apply Hk. cbn in Hin.
    repeat (apply elem_of_cons in Hin as [-> | Hin]; [by apply (bool_decide_unpack _) |]).
    by apply elem_of_nil in Hin.
  Qed.

End report_facts.

(** *** C1 on an example *)

(** One example with a matching prediction and a user-reported loss. *)
Definition obs_hello : Observation :=
  {| text := Some "Hello."; text_candidates := None; obs_metrics := Some [("loss", 1 # 2)] |}.

Definition state_hello : Metrics :=
  run (update (H := plain_install) obs_hello ["hello"]) (__init__ (H := plain_install) ∅).

Definition report_hello : gmap string Q :=
  match report (H := plain_install) state_hello with
  | Ok m => m
  | Raise _ => ∅
  end.



(** ** C5: a user-reported metric under a key that is not registered *)


Section user_metrics.
Context `{Externals}.

Lemma user_metric_unfold k v s :
  k ∉ reserved → k ∉ metrics_list s →
  user_metric (k, v) s =
    if shared s then (s, Ok tt)
    else match metrics s !! k with
         | None =>
             ({| metrics := <[k +:+ "_cnt" := VNum 1]> (<[k := VNum v]> (metrics s));
                 metrics_list := metrics_list s ++ [k];
                 flags := flags s; shared := shared s |}, Ok tt)
         | Some (VNum y) => (set_metrics (<[k := VNum (y + v)%Q]> (metrics s)) s, Ok tt)
         | Some (VCounter _) => (s, Raise AttributeError)
         end.
Proof.
  intros Hres Hreg. unfold user_metric.
  rewrite (bool_decide_eq_true_2 _ Hres).
  rewrite bind_unfold. cbn [get_metrics_list].
  rewrite (bool_decide_eq_false_2 _ Hreg).
  rewrite bind_unfold. cbn [is_shared].
  destruct (shared s) eqn:Esh; [done |].
  rewrite bind_unfold. cbn [contains].
  destruct (metrics s !! k) as [[y | c] |] eqn:Ek.
  - rewrite bool_decide_eq_true_2 by (by eexists). cbn [negb].
    by rewrite iadd_num_run, Ek.
  - rewrite bool_decide_eq_true_2 by (by eexists). cbn [negb].
    by rewrite iadd_num_run, Ek.
  - rewrite bool_decide_eq_false_2 by (by intros [? ?]). cbn [negb].
    unfold mbind, M_mbind, bind. cbn. by rewrite Esh.
Qed.


End user_metrics.

(** *** C5 on examples *)

Definition obs_user (k : string) (v : Q) : Observation :=
  {| text := None; text_candidates := None; obs_metrics := Some [(k, v)] |}.



(** ** C3: the aggregation of the reports of several tasks *)

Section aggregate.
Context `{Externals}.

(** The report holds one of the headline keys. *)
Definition has_headline (mt : gmap string Q) : bool :=
  existsb (λ k, bool_decide (is_Some (mt !! k))) sums_keys.

(** The number of tasks whose report holds one of the headline keys. *)
Definition reporting_tasks (reporters : list (string * gmap string Q)) : Z :=
  Z.of_nat (length (filter (λ r, has_headline r.2 = true) reporters)).

(** The sum of the entries [k] of the reports that have one. *)
Definition key_sum (k : string) (reporters : list (string * gmap string Q)) : Q :=
  foldl (λ acc r, match r.2 !! k with Some x => (acc + x)%Q | None => acc end) 0%Q reporters.

(** The sum of the entries [exs] of the reports. *)
Definition exs_sum (reporters : list (string * gmap string Q)) : Q :=
  foldl (λ acc r, (acc + default 0%Q (r.2 !! "exs"))%Q) 0%Q reporters.

Lemma sums_keys_NoDup : NoDup sums_keys.
Proof. unfold sums_keys. destruct nltkbleu_available; by_compute. Qed.

Lemma exs_not_headline : "exs" ∉ sums_keys.
Proof. unfold sums_keys. destruct nltkbleu_available; by_compute. Qed.

Lemma add_report_fold mt l acc :
  NoDup l →
  let r := foldl (add_report mt) acc l in
  (∀ k, r.1 !! k =
        if decide (k ∈ l)
        then match mt !! k with
             | Some x => Some (default 0 (acc.1 !! k) + x)%Q
             | None => acc.1 !! k
             end
        else acc.1 !! k)
  ∧ r.2 = acc.2 || existsb (λ k, bool_decide (is_Some (mt !! k))) l.
Proof.
  revert acc. induction l as [| x l IH]; intros acc Hnd.
  - cbn. split; [| by rewrite orb_false_r]. intros k.
    destruct (decide (k ∈ [])) as [Hin | _]; [by apply elem_of_nil in Hin | done].
  - apply NoDup_cons in Hnd as [Hx Hnd]. cbn [foldl].
    destruct (IH (add_report mt acc x) Hnd) as [IH1 IH2]. cbv zeta. split.
    + intros k. rewrite IH1. unfold add_report.
      destruct (decide (k ∈ l)) as [Hl | Hl].
      * destruct (decide (k ∈ x :: l)) as [_ | Hn];
          [| exfalso; apply Hn; by apply list_elem_of_further].
        assert (k ≠ x) by (by intros ->).
        destruct (mt !! x); cbn; [rewrite lookup_insert_ne by done |]; done.
      * destruct (decide (k = x)) as [-> | Hne].
        -- destruct (decide (x ∈ x :: l)) as [_ | Hn];
             [| exfalso; apply Hn; by apply list_elem_of_here].
           destruct (mt !! x); cbn; [by rewrite lookup_insert_eq | done].
        -- destruct (decide (k ∈ x :: l)) as [Hn | _];
             [apply elem_of_cons in Hn as [? | ?]; done |].
           destruct (mt !! x); cbn; [by rewrite lookup_insert_ne | done].
    + rewrite IH2. unfold add_report. cbn [existsb].
      destruct (mt !! x) as [q |]; cbn [snd].
      * assert (bool_decide (is_Some (Some q)) = true) as ->
          by (apply bool_decide_eq_true_2; by eexists).
        cbn. by rewrite orb_true_r.
      * assert (bool_decide (is_Some (@None Q)) = false) as ->
          by (apply bool_decide_eq_false_2; by intros [? ?]).
        done.
Qed.

Lemma aggregate_step_ok a tid mt exs :
  mt !! "exs" = Some exs →
  aggregate_step a (tid, mt) =
    Ok {| agg_tasks := <[fresh_tid (S (size (agg_tasks a))) (agg_tasks a) tid := mt]>
                         (agg_tasks a);
          agg_sums := (foldl (add_report mt) (agg_sums a, false) sums_keys).1;
          agg_num_tasks :=
            if (foldl (add_report mt) (agg_sums a, false) sums_keys).2
            then (agg_num_tasks a + 1)%Z else agg_num_tasks a;
          agg_total := (agg_total a + exs)%Q |}.
Proof.
  intros E. unfold aggregate_step. rewrite E.
  by destruct (foldl (add_report mt) (agg_sums a, false) sums_keys).
Qed.

(** The loop of [aggregate_metrics] over the reporters. *)
Lemma aggregate_loop reporters a0 :
  Forall (λ r, is_Some (r.2 !! "exs")) reporters →
  (∀ k, k ∈ sums_keys → is_Some (agg_sums a0 !! k)) →
  ∃ a, res_fold aggregate_step a0 reporters = Ok a
       ∧ agg_total a = foldl (λ acc r, (acc + default 0%Q (r.2 !! "exs"))%Q)
                             (agg_total a0) reporters
       ∧ agg_num_tasks a = (agg_num_tasks a0
                            + Z.of_nat (length (filter (λ r, has_headline r.2 = true) reporters)))%Z
       ∧ ∀ k, k ∈ sums_keys →
           agg_sums a !! k =
             Some (foldl (λ acc r, match r.2 !! k with Some x => (acc + x)%Q | None => acc end)
                         (default 0%Q (agg_sums a0 !! k)) reporters).
Proof.
  revert a0. induction reporters as [| [tid mt] l IH]; intros a0 Hexs Hsums.
  - exists a0. split; [done |]. split; [done |]. split; [cbn; lia |].
    intros k Hk. destruct (Hsums k Hk) as [x Hx]. by rewrite Hx.
  - apply Forall_cons in Hexs as [[exs Hexs] Hl]. cbn [fst snd] in Hexs.
    rewrite res_fold_cons, (aggregate_step_ok _ _ _ _ Hexs). cbn [res_bind].
    pose proof (add_report_fold mt sums_keys (agg_sums a0, false) sums_keys_NoDup) as Hf.
    cbv zeta in Hf. cbn [fst snd] in Hf. destruct Hf as [Hf1 Hf2].
    fold (has_headline mt) in Hf2. cbn [orb] in Hf2.
    match goal with
    | |- ∃ a, res_fold _ ?a1 _ = _ ∧ _ => destruct (IH a1 Hl) as (a & Ea & Et & En & Es)
    end.
    { intros k Hk. cbn [agg_sums]. rewrite Hf1, decide_True by done.
      destruct (Hsums k Hk) as [x Hx]. rewrite Hx. by destruct (mt !! k). }
    exists a. split; [exact Ea |]. cbn [agg_total agg_num_tasks agg_sums] in Et, En, Es.
    split; [| split].
    + rewrite Et. cbn [foldl fst snd]. by rewrite Hexs.
    + rewrite En, Hf2. rewrite filter_cons. cbn [fst snd].
      destruct (has_headline mt);
        [rewrite decide_True by done | rewrite decide_False by done];
        cbn [length]; lia.
    + intros k Hk. rewrite (Es k Hk), Hf1, decide_True by done.
      cbn [foldl fst snd]. destruct (Hsums k Hk) as [x Hx]. rewrite Hx.
      by destruct (mt !! k).
Qed.

Lemma foldl_insert_lookup {V} (g : string → V) l (m : gmap string V) k :
  foldl (λ m k, <[k := g k]> m) m l !! k = if decide (k ∈ l) then Some (g k) else m !! k.
Proof.
  revert m. induction l as [| x l IH]; intros m.
  - destruct (decide (k ∈ [])) as [Hin | _]; [by apply elem_of_nil in Hin | done].
  - cbn [foldl]. rewrite IH.
    destruct (decide (k ∈ l)) as [Hl | Hl].
    + destruct (decide (k ∈ x :: l)) as [_ | Hn];
        [done | exfalso; apply Hn; by apply list_elem_of_further].
    + destruct (decide (k = x)) as [-> | Hne].
      * destruct (decide (x ∈ x :: l)) as [_ | Hn];
          [by rewrite lookup_insert_eq | exfalso; apply Hn; by apply list_elem_of_here].
      * destruct (decide (k ∈ x :: l)) as [Hn | _];
          [apply elem_of_cons in Hn as [? | ?]; done | by rewrite lookup_insert_ne].
Qed.

(** C3, as the code has it. When every report has an entry [exs],
    [aggregate_metrics] returns; its [exs] is the sum of the reports' [exs];
    when some task reported a headline key, every headline key is the sum of
    its entries over the tasks that reported it, divided by the number of
    tasks that reported at least one headline key (not by the number that
    reported this key), rounded to 4 significant figures; when no task
    reported a headline key the result holds [exs] and [accuracy = 0] only. *)
Theorem aggregate_metrics_means reporters :
  Forall (λ r, is_Some (r.2 !! "exs")) reporters →
  ∃ a, aggregate_metrics reporters = Ok a
       ∧ entries a !! "exs" = Some (exs_sum reporters)
       ∧ ((0 < reporting_tasks reporters)%Z →
          ∀ k, k ∈ sums_keys →
            entries a !! k =
              Some (round_sigfigs
                      (key_sum k reporters / inject_Z (reporting_tasks reporters))%Q 4))
       ∧ (reporting_tasks reporters = 0%Z →
          entries a = <["accuracy" := 0%Q]> (<["exs" := exs_sum reporters]> ∅)).
Proof.
  intros Hexs. unfold aggregate_metrics.
  set (sums0 := foldl (λ sums k, <[k := 0%Q]> sums) ∅ sums_keys).
  assert (∀ k, k ∈ sums_keys → sums0 !! k = Some 0%Q) as Hs0.
  { intros k Hk. unfold sums0.
    rewrite (foldl_insert_lookup (λ _, 0%Q)). by rewrite decide_True. }
  destruct (aggregate_loop reporters
              {| agg_tasks := ∅; agg_sums := sums0; agg_num_tasks := 0; agg_total := 0 |}
              Hexs) as (a & Ea & Et & En & Es).
  { intros k Hk. cbn [agg_sums]. rewrite (Hs0 k Hk). by eexists. }
  cbn [agg_total agg_num_tasks agg_sums] in Et, En, Es.
  rewrite Ea. cbn [mbind res_mbind res_bind]. eexists. split; [reflexivity |].
  cbn [entries]. fold (exs_sum reporters) in Et. rewrite Et.
  assert (agg_num_tasks a = reporting_tasks reporters) as En' by (rewrite En; done).
  rewrite En'. split; [| split].
  - destruct (decide (0 < reporting_tasks reporters)%Z).
    + rewrite (foldl_insert_lookup
                 (λ k, round_sigfigs (default 0 (agg_sums a !! k)
                                      / inject_Z (reporting_tasks reporters))%Q 4)).
      rewrite decide_False by apply exs_not_headline.
      rewrite lookup_insert_ne by done. by rewrite lookup_insert_eq.
    + rewrite lookup_insert_ne by done. by rewrite lookup_insert_eq.
  - intros Hpos k Hk. rewrite decide_True by done.
    rewrite (foldl_insert_lookup
               (λ k, round_sigfigs (default 0 (agg_sums a !! k)
                                    / inject_Z (reporting_tasks reporters))%Q 4)).
    rewrite decide_True by done. rewrite (Es k Hk), (Hs0 k Hk). done.
  - intros Hz. rewrite Hz. by rewrite decide_False by lia.
Qed.
End aggregate.

(** *** C3 on examples *)

(** The two reports of the specification's example. *)
Definition two_reports : list (string * gmap string Q) :=
  [("task", {[ "accuracy" := 8 # 10; "exs" := 10 # 1 ]});
   ("task", {[ "accuracy" := 6 # 10; "exs" := 90 # 1 ]})].

(** A first task that reports [f1] and a second that does not. *)
Definition uneven_reports : list (string * gmap string Q) :=
  [("a", {[ "accuracy" := 8 # 10; "f1" := 1 # 2; "exs" := 10 # 1 ]});
   ("b", {[ "accuracy" := 6 # 10; "exs" := 90 # 1 ]})].

(** C3, counterexample. One task of two reports [f1 = 0.5]; the mean over
    the tasks that reported [f1] is 0.5, and [aggregate_metrics] yields 0.25:
    the task without [f1] counts in the denominator. *)
Lemma aggregate_f1_counts_all_tasks :
  ∃ a, aggregate_metrics (H := plain_install) uneven_reports = Ok a
       ∧ key_sum "f1" uneven_reports = (0 + (1 # 2))%Q
       ∧ length (filter (λ r, is_Some (r.2 !! "f1")) uneven_reports) = 1%nat
       ∧ entries a !! "f1" = Some (1 # 4)
       ∧ entries a !! "accuracy" = Some (7 # 10)
       ∧ entries a !! "exs" = Some (100 # 1).
Proof.
  eexists. split; [vm_compute; reflexivity |].
  repeat split; vm_compute; reflexivity.
Qed.

(** C3, witness: the specification's example, accuracy 0.7 and 100 examples. *)
Lemma aggregate_metrics_means_witness :
  ∃ a, aggregate_metrics (H := plain_install) two_reports = Ok a
       ∧ entries a !! "exs" = Some (exs_sum two_reports)
       ∧ ((0 < reporting_tasks (H := plain_install) two_reports)%Z →
          ∀ k, k ∈ sums_keys (H := plain_install) →
            entries a !! k =
              Some (round_sigfigs_model
                      (key_sum k two_reports
                       / inject_Z (reporting_tasks (H := plain_install) two_reports))%Q 4))
       ∧ (reporting_tasks (H := plain_install) two_reports = 0%Z →
          entries a = <["accuracy" := 0%Q]> (<["exs" := exs_sum two_reports]> ∅)).
Proof.
  apply (aggregate_metrics_means (H := plain_install) two_reports).
  by_compute.
Defined.

(** The example of the specification, evaluated. *)
Lemma aggregate_two_reports :
  ∃ a, aggregate_metrics (H := plain_install) two_reports = Ok a
       ∧ entries a !! "accuracy" = Some (7 # 10)
       ∧ entries a !! "exs" = Some (100 # 1).
Proof.
  eexists. split; [vm_compute; reflexivity |]. split; vm_compute; reflexivity.
Qed.

(** ** C6 and C10: the ranking metrics *)

(** Some candidate among the first [k] equals, after normalisation, a
    normalised label. *)
Definition hit_within (k : nat) (text_cands labels : list string) : bool :=
  existsb (λ c, bool_decide (normalize_answer c ∈ map normalize_answer labels))
          (take k text_cands).

(** The number of candidates of [l] that match a label of [label_set]. *)
Definition match_count (label_set l : list string) : nat :=
  length (filter (λ c, normalize_answer c ∈ label_set) l).

Lemma rank_inner_lookup cnt (l : list nat) (cnts : gmap nat nat) k :
  NoDup l →
  foldl (λ cnts k, if (cnt <=? k)%nat
                   then <[k := (default 0 (cnts !! k) + 1)%nat]> cnts
                   else cnts) cnts l !! k
  = if decide (k ∈ l ∧ (cnt ≤ k)%nat) then Some (default 0 (cnts !! k) + 1)%nat
    else cnts !! k.
Proof.
  revert cnts. induction l as [| x l IH]; intros cnts Hnd.
  - cbn. destruct (decide _) as [[Hin _] | _]; [by apply elem_of_nil in Hin | done].
  - apply NoDup_cons in Hnd as [Hx Hnd]. cbn [foldl]. rewrite (IH _ Hnd).
    destruct (decide (k = x)) as [-> | Hne].
    + rewrite (decide_False (P := x ∈ l ∧ _)) by (by intros [? _]).
      destruct (Nat.leb_spec cnt x).
      * rewrite lookup_insert_eq. rewrite decide_True; [done |].
        split; [by apply list_elem_of_here | done].
      * rewrite decide_False; [done |]. intros [_ ?]. lia.
    + assert ((if (cnt <=? x)%nat
               then <[x := (default 0 (cnts !! x) + 1)%nat]> cnts else cnts) !! k
              = cnts !! k) as ->.
      { destruct (cnt <=? x)%nat; [by rewrite lookup_insert_ne | done]. }
      destruct (decide (k ∈ l ∧ (cnt ≤ k)%nat)) as [[Hl Hle] | Hn].
      * rewrite decide_True; [done |]. split; [by apply list_elem_of_further | done].
      * rewrite decide_False; [done |].
        intros [[? | ?]%elem_of_cons Hle]; [done | by apply Hn].
Qed.

Section ranking.
Context `{Externals}.

Lemma eval_pr_NoDup : NoDup eval_pr.
Proof. by_compute. Qed.

(** The loop of [update_ranking_metrics] over the candidates, from the
    [n]-th candidate on. *)
Lemma rank_loop label_set cands n (cnts : gmap nat nat) k c0 :
  k ∈ eval_pr → cnts !! k = Some c0 →
  (foldl (rank_step label_set) (n, cnts) cands).2 !! k
  = Some (c0 + match_count label_set (take (k - n) cands))%nat.
Proof.
  intros Hk. revert n cnts c0. induction cands as [| c rest IH]; intros n cnts c0 Hc.
  - cbn. rewrite take_nil. cbn. rewrite Hc. f_equal. unfold match_count. cbn. lia.
  - cbn [foldl]. unfold rank_step at 2. cbn [fst snd].
    destruct (decide (normalize_answer c ∈ label_set)) as [Hm | Hm].
    + rewrite bool_decide_eq_true_2 by done.
      pose proof (rank_inner_lookup (n + 1) eval_pr cnts k eval_pr_NoDup) as Hin.
      rewrite Hc in Hin. cbn [default from_option] in Hin. unfold id in Hin.
      destruct (decide (k ∈ eval_pr ∧ (n + 1 ≤ k)%nat)) as [[_ Hle] | Hn].
      * rewrite (IH _ _ _ Hin). f_equal.
        replace (k - n)%nat with (S (k - (n + 1))) by lia.
        cbn [take]. unfold match_count. rewrite filter_cons_True by done.
        cbn [length]. lia.
      * rewrite (IH _ _ _ Hin). f_equal.
        assert (¬ (n + 1 ≤ k)%nat) as Hgt by tauto.
        assert (k - n = 0)%nat as -> by lia.
        assert (k - (n + 1) = 0)%nat as -> by lia. by rewrite !take_0.
    + rewrite bool_decide_eq_false_2 by done.
      erewrite IH by exact Hc. f_equal. f_equal.
      destruct (decide (n + 1 ≤ k)%nat).
      * replace (k - n)%nat with (S (k - (n + 1))) by lia.
        cbn [take]. unfold match_count. by rewrite filter_cons_False by done.
      * assert (k - n = 0)%nat as -> by lia.
        assert (k - (n + 1) = 0)%nat as -> by lia. by rewrite !take_0.
Qed.

Lemma init_cnts_lookup k :
  k ∈ eval_pr → foldl (λ cnts k, <[k := 0%nat]> cnts) (∅ : gmap nat nat) eval_pr !! k = Some 0%nat.
Proof.
  intros Hk. repeat (apply elem_of_cons in Hk as [-> | Hk]; [reflexivity |]).
  by apply elem_of_nil in Hk.
Qed.

Lemma rank_counts_lookup cands labels k :
  k ∈ eval_pr →
  rank_counts cands labels !! k
  = Some (match_count (map normalize_answer labels) (take k cands)).
Proof.
  intros Hk. unfold rank_counts.
  rewrite (rank_loop _ _ _ _ _ 0%nat Hk (init_cnts_lookup k Hk)).
  by rewrite Nat.sub_0_r.
Qed.
End ranking.

Lemma count_pos_existsb {A} (P : A → Prop) `{∀ x, Decision (P x)} (l : list A) :
  (0 <? length (filter P l))%nat = existsb (λ x, bool_decide (P x)) l.
Proof.
  induction l as [| x l IH]; [done |]. cbn [existsb].
  destruct (decide (P x)) as [Hx | Hx].
  - rewrite filter_cons_True by done. by rewrite bool_decide_eq_true_2.
  - rewrite filter_cons_False by done. by rewrite bool_decide_eq_false_2.
Qed.

Lemma avoids_weaken K o k : avoids K o → k ∈ K → avoids [k] o.
Proof.
  unfold avoids. intros Hav Hk. eapply Forall_impl; [exact Hav |].
  intros [k' v] [H1 H2]. cbn [fst] in *.
  split; intros Hin%list_elem_of_singleton; [apply H1 | apply H2]; by rewrite Hin.
Qed.

(** When [m] returns, it advances or keeps the entry as [b] says. *)
Ltac advances_tac :=
  unfold with_lock; simpl for_each;
  repeat first
    [ apply advances_iadd_num
    | apply advances_bind_r; [solve [keeps_tac] | intros ?]
    | apply advances_bind_l; [| intros ?; solve [keeps_tac]] ].

Section ranking_update.
Context `{Externals}.

(** The count of [update_ranking_metrics] for [k] is positive exactly when
    one of the first [k] candidates matches a label. *)
Lemma rank_counts_pos cands labels k :
  k ∈ eval_pr →
  (0 <? default 0 (rank_counts cands labels !! k))%nat = hit_within k cands labels.
Proof.
  intros Hk. rewrite (rank_counts_lookup _ _ _ Hk). cbn [default from_option].
  unfold id, match_count, hit_within. apply count_pos_existsb.
Qed.

Lemma advances_fold_ranking_cnt cnts : advances "hits@_cnt" 1 (fold_ranking cnts).
Proof. unfold fold_ranking. advances_tac. Qed.

Lemma advances_fold_ranking_hit cnts k :
  k ∈ eval_pr → (0 <? default 0 (cnts !! k))%nat = true →
  advances ("hits@" +:+ str k) 1 (fold_ranking cnts).
Proof.
  intros Hk Hpos. unfold fold_ranking, with_lock. cbn [for_each eval_pr].
  repeat (apply elem_of_cons in Hk as [-> | Hk];
          [rewrite Hpos; advances_tac |]).
  by apply elem_of_nil in Hk.
Qed.

Lemma keeps_fold_ranking_miss cnts k :
  k ∈ eval_pr → (0 <? default 0 (cnts !! k))%nat = false →
  keeps ("hits@" +:+ str k) (fold_ranking cnts).
Proof.
  intros Hk Hpos. unfold fold_ranking, with_lock. cbn [for_each eval_pr].
  repeat (apply elem_of_cons in Hk as [-> | Hk];
          [rewrite Hpos; keeps_tac |]).
  by apply elem_of_nil in Hk.
Qed.

Lemma hits_key_in k : k ∈ eval_pr → "hits@" +:+ str k ∈ hits_keys.
Proof.
  intros Hk. repeat (apply elem_of_cons in Hk as [-> | Hk]; [by_compute |]).
  by apply elem_of_nil in Hk.
Qed.

Lemma hits_key_frame k : k ∈ hits_keys → k ≠ "cnt" ∧ k ∉ text_keys.
Proof.
  intros Hk. repeat (apply elem_of_cons in Hk as [-> | Hk]; [split; by_compute |]).
  by apply elem_of_nil in Hk.
Qed.

(** [update] on an observation with candidates advances whatever its
    ranking part advances, when no user-reported metric writes that key. *)
Lemma advances_update_ranking k x o l cands :
  k ∈ hits_keys → text_candidates o = Some cands → avoids hits_keys o →
  advances k x (fold_ranking (rank_counts cands l)) →
  advances k x (update o l).
Proof.
  intros Hk Ec Hav Hadv. destruct (hits_key_frame k Hk) as [Hcnt Htext].
  unfold update.
  apply advances_bind_r; [by apply keeps_fold_cnt | intros _].
  apply advances_bind_r; [apply keeps_update_text; by right | intros c].
  apply advances_bind_l.
  - unfold update_ranking_metrics. by rewrite Ec.
  - intros _. apply keeps_bind; [| intros _; apply keeps_ret].
    apply keeps_update_user_metrics. by apply (avoids_weaken hits_keys).
Qed.

(** C6, as the code has it. When [update] returns on an observation with a
    list of candidates, none of whose user-reported metrics writes a hits
    key: for each K of 1, 5, 10, 100, if one of the first K candidates
    equals, after normalisation, a normalised label then [hits@K] is
    incremented by one, else [hits@K] is as it was; and [hits@_cnt] is
    incremented by one. *)
Theorem update_ranking_hits s o l s' r cands :
  update o l s = (s', Ok r) →
  text_candidates o = Some cands →
  avoids hits_keys o →
  (∀ k, k ∈ eval_pr →
     (hit_within k cands l = true →
      ∃ h, metrics s !! ("hits@" +:+ str k) = Some (VNum h)
           ∧ metrics s' !! ("hits@" +:+ str k) = Some (VNum (h + 1)%Q))
     ∧ (hit_within k cands l = false →
        metrics s' !! ("hits@" +:+ str k) = metrics s !! ("hits@" +:+ str k)))
  ∧ ∃ c, metrics s !! "hits@_cnt" = Some (VNum c)
         ∧ metrics s' !! "hits@_cnt" = Some (VNum (c + 1)%Q).
Proof.
  intros E Ec Hav. split.
  - intros k Hk. pose proof (rank_counts_pos cands l k Hk) as Hpos. split; intros Hhit.
    + rewrite Hhit in Hpos.
      apply (advances_update_ranking _ 1 o l cands (hits_key_in k Hk) Ec Hav
               (advances_fold_ranking_hit _ k Hk Hpos) s s' r E).
    + rewrite Hhit in Hpos.
      destruct (hits_key_frame _ (hits_key_in k Hk)) as [Hcnt Htext].
      assert (keeps ("hits@" +:+ str k) (update o l)) as Hkeep.
      { unfold update.
        apply keeps_bind; [by apply keeps_fold_cnt | intros _].
        apply keeps_bind; [apply keeps_update_text; by right | intros c].
        apply keeps_bind.
        - unfold update_ranking_metrics. rewrite Ec.
          by apply keeps_fold_ranking_miss.
        - intros _. apply keeps_bind; [| intros _; apply keeps_ret].
          apply keeps_update_user_metrics.
          apply (avoids_weaken hits_keys); [done | by apply hits_key_in]. }
      specialize (Hkeep s). by rewrite E in Hkeep.
  - assert ("hits@_cnt" ∈ hits_keys) as Hk by by_compute.
    apply (advances_update_ranking "hits@_cnt" 1 o l cands Hk Ec Hav
             (advances_fold_ranking_cnt _) s s' r E).
Qed.
End ranking_update.

(** *** C6 on examples *)

(** The example of the specification: three candidates, the label second. *)
Definition obs_ranked : Observation :=
  {| text := None; text_candidates := Some ["b"; "a"; "c"]; obs_metrics := None |}.

(** One candidate that matches, and a user-reported metric named [hits@1]. *)
Definition obs_ranked_user : Observation :=
  {| text := None; text_candidates := Some ["a"]; obs_metrics := Some [("hits@1", 5 # 1)] |}.

Definition fresh : Metrics := __init__ (H := plain_install) ∅.

(** C6, counterexample. The only candidate matches the label, and the
    observation reports a metric of its own under the name [hits@1]: [update]
    returns and [hits@1] has gone from 0 to 6, not to 1. *)
Lemma update_hits_user_metric :
  let s' := run (update (H := plain_install) obs_ranked_user ["a"]) fresh in
  outcome (update (H := plain_install) obs_ranked_user ["a"]) fresh = Ok {[ "correct" := 0%Q ]}
  ∧ hit_within 1 ["a"] ["a"] = true
  ∧ metrics fresh !! "hits@1" = Some (VNum 0)
  ∧ metrics s' !! "hits@1" = Some (VNum 6)
  ∧ metrics s' !! "hits@_cnt" = Some (VNum 1).
Proof. cbv zeta. repeat split; vm_compute; reflexivity. Qed.

(** C6, witness: the example of the specification on a fresh accumulator. *)
Lemma update_ranking_hits_witness :
  let s' := run (update (H := plain_install) obs_ranked ["a"]) fresh in
  (∀ k, k ∈ eval_pr →
     (hit_within k ["b"; "a"; "c"] ["a"] = true →
      ∃ h, metrics fresh !! ("hits@" +:+ str k) = Some (VNum h)
           ∧ metrics s' !! ("hits@" +:+ str k) = Some (VNum (h + 1)%Q))
     ∧ (hit_within k ["b"; "a"; "c"] ["a"] = false →
        metrics s' !! ("hits@" +:+ str k) = metrics fresh !! ("hits@" +:+ str k)))
  ∧ ∃ c, metrics fresh !! "hits@_cnt" = Some (VNum c)
         ∧ metrics s' !! "hits@_cnt" = Some (VNum (c + 1)%Q).
Proof.
  apply (update_ranking_hits (H := plain_install) fresh obs_ranked ["a"] _
           {[ "correct" := 0%Q ]} ["b"; "a"; "c"]).
  - vm_compute. reflexivity.
  - reflexivity.
  - by_compute.
Defined.

(** The example of the specification, evaluated: the match is at rank 2. *)
Lemma ranking_example :
  let s' := run (update (H := plain_install) obs_ranked ["a"]) fresh in
  hit_within 1 ["b"; "a"; "c"] ["a"] = false
  ∧ hit_within 5 ["b"; "a"; "c"] ["a"] = true
  ∧ metrics s' !! "hits@1" = Some (VNum 0)
  ∧ metrics s' !! "hits@5" = Some (VNum 1)
  ∧ metrics s' !! "hits@_cnt" = Some (VNum 1).
Proof. cbv zeta. repeat split; vm_compute; reflexivity. Qed.

(** ** C10: the order of the hit accumulators *)

(** [hits@1 <= hits@5 <= hits@10 <= hits@100 <= hits@_cnt] *)
Definition hits_chain (s : Metrics) : Prop :=
  ∃ h1 h5 h10 h100 c,
    metrics s !! "hits@1" = Some (VNum h1)
    ∧ metrics s !! "hits@5" = Some (VNum h5)
    ∧ metrics s !! "hits@10" = Some (VNum h10)
    ∧ metrics s !! "hits@100" = Some (VNum h100)
    ∧ metrics s !! "hits@_cnt" = Some (VNum c)
    ∧ (h1 <= h5)%Q ∧ (h5 <= h10)%Q ∧ (h10 <= h100)%Q ∧ (h100 <= c)%Q.

(** No key of [l], folded as a user-reported metric, writes a key of [K]. *)
Definition list_avoids (K l : list string) : Prop :=
  Forall (λ k, (k ∉ K) ∧ ((k +:+ "_cnt") ∉ K)) l.

Definition call_avoids (K : list string) (c : call) : Prop :=
  match c with
  | Update o _ => avoids K o
  | Clear => True
  end.

(** The invariant behind the chain: the kind of table does not change, the
    chain holds, and no registered key writes a hits key. *)
Definition ranking_inv (b : bool) (s : Metrics) : Prop :=
  shared s = b ∧ hits_chain s ∧ list_avoids hits_keys (metrics_list s).

(** [m] returns from every state that satisfies [P]. *)
Definition returns_when {A} (P : Metrics → Prop) (m : M A) : Prop :=
  ∀ s, P s → ∃ a, (m s).2 = Ok a.

Lemma returns_bind {A B} P (m : M A) (f : A → M B) :
  preserves P m → returns_when P m → (∀ a, returns_when P (f a)) →
  returns_when P (m ≫= f).
Proof.
  intros Hp Hm Hf s Hs. rewrite bind_unfold.
  destruct (Hm s Hs) as [a Ha]. specialize (Hp s Hs).
  destruct (m s) as [s1 r]. cbn in *. subst r. by apply Hf.
Qed.

Lemma returns_ret {A} P (a : A) : returns_when P (ret a).
Proof. intros s _. by exists a. Qed.

Lemma returns_iadd_num (P : Metrics → Prop) k x :
  (∀ s, P s → holds_num k s) → returns_when P (iadd_num k x).
Proof.
  intros HP s Hs. destruct (HP s Hs) as [y Hy]. rewrite iadd_num_run, Hy. by exists tt.
Qed.

Ltac keeps_list_step :=
  first
    [ apply keeps_list_ret | apply keeps_list_raise | apply keeps_list_lift
    | apply keeps_list_getitem | apply keeps_list_setitem
    | apply keeps_list_iadd_num | apply keeps_list_iadd_opt | apply keeps_list_iadd_counter
    | apply keeps_list_set_has_text_cands | apply keeps_list_set_print
    | apply keeps_list_bind; [| intros ?]
    | match goal with
      | |- keeps_list (if ?b then _ else _) => case b
      end ].

Ltac keeps_list_tac := unfold with_lock; simpl for_each; repeat keeps_list_step.

(** Every hits key holds a number. *)
Definition hits_are_numbers (s : Metrics) : Prop := ∀ k, k ∈ hits_keys → holds_num k s.

Lemma stable_and (P Q : Metrics → Prop) : stable P → stable Q → stable (λ s, P s ∧ Q s).
Proof.
  intros HP HQ. split.
  - intros s k z [? ?]. split; by apply stable_num.
  - intros s k d c [? ?] E. split; by apply stable_counter.
  - intros s k [? ?] E. split; by apply stable_reset.
  - intros s f [? ?]. split; by apply stable_flags.
  - intros s k [? ?] E. split; by apply stable_append.
Qed.

Lemma stable_forall {I} (P : I → Metrics → Prop) :
  (∀ i, stable (P i)) → stable (λ s, ∀ i, P i s).
Proof.
  intros HP. split.
  - intros s k z Hs i. by apply (stable_num _ (HP i)).
  - intros s k d c Hs E i. by apply (stable_counter _ (HP i)).
  - intros s k Hs E i. by apply (stable_reset _ (HP i)).
  - intros s f Hs i. by apply (stable_flags _ (HP i)).
  - intros s k Hs E i. by apply (stable_append _ (HP i)).
Qed.

Lemma stable_impl (C : Prop) (P : Metrics → Prop) :
  (C → stable P) → stable (λ s, C → P s).
Proof.
  intros HP. split.
  - intros s k z Hs c. by apply (stable_num _ (HP c)); auto.
  - intros s k d c Hs E c'. by apply (stable_counter _ (HP c')); auto.
  - intros s k Hs E c. by apply (stable_reset _ (HP c)); auto.
  - intros s f Hs c. by apply (stable_flags _ (HP c)); auto.
  - intros s k Hs E c. by apply (stable_append _ (HP c)); auto.
Qed.

Lemma stable_hits_are_numbers : stable hits_are_numbers.
Proof.
  unfold hits_are_numbers. apply stable_forall. intros k.
  apply stable_impl. intros Hk. apply stable_holds_num.
  repeat (apply elem_of_cons in Hk as [-> | Hk]; [reflexivity |]).
  by apply elem_of_nil in Hk.
Qed.

Lemma hits_chain_numbers s : hits_chain s → hits_are_numbers s.
Proof.
  intros (h1 & h5 & h10 & h100 & c & E1 & E5 & E10 & E100 & Ec & _) k Hk.
  repeat (apply elem_of_cons in Hk as [-> | Hk]; [by eexists |]).
  by apply elem_of_nil in Hk.
Qed.

Section chain.
Context `{Externals}.

Lemma hits_body_preserves (b : bool) k :
  preserves hits_are_numbers (if b then iadd_num k 1 else ret tt).
Proof.
  destruct b; [apply (stable_iadd_num _ stable_hits_are_numbers) | apply preserves_ret].
Qed.

Lemma hits_body_returns (b : bool) k :
  k ∈ hits_keys → returns_when hits_are_numbers (if b then iadd_num k 1 else ret tt).
Proof.
  intros Hk. destruct b; [| apply returns_ret].
  apply returns_iadd_num. intros s Hs. by apply Hs.
Qed.

Lemma fold_ranking_returns cnts : returns_when hits_are_numbers (fold_ranking cnts).
Proof.
  unfold fold_ranking, with_lock. cbn [for_each eval_pr].
  apply returns_bind; [apply (stable_set_has_text_cands _ stable_hits_are_numbers) | |].
  { intros s _. by exists tt. }
  intros _. apply returns_bind.
  - repeat (apply preserves_bind; [apply hits_body_preserves | intros _]).
    apply preserves_ret.
  - repeat (apply returns_bind;
            [apply hits_body_preserves | apply hits_body_returns; by_compute | intros _]).
    apply returns_ret.
  - intros _. apply returns_iadd_num. intros s Hs. apply Hs. by_compute.
Qed.

Lemma elem_of_take_le {A} (l : list A) k k' x :
  (k ≤ k')%nat → x ∈ take k l → x ∈ take k' l.
Proof.
  revert k k'. induction l as [| y l IH]; intros k k' Hle.
  - by rewrite !take_nil.
  - destruct k as [| k]; [by intros ?%elem_of_nil |].
    destruct k' as [| k']; [lia |]. cbn [take].
    rewrite !elem_of_cons. intros [-> | Hin]; [by left | right].
    apply (IH k k'); [lia | done].
Qed.

(** More of the candidates cannot lose a hit. *)
Lemma hit_within_mono k k' cands labels :
  (k ≤ k')%nat → hit_within k cands labels = true → hit_within k' cands labels = true.
Proof.
  unfold hit_within. rewrite !existsb_exists. intros Hle (c & Hin & Hc).
  exists c. split; [| done]. apply list_elem_of_In. apply list_elem_of_In in Hin.
  by apply (elem_of_take_le cands k k').
Qed.

Lemma ranking_keeps_chain cands labels s :
  hits_chain s → hits_chain (fold_ranking (rank_counts cands labels) s).1.
Proof.
  intros Hc. pose proof (hits_chain_numbers s Hc) as Hn.
  destruct (fold_ranking_returns (rank_counts cands labels) s Hn) as [[] Hr].
  destruct (fold_ranking (rank_counts cands labels) s) as [s' r] eqn:E.
  cbn [fst snd] in *. subst r.
  destruct Hc as (h1 & h5 & h10 & h100 & c & E1 & E5 & E10 & E100 & Ec & L1 & L5 & L10 & L100).
  destruct (advances_fold_ranking_cnt _ _ _ _ E) as (c' & Ec' & Ec'').
  rewrite Ec in Ec'. injection Ec' as <-.
  assert (∀ k h, k ∈ eval_pr → metrics s !! ("hits@" +:+ str k) = Some (VNum h) →
            metrics s' !! ("hits@" +:+ str k)
            = Some (VNum (if hit_within k cands labels then (h + 1)%Q else h))) as Hk.
  { intros k h Hk Eh. pose proof (rank_counts_pos cands labels k Hk) as Hpos.
    destruct (hit_within k cands labels).
    - destruct (advances_fold_ranking_hit _ k Hk Hpos _ _ _ E) as (y & Ey & Ey').
      rewrite Eh in Ey. by injection Ey as <-.
    - pose proof (keeps_fold_ranking_miss _ k Hk Hpos s) as Hkeep.
      rewrite E in Hkeep. cbn [fst] in Hkeep. by rewrite Hkeep. }
  pose proof (Hk 1%nat h1 ltac:(by_compute) E1) as E1'.
  pose proof (Hk 5%nat h5 ltac:(by_compute) E5) as E5'.
  pose proof (Hk 10%nat h10 ltac:(by_compute) E10) as E10'.
  pose proof (Hk 100%nat h100 ltac:(by_compute) E100) as E100'.
  pose proof (hit_within_mono 1 5 cands labels ltac:(lia)) as M1.
  pose proof (hit_within_mono 5 10 cands labels ltac:(lia)) as M5.
  pose proof (hit_within_mono 10 100 cands labels ltac:(lia)) as M10.
  do 5 eexists.
  split; [exact E1' |]. split; [exact E5' |]. split; [exact E10' |].
  split; [exact E100' |]. split; [exact Ec'' |].
  destruct (hit_within 1 cands labels), (hit_within 5 cands labels),
    (hit_within 10 cands labels), (hit_within 100 cands labels);
    try (specialize (M1 eq_refl)); try (specialize (M5 eq_refl));
    try (specialize (M10 eq_refl)); try discriminate;
    repeat split; lra.
Qed.
End chain.

(** The invariant looks at the hits keys, the registered keys and the kind
    of table only. *)
Lemma ranking_inv_frame b s s' :
  (∀ k, k ∈ hits_keys → metrics s' !! k = metrics s !! k) →
  metrics_list s' = metrics_list s → shared s' = shared s →
  ranking_inv b s → ranking_inv b s'.
Proof.
  intros Hk Hl Hsh (Hb & Hc & Ha). split; [congruence |]. split; [| by rewrite Hl].
  destruct Hc as (h1 & h5 & h10 & h100 & c & E1 & E5 & E10 & E100 & Ec & L).
  exists h1, h5, h10, h100, c.
  rewrite !Hk by by_compute. done.
Qed.

Lemma ranking_inv_keeps {A} b (m : M A) :
  (∀ k, k ∈ hits_keys → keeps k m) → keeps_list m → preserves (ranking_inv b) m.
Proof.
  intros Hk Hl s. apply ranking_inv_frame; [| apply Hl | apply Hl].
  intros k Hin. by apply Hk.
Qed.

Section chain_calls.
Context `{Externals}.

Lemma keeps_list_fold_cnt : keeps_list fold_cnt.
Proof. unfold fold_cnt. keeps_list_tac. Qed.

Lemma keeps_list_update_text o l : keeps_list (update_text o l).
Proof.
  unfold update_text, fold_correct, fold_scores. destruct (text o); keeps_list_tac.
Qed.

Lemma keeps_list_fold_ranking cnts : keeps_list (fold_ranking cnts).
Proof. unfold fold_ranking. keeps_list_tac. Qed.

Lemma ranking_inv_ranking b o l : preserves (ranking_inv b) (update_ranking_metrics o l).
Proof.
  unfold update_ranking_metrics. destruct (text_candidates o) as [cands |];
    [| apply preserves_ret].
  intros s (Hb & Hc & Ha). destruct (keeps_list_fold_ranking (rank_counts cands l) s) as [El Es].
  split; [congruence |]. split; [by apply ranking_keeps_chain | by rewrite El].
Qed.

(** A user-reported metric [k] either leaves the list of registered keys
    as it was or appends [k] to it. *)
Lemma user_metric_list k v s :
  shared (user_metric (k, v) s).1 = shared s
  ∧ (metrics_list (user_metric (k, v) s).1 = metrics_list s
     ∨ (shared s = false ∧ (k ∉ metrics_list s)
        ∧ metrics_list (user_metric (k, v) s).1 = (metrics_list s ++ [k])%list)).
Proof.
  destruct (decide (k ∈ reserved)) as [Hres | Hres].
  { unfold user_metric. rewrite bool_decide_eq_false_2 by (by intros ?). by split; [| left]. }
  destruct (decide (k ∈ metrics_list s)) as [Hreg | Hreg].
  - assert (user_metric (k, v) s = (iadd_num k v;; iadd_num (k +:+ "_cnt") 1) s) as ->.
    { unfold user_metric, with_lock. rewrite (bool_decide_eq_true_2 _ Hres).
      rewrite bind_unfold. cbn [get_metrics_list]. by rewrite (bool_decide_eq_true_2 _ Hreg). }
    assert (keeps_list (iadd_num k v;; iadd_num (k +:+ "_cnt") 1)) as Hl by keeps_list_tac.
    destruct (Hl s) as [-> ->]. by split; [| left].
  - rewrite (user_metric_unfold _ _ _ Hres Hreg).
    destruct (shared s) eqn:Esh; [by split; [| left] |].
    destruct (metrics s !! k) as [[y | c] |]; cbn; rewrite ?Esh; split; auto.
Qed.

Lemma ranking_inv_user_metric b k v :
  b = true ∨ ((k ∉ hits_keys) ∧ ((k +:+ "_cnt") ∉ hits_keys)) →
  preserves (ranking_inv b) (user_metric (k, v)).
Proof.
  intros Hb s Hinv. pose proof Hinv as (Hsh & Hc & Ha).
  destruct (user_metric_list k v s) as [Es Hl].
  (* either nothing is written, or [k] writes no hits key *)
  assert (user_metric (k, v) s = (s, Ok tt) ∨ ((k ∉ hits_keys) ∧ ((k +:+ "_cnt") ∉ hits_keys)))
    as [E | [Hk1 Hk2]].
  { destruct (decide (k ∈ reserved)) as [Hres | Hres].
    { left. unfold user_metric. by rewrite bool_decide_eq_false_2 by (by intros ?). }
    destruct (decide (k ∈ metrics_list s)) as [Hreg | Hreg].
    { right. unfold list_avoids in Ha. rewrite Forall_forall in Ha. by apply Ha. }
    destruct b.
    - left. rewrite (user_metric_unfold _ _ _ Hres Hreg). by rewrite Hsh.
    - right. by destruct Hb. }
  { by rewrite E. }
  split; [congruence |]. split.
  - destruct Hc as (h1 & h5 & h10 & h100 & c & E1 & E5 & E10 & E100 & Ec & L).
    exists h1, h5, h10, h100, c.
    rewrite !keeps_user_metric; [done | ..];
      intros E; first [apply Hk1; rewrite E; by_compute | apply Hk2; rewrite E; by_compute].
  - destruct Hl as [-> | (_ & _ & ->)]; [done |].
    apply Forall_app. split; [done |]. by apply Forall_singleton.
Qed.

Lemma ranking_inv_update b o l :
  b = true ∨ avoids hits_keys o → preserves (ranking_inv b) (update o l).
Proof.
  intros Hb. unfold update.
  apply preserves_bind.
  { apply ranking_inv_keeps; [| apply keeps_list_fold_cnt].
    intros k Hk. apply keeps_fold_cnt. by apply hits_key_frame. }
  intros _. apply preserves_bind.
  { apply ranking_inv_keeps; [| apply keeps_list_update_text].
    intros k Hk. apply keeps_update_text. right. by apply hits_key_frame. }
  intros c. apply preserves_bind; [apply ranking_inv_ranking | intros _].
  apply preserves_bind; [| intros _; apply preserves_ret].
  unfold update_user_metrics. destruct (obs_metrics o) as [items |] eqn:Eo;
    [| apply preserves_ret].
  apply preserves_for_each. intros [k v] Hin. apply ranking_inv_user_metric.
  destruct Hb as [-> | Hav]; [by left | right].
  unfold avoids in Hav. rewrite Eo, Forall_forall in Hav. apply (Hav _ Hin).
Qed.

Lemma keeps_clear_key k0 k :
  k ≠ k0 → k +:+ "_cnt" ≠ k0 → keeps k0 (clear_key k).
Proof. intros H1 H2. unfold clear_key. keeps_tac. Qed.

Lemma keeps_list_clear_key k : keeps_list (clear_key k).
Proof. unfold clear_key. keeps_list_tac. Qed.

(** The last assignments of [clear] put every hit accumulator at zero. *)
Lemma clear_hits_chain b :
  preserves (ranking_inv b)
    (for_each eval_pr (λ k, setitem ("hits@" +:+ str k) (VNum 0));;
     setitem "hits@_cnt" (VNum 0)).
Proof.
  intros s (Hb & _ & Ha). split; [done |]. split; [| done].
  exists 0%Q, 0%Q, 0%Q, 0%Q, 0%Q.
  cbv [mbind M_mbind bind for_each setitem ret eval_pr]. cbn.
  repeat split; try lra;
    repeat first [ by rewrite lookup_insert_eq | rewrite lookup_insert_ne by discriminate ].
Qed.

Lemma ranking_inv_clear_rest b l :
  list_avoids hits_keys l →
  preserves (ranking_inv b)
    (for_each l clear_key;;
     for_each crs_metrics (λ crs_metric,
       if negb (bool_decide (crs_metric = "inter-distinct"))
       then setitem (crs_metric +:+ "_cnt") (VNum 0) else ret tt);;
     for_each eval_pr (λ k, setitem ("hits@" +:+ str k) (VNum 0));;
     setitem "hits@_cnt" (VNum 0)).
Proof.
  intros Ha. apply preserves_bind.
  { apply ranking_inv_keeps.
    - intros k0 Hk0. apply keeps_for_each. intros k Hk.
      unfold list_avoids in Ha. rewrite Forall_forall in Ha. destruct (Ha k Hk) as [H1 H2].
      apply keeps_clear_key; intros E; [apply H1 | apply H2]; by rewrite E.
    - apply keeps_list_for_each. intros k _. apply keeps_list_clear_key. }
  intros _. apply preserves_bind; [| intros _; apply clear_hits_chain].
  apply ranking_inv_keeps; [| cbn [for_each crs_metrics]; keeps_list_tac].
  intros k Hk. cbn [for_each crs_metrics].
  repeat (apply elem_of_cons in Hk as [-> | Hk]; [keeps_tac |]).
  by apply elem_of_nil in Hk.
Qed.

Lemma ranking_inv_clear b : preserves (ranking_inv b) clear.
Proof.
  unfold clear, with_lock.
  apply preserves_bind.
  { apply ranking_inv_keeps; [| apply keeps_list_setitem].
    intros k Hk. apply keeps_setitem. apply not_eq_sym. by apply hits_key_frame. }
  intros _ s Hinv. rewrite bind_unfold. cbn [get_metrics_list].
  apply ranking_inv_clear_rest; [apply Hinv | done].
Qed.

Lemma ranking_inv_init opt : ranking_inv (shared (__init__ opt)) (__init__ opt).
Proof.
  split; [done |]. split.
  - exists 0%Q, 0%Q, 0%Q, 0%Q, 0%Q.
    rewrite !init_num by by_compute. repeat split; lra.
  - unfold list_avoids, __init__, initial_metrics_list. cbn [metrics_list].
    destruct nltkbleu_available, rouge_available; by_compute.
Qed.

Lemma ranking_inv_do_calls b s cs :
  b = true ∨ Forall (call_avoids hits_keys) cs →
  ranking_inv b s → ranking_inv b (do_calls s cs).
Proof.
  revert s. induction cs as [| c cs IH]; intros s Hb Hs; [done |].
  cbn [do_calls foldl]. apply IH.
  - destruct Hb as [-> | Hall]; [by left | right]. by apply Forall_cons in Hall as [_ ?].
  - destruct c as [o l |]; cbn [do_call].
    + apply ranking_inv_update; [| done].
      destruct Hb as [-> | Hall]; [by left | right]. by apply Forall_cons in Hall as [? _].
    + by apply ranking_inv_clear.
Qed.

(** C10, as the code has it. After every sequence of [update] and [clear]
    calls on a fresh accumulator that is shared, or none of whose
    observations reports a metric of its own that writes a hits key, the
    hit accumulators satisfy
    [hits@1 <= hits@5 <= hits@10 <= hits@100 <= hits@_cnt]. *)
Theorem hits_chain_invariant opt cs :
  shared (__init__ opt) = true ∨ Forall (call_avoids hits_keys) cs →
  hits_chain (do_calls (__init__ opt) cs).
Proof.
  intros Hb.
  apply (ranking_inv_do_calls (shared (__init__ opt)) (__init__ opt) cs Hb).
  apply ranking_inv_init.
Qed.
End chain_calls.

(** *** C10 on examples *)

(** An observation that reports a metric of its own under the name [hits@1]. *)
Definition obs_hits1 : Observation :=
  {| text := None; text_candidates := None; obs_metrics := Some [("hits@1", 1 # 1)] |}.

(** C10, counterexample. One [update] whose observation reports the metric
    [hits@1 = 1] leaves [hits@1] at 1 and [hits@5] at 0. *)
Lemma hits_chain_broken_by_user_metric :
  let s' := do_calls (H := plain_install) fresh [Update obs_hits1 []] in
  metrics s' !! "hits@1" = Some (VNum 1)
  ∧ metrics s' !! "hits@5" = Some (VNum 0)
  ∧ ¬ hits_chain s'.
Proof.
  cbv zeta.
  assert (metrics (do_calls (H := plain_install) fresh [Update obs_hits1 []]) !! "hits@1"
          = Some (VNum 1)) as E1 by (vm_compute; reflexivity).
  assert (metrics (do_calls (H := plain_install) fresh [Update obs_hits1 []]) !! "hits@5"
          = Some (VNum 0)) as E5 by (vm_compute; reflexivity).
  split; [exact E1 |]. split; [exact E5 |].
  intros (h1 & h5 & h10 & h100 & c & F1 & F5 & _ & _ & _ & L & _).
  rewrite E1 in F1. rewrite E5 in F5. injection F1 as <-. injection F5 as <-.
  revert L. vm_compute. intros L. by apply L.
Qed.

(** C10, witness: two examples with candidates and a [clear] between them. *)
Lemma hits_chain_invariant_witness :
  hits_chain (do_calls (H := plain_install) (__init__ (H := plain_install) ∅)
                [Update obs_ranked ["a"]; Clear; Update obs_ranked ["c"]]).
Proof.
  apply (hits_chain_invariant (H := plain_install) ∅
           [Update obs_ranked ["a"]; Clear; Update obs_ranked ["c"]]).
  right. repeat (apply Forall_cons; split); [| exact I | | apply Forall_nil];
    unfold call_avoids; by_compute.
Defined.

(** ** C9: an example without a prediction *)


Section no_text.
Context `{Externals}.


(** What [update] does after the example counter. *)
Lemma update_after_cnt o l s c :
  metrics s !! "cnt" = Some (VNum c) →
  update o l s =
    (correct ← update_text o l;
     update_ranking_metrics o l;;
     update_user_metrics o;;
     ret {[ "correct" := correct ]})
      (set_metrics (<["cnt" := VNum (c + 1)%Q]> (metrics s)) s).
Proof. intros Ec. unfold update. by rewrite bind_unfold, (fold_cnt_run _ _ Ec). Qed.









End no_text.

(** *** C9 on examples *)


(** An observation with nothing in it, and one with a prediction. *)
Definition obs_empty : Observation :=
  {| text := None; text_candidates := None; obs_metrics := None |}.

Definition obs_text (p : string) : Observation :=
  {| text := Some p; text_candidates := None; obs_metrics := None |}.



(** ** C8: the inter-distinct ratio *)

(** *** Counters with positive counts *)

Section counter_facts.
Context {K : Type} `{Countable K}.
Implicit Types (a b t : gmap K Z).

(** Every count of the [Counter] is positive. *)
Definition positive_counts t : Prop := map_Forall (λ _ c, (0 < c)%Z) t.

Lemma counter_total_empty : counter_total (∅ : gmap K Z) = 0%Z.
Proof. apply map_fold_empty. Qed.

Lemma counter_total_insert t k v :
  t !! k = None → counter_total (<[k := v]> t) = (v + counter_total t)%Z.
Proof.
  intros Hk. unfold counter_total.
  apply (map_fold_insert_L (λ (_ : K) (v acc : Z), (v + acc)%Z) 0%Z k v t); [| done].
  intros. lia.
Qed.

Lemma counter_total_delete t k v :
  t !! k = Some v → counter_total t = (v + counter_total (delete k t))%Z.
Proof.
  intros Hk. unfold counter_total.
  apply (map_fold_delete_L (λ (_ : K) (v acc : Z), (v + acc)%Z) 0%Z k v t); [| done].
  intros. lia.
Qed.

Lemma counter_total_insert_Some t k v x :
  t !! k = Some x → counter_total (<[k := v]> t) = (v - x + counter_total t)%Z.
Proof.
  intros Hk. rewrite <- insert_delete_eq.
  rewrite counter_total_insert by apply lookup_delete_eq.
  rewrite (counter_total_delete t k x Hk). lia.
Qed.

Lemma positive_counts_empty : positive_counts (∅ : gmap K Z).
Proof. apply map_Forall_empty. Qed.

(** A [Counter] with positive counts has at least as many occurrences as keys. *)
Lemma size_le_total t : positive_counts t → (Z.of_nat (size t) ≤ counter_total t)%Z.
Proof.
  induction t as [| k v t Hk IH] using map_ind; intros Hpos.
  - by rewrite map_size_empty, counter_total_empty.
  - apply map_Forall_insert in Hpos as [Hv Hpos]; [| done].
    rewrite map_size_insert_None, counter_total_insert by done.
    specialize (IH Hpos). lia.
Qed.

Lemma keep_positive_positive t : positive_counts (keep_positive t).
Proof.
  intros k c Hc. unfold keep_positive in Hc.
  apply map_lookup_filter_Some in Hc as [_ Hc]. exact Hc.
Qed.

Lemma keep_positive_id t : positive_counts t → keep_positive t = t.
Proof. intros Hpos. apply map_filter_id. intros k c Hc. exact (Hpos k c Hc). Qed.

Lemma counter_iadd_positive a b : positive_counts (counter_iadd a b).
Proof. apply keep_positive_positive. Qed.

Lemma positive_union a b :
  positive_counts a → positive_counts b →
  positive_counts (union_with (λ x y, Some (x + y)%Z) a b).
Proof.
  intros Ha Hb k c. rewrite lookup_union_with.
  destruct (a !! k) as [x |] eqn:Ea, (b !! k) as [y |] eqn:Eb; cbn; intros [= <-].
  - specialize (Ha k x Ea). specialize (Hb k y Eb). cbn in *. lia.
  - exact (Ha k x Ea).
  - exact (Hb k y Eb).
Qed.

Lemma counter_iadd_union a b :
  positive_counts a → positive_counts b →
  counter_iadd a b = union_with (λ x y, Some (x + y)%Z) a b.
Proof. intros Ha Hb. apply keep_positive_id. by apply positive_union. Qed.

(** The occurrences of a sum of [Counter]s add up. *)
Lemma counter_total_union a b :
  counter_total (union_with (λ x y, Some (x + y)%Z) a b)
  = (counter_total a + counter_total b)%Z.
Proof.
  induction b as [| k v b Hk IH] using map_ind.
  - rewrite (right_id ∅ (union_with _)), counter_total_empty. lia.
  - rewrite (counter_total_insert b k v Hk).
    destruct (a !! k) as [x |] eqn:Ea.
    + rewrite <- (insert_id a k x Ea) at 1.
      rewrite <- (insert_union_with _ a b k x v (x + v)%Z) by done.
      rewrite (counter_total_insert_Some _ k _ x).
      * rewrite IH. lia.
      * rewrite lookup_union_with, Ea, Hk. done.
    + rewrite <- insert_union_with_r by done.
      rewrite counter_total_insert.
      * rewrite IH. lia.
      * rewrite lookup_union_with, Ea, Hk. done.
Qed.

Lemma size_union_absorb a b :
  (∀ k, is_Some (b !! k) → is_Some (a !! k)) →
  size (union_with (λ x y, Some (x + y)%Z) a b) = size a.
Proof.
  intros Hsub. rewrite <- !size_dom. f_equal.
  apply set_eq. intros k. rewrite !elem_of_dom, lookup_union_with.
  split.
  - destruct (a !! k) eqn:Ea; [by eexists |]. destruct (b !! k) eqn:Eb; cbn.
    + intros _. rewrite <- Ea. apply Hsub. rewrite Eb. by eexists.
    + by intros [? ?].
  - intros [x Hx]. rewrite Hx. destruct (b !! k); by eexists.
Qed.

(** [Counter(iterable)] has positive counts. *)
Lemma counter_of_positive (l : list K) : positive_counts (counter_of l).
Proof.
  unfold counter_of. generalize positive_counts_empty. generalize (∅ : gmap K Z).
  induction l as [| x l IH]; intros c Hc; [done |].
  cbn [foldl]. apply IH. apply map_Forall_insert_2; [| done].
  unfold counter_get. destruct (c !! x) as [n |] eqn:E; cbn; [| lia].
  specialize (Hc x n E). cbn in Hc. lia.
Qed.

(** Adding the same [Counter] once more brings no new key and no fewer
    occurrences. *)
Lemma counter_iadd_again t c :
  positive_counts t → positive_counts c →
  size (counter_iadd (counter_iadd t c) c) = size (counter_iadd t c)
  ∧ (counter_total (counter_iadd t c) ≤ counter_total (counter_iadd (counter_iadd t c) c))%Z.
Proof.
  intros Ht Hc.
  rewrite (counter_iadd_union (counter_iadd t c) c) by (done || apply counter_iadd_positive).
  split.
  - apply size_union_absorb. intros k [y Hy].
    rewrite (counter_iadd_union t c Ht Hc), lookup_union_with, Hy.
    destruct (t !! k); by eexists.
  - rewrite counter_total_union.
    pose proof (size_le_total c Hc). lia.
Qed.
End counter_facts.

(** *** The ratio that [report] computes *)

(** [max(float(len(t)), 1e-12) / max(sum(t.values()), 1e-5)] *)
Definition inter_ratio (t : gmap (list string) Z) : Q :=
  (max2 (inject_Z (Z.of_nat (counter_len t))) eps12
   / max2 (inject_Z (counter_total t)) eps5)%Q.

Lemma max2_left a b : (b < a)%Q → max2 a b = a.
Proof.
  intros Hlt. unfold max2. destruct (Qlt_le_dec a b) as [Hab | _]; [| done].
  exfalso. apply (Qlt_irrefl a). by apply Qlt_trans with b.
Qed.

Lemma ratio_le (n T1 T2 : Q) :
  (0 <= n)%Q → (0 < T1)%Q → (T1 <= T2)%Q → (n / T2 <= n / T1)%Q.
Proof.
  intros Hn HT1 HT. apply Qle_shift_div_r; [lra |].
  assert (n / T1 * T1 == n)%Q as Hf by (field; lra).
  rewrite <- Hf at 1.
  apply Qmult_le_compat_nonneg; [| split; lra].
  split; [| lra]. apply Qle_shift_div_l; lra.
Qed.

(** With positive counts and at least one key, the ratio is the number of
    keys over the number of occurrences, and lies in (0, 1]. *)
Lemma inter_ratio_bounds t :
  positive_counts t → counter_len t ≠ 0%nat →
  inter_ratio t = (inject_Z (Z.of_nat (size t)) / inject_Z (counter_total t))%Q
  ∧ (0 < inter_ratio t)%Q ∧ (inter_ratio t <= 1)%Q.
Proof.
  intros Hpos Hne. unfold counter_len in Hne.
  pose proof (size_le_total t Hpos) as Hle.
  assert (1 ≤ Z.of_nat (size t))%Z as H1 by lia.
  assert (1 <= inject_Z (Z.of_nat (size t)))%Q as Hs by (by rewrite <- (Zle_Qle 1)).
  assert (1 <= inject_Z (counter_total t))%Q as Ht by (rewrite <- (Zle_Qle 1); lia).
  assert (inject_Z (Z.of_nat (size t)) <= inject_Z (counter_total t))%Q as Hst
    by (by rewrite <- Zle_Qle).
  unfold inter_ratio, counter_len.
  rewrite !max2_left; cycle 1.
  { apply Qlt_le_trans with 1%Q; [reflexivity | done]. }
  { apply Qlt_le_trans with 1%Q; [reflexivity | done]. }
  split; [done |]. split.
  - apply Qlt_shift_div_l; lra.
  - apply Qle_shift_div_r; lra.
Qed.

(** Every [Counter] of the table has positive counts. *)
Definition counters_positive (s : Metrics) : Prop :=
  ∀ k t, metrics s !! k = Some (VCounter t) → positive_counts t.

Lemma stable_counters_positive : stable counters_positive.
Proof.
  split; unfold counters_positive; cbn; try done.
  - intros s k z Hs k' t. destruct (decide (k = k')) as [-> | Hne].
    + by rewrite lookup_insert_eq.
    + rewrite lookup_insert_ne by done. apply Hs.
  - intros s k d c Hs _ k' t. destruct (decide (k = k')) as [-> | Hne].
    + rewrite lookup_insert_eq. intros [= <-]. apply counter_iadd_positive.
    + rewrite lookup_insert_ne by done. apply Hs.
  - intros s k Hs _ k' t. destruct (decide (k = k')) as [-> | Hne].
    + rewrite lookup_insert_eq. intros [= <-]. apply positive_counts_empty.
    + rewrite lookup_insert_ne by done. apply Hs.
Qed.

(** When [m] returns, it has added the [Counter] [c] to the one at [k]. *)
Definition adds_counter {A : Type} (k : string) (c : gmap (list string) Z) (m : M A) : Prop :=
  ∀ s s' r, m s = (s', Ok r) →
    ∃ t, metrics s !! k = Some (VCounter t)
         ∧ metrics s' !! k = Some (VCounter (counter_iadd t c)).

Lemma adds_counter_bind_l {A B : Type} k c (m : M A) (f : A → M B) :
  adds_counter k c m → (∀ a, keeps k (f a)) → adds_counter k c (m ≫= f).
Proof.
  intros Hm Hf s s' r E. apply bind_ok in E as (s1 & a & E1 & E2).
  destruct (Hm _ _ _ E1) as (y & Hy & Hy'). exists y. split; [done |].
  specialize (Hf a s1). rewrite E2 in Hf. simpl in Hf. by rewrite Hf.
Qed.

Lemma adds_counter_bind_r {A B : Type} k c (m : M A) (f : A → M B) :
  keeps k m → (∀ a, adds_counter k c (f a)) → adds_counter k c (m ≫= f).
Proof.
  intros Hm Hf s s' r E. apply bind_ok in E as (s1 & a & E1 & E2).
  destruct (Hf _ _ _ _ E2) as (y & Hy & Hy'). exists y. split; [| done].
  specialize (Hm s). rewrite E1 in Hm. simpl in Hm. by rewrite <- Hm.
Qed.

Lemma adds_counter_iadd k c : adds_counter k c (iadd_counter k c).
Proof.
  intros s s' r. unfold iadd_counter. rewrite bind_unfold. unfold getitem.
  destruct (metrics s !! k) as [[y | d] |] eqn:E; intros [= <-]; [].
  exists d. split; [done |]. cbn. by rewrite lookup_insert_eq.
Qed.

(** *** The table of [inter-distinct-1] through [update] *)

Fixpoint last_char (s : string) : option ascii :=
  match s with
  | EmptyString => None
  | String a EmptyString => Some a
  | String _ r => last_char r
  end.

Lemma last_char_cnt k : last_char (k +:+ "_cnt") = Some "t"%char.
Proof.
  induction k as [| a k IH]; [reflexivity |].
  change (String a k +:+ "_cnt") with (String a (k +:+ "_cnt")).
  cbn [last_char]. rewrite IH. by destruct (k +:+ "_cnt").
Qed.

(** No counter key [k_cnt] is the key [inter-distinct-1]. *)
Lemma cnt_key_not_inter k : k +:+ "_cnt" ≠ "inter-distinct-1".
Proof. intros E. pose proof (last_char_cnt k) as Hl. rewrite E in Hl. discriminate. Qed.

Ltac adds_counter_tac :=
  unfold with_lock;
  repeat first
    [ apply adds_counter_iadd
    | apply adds_counter_bind_r; [solve [keeps_tac] | intros ?]
    | apply adds_counter_bind_l; [| intros ?; solve [keeps_tac]] ].

(** The value is a number or the empty [Counter]. *)
Definition empty_or_num (v : value) : Prop :=
  match v with
  | VCounter t => t = ∅
  | VNum _ => True
  end.

#[export] Instance empty_or_num_dec v : Decision (empty_or_num v).
Proof. destruct v; apply _. Defined.

Section inter_distinct.
Context `{Externals}.

(** The table at [inter-distinct-1] is the [Counter] [t]. *)
Definition inter_table (t : gmap (list string) Z) (s : Metrics) : Prop :=
  metrics s !! "inter-distinct-1" = Some (VCounter t).

Lemma inter_table_iadd_num t k x : preserves (inter_table t) (iadd_num k x).
Proof.
  apply preserves_iadd_num. unfold inter_table. intros s y Ht Ey. cbn.
  rewrite lookup_insert_ne; [done |]. intros ->. congruence.
Qed.

(** No user-reported metric changes the [Counter] at [inter-distinct-1]. *)
Lemma inter_table_user_metric t kv : preserves (inter_table t) (user_metric kv).
Proof.
  destruct kv as [k v]. intros s Ht.
  destruct (decide (k ∈ reserved)) as [Hres | Hres].
  { unfold user_metric. by rewrite bool_decide_eq_false_2 by (by intros ?). }
  destruct (decide (k ∈ metrics_list s)) as [Hreg | Hreg].
  - assert (user_metric (k, v) s = (iadd_num k v;; iadd_num (k +:+ "_cnt") 1) s) as ->.
    { unfold user_metric, with_lock. rewrite (bool_decide_eq_true_2 _ Hres).
      rewrite bind_unfold. cbn [get_metrics_list]. by rewrite (bool_decide_eq_true_2 _ Hreg). }
    assert (preserves (inter_table t) (iadd_num k v;; iadd_num (k +:+ "_cnt") 1)) as Hp
      by (apply preserves_bind; [| intros _]; apply inter_table_iadd_num).
    exact (Hp s Ht).
  - rewrite (user_metric_unfold _ _ _ Hres Hreg).
    destruct (shared s); [done |]. unfold inter_table in *.
    destruct (metrics s !! k) as [[y | c] |] eqn:Ek; cbn; [| done |].
    + rewrite lookup_insert_ne; [done |]. intros ->. congruence.
    + rewrite lookup_insert_ne by apply cnt_key_not_inter.
      rewrite lookup_insert_ne; [done |]. intros ->. congruence.
Qed.

Lemma keeps_fold_correct_ne k c :
  k ≠ "correct" → k ≠ "correct_cnt" → keeps k (fold_correct c).
Proof. intros H1 H2. unfold fold_correct. keeps_tac. Qed.

Lemma adds_counter_fold_scores p l f1 :
  adds_counter "inter-distinct-1" (_inter_distinct p 1) (fold_scores p l f1).
Proof. unfold fold_scores. cbn [for_each seq]. adds_counter_tac. Qed.

(** When [update] returns, the [Counter] at [inter-distinct-1] has taken the
    unigrams of the prediction, when there is one, and nothing else. *)
Lemma update_inter_table s o l s' r t :
  update o l s = (s', Ok r) → inter_table t s →
  inter_table (match text o with
               | Some p => counter_iadd t (_inter_distinct p 1)
               | None => t
               end) s'.
Proof.
  intros E Ht. unfold update in E.
  apply bind_ok in E as (s1 & [] & E1 & E).
  apply bind_ok in E as (s2 & c & E2 & E).
  apply bind_ok in E as (s3 & [] & E3 & E).
  apply bind_ok in E as (s4 & [] & E4 & E). injection E as <- _.
  assert (inter_table t s1) as Ht1.
  { unfold inter_table. rewrite <- Ht.
    pose proof (keeps_fold_cnt "inter-distinct-1" ltac:(discriminate) s) as Hk.
    by rewrite E1 in Hk. }
  assert (inter_table (match text o with
                       | Some p => counter_iadd t (_inter_distinct p 1)
                       | None => t
                       end) s2) as Ht2.
  { unfold update_text in E2. destruct (text o) as [p |].
    - assert (adds_counter "inter-distinct-1" (_inter_distinct p 1)
                (fold_correct (if _exact_match (Some p) (Some l) then 1%Q else 0%Q);;
                 f1 ← lift (_f1_score (Some p) (Some l));
                 fold_scores p l f1;;
                 ret (if _exact_match (Some p) (Some l) then 1%Q else 0%Q))) as Hadd.
      { apply adds_counter_bind_r;
          [apply keeps_fold_correct_ne; discriminate | intros _].
        apply adds_counter_bind_r; [apply keeps_lift | intros f1].
        apply adds_counter_bind_l; [apply adds_counter_fold_scores | intros _; apply keeps_ret]. }
      destruct (Hadd _ _ _ E2) as (t' & Et' & Et''). unfold inter_table in *.
      rewrite Ht1 in Et'. by injection Et' as <-.
    - by injection E2 as <- _. }
  assert (inter_table (match text o with
                       | Some p => counter_iadd t (_inter_distinct p 1)
                       | None => t
                       end) s3) as Ht3.
  { unfold inter_table. rewrite <- Ht2.
    pose proof (keeps_update_ranking_metrics "inter-distinct-1" o l
                  ltac:(right; by_compute) s2) as Hk.
    by rewrite E3 in Hk. }
  assert (preserves (inter_table (match text o with
                                  | Some p => counter_iadd t (_inter_distinct p 1)
                                  | None => t
                                  end)) (update_user_metrics o)) as Hu.
  { unfold update_user_metrics. destruct (obs_metrics o); [| apply preserves_ret].
    apply preserves_for_each. intros kv _. apply inter_table_user_metric. }
  specialize (Hu s3 Ht3). by rewrite E4 in Hu.
Qed.

(** The entry [inter-distinct-1] of a report is the rounded ratio of a
    [Counter] of the table that is not empty. *)
Lemma report_inter_distinct s m v :
  report s = Ok m → m !! "inter-distinct-1" = Some v →
  ∃ t, inter_table t s ∧ counter_len t ≠ 0%nat ∧ v = round_sigfigs (inter_ratio t) 4.
Proof.
  intros E Hv.
  assert (∃ total, metrics s !! "cnt" = Some (VNum total)) as [total Ec].
  { unfold report, num_at in E. destruct (metrics s !! "cnt") as [[x | c] |]; [eauto | done | done]. }
  destruct (Qlt_le_dec 0 total) as [Hpos | Hle].
  - destruct (report_positive _ _ _ E Ec Hpos) as (m0 & Ef & Hm0).
    pose proof (report_keys_lookup _ _ _ _ "inter-distinct-1" Ef) as Hk.
    rewrite Hv in Hk. rewrite (Hm0 "inter-distinct-1") in Hk by by_compute.
    destruct (decide ("inter-distinct-1" ∈ metrics_list s)); [| done].
    unfold key_entry, report_key in Hk.
    change (startswith "inter-distinct" "inter-distinct-1") with true in Hk.
    cbn [negb] in Hk.
    destruct (metrics s !! "inter-distinct-1") as [[x | t] |] eqn:Et; [done | | done].
    exists t. split; [done |].
    destruct (decide (counter_len t = 0%nat)) as [Hz | Hnz].
    + rewrite (bool_decide_eq_true_2 _ Hz) in Hk. cbn in Hk. by rewrite lookup_empty in Hk.
    + rewrite (bool_decide_eq_false_2 _ Hnz) in Hk. cbn [negb from_option] in Hk.
      rewrite lookup_insert_eq in Hk. split; [done |]. injection Hk as Hk. exact Hk.
  - unfold report in E.
    assert (num_at s "cnt" = Ok total) as En by (unfold num_at; by rewrite Ec).
    rewrite En in E. apply res_bind_ok in E as (t & [= <-] & E).
    assert (Qgtb total 0 = false) as Eg.
    { destruct (Qgtb total 0) eqn:Eg; [| done]. apply Qgtb_true in Eg. lra. }
    rewrite Eg in E. injection E as <-.
    rewrite lookup_insert_ne in Hv by done. by rewrite lookup_empty in Hv.
Qed.

Lemma init_counters_positive opt : counters_positive (__init__ opt).
Proof.
  intros k t Hk. assert (empty_or_num (VCounter t)) as ->; [| apply positive_counts_empty].
  revert Hk. generalize (VCounter t). revert k.
  change (map_Forall (λ _ v, empty_or_num v) (metrics (__init__ opt))).
  unfold __init__, initial_metrics_list. cbn [metrics].
  destruct nltkbleu_available, rouge_available; by_compute.
Qed.

(** C8. With a [round_sigfigs] that, to 4 significant figures, keeps the
    order of positive arguments, keeps positive numbers positive and does not
    take 1 above 1: after every sequence of calls, the [inter-distinct-1]
    entry of a report lies in (0, 1]; and when [update] returns twice on the
    same observation and labels, the entry of the report after the second
    call is no greater than the entry of the report after the first. *)
Theorem inter_distinct_report opt cs :
  (∀ x, (0 < x)%Q → (0 < round_sigfigs x 4)%Q) →
  (∀ x y, (0 < x)%Q → (x <= y)%Q → (round_sigfigs x 4 <= round_sigfigs y 4)%Q) →
  (round_sigfigs 1 4 <= 1)%Q →
  (∀ m v, report (do_calls (__init__ opt) cs) = Ok m →
          m !! "inter-distinct-1" = Some v → (0 < v)%Q ∧ (v <= 1)%Q)
  ∧ (∀ o l s1 r1 s2 r2 m1 m2 v1 v2,
       update o l (do_calls (__init__ opt) cs) = (s1, Ok r1) →
       update o l s1 = (s2, Ok r2) →
       report s1 = Ok m1 → report s2 = Ok m2 →
       m1 !! "inter-distinct-1" = Some v1 → m2 !! "inter-distinct-1" = Some v2 →
       (v2 <= v1)%Q).
Proof.
  intros Rpos Rmono Rone.
  assert (counters_positive (do_calls (__init__ opt) cs)) as Hpos
    by apply (stable_do_calls _ stable_counters_positive), init_counters_positive.
  split.
  - intros m v E Hv. destruct (report_inter_distinct _ _ _ E Hv) as (t & Et & Hne & ->).
    destruct (inter_ratio_bounds t (Hpos _ _ Et) Hne) as (_ & H0 & H1).
    split; [by apply Rpos |].
    apply Qle_trans with (round_sigfigs 1 4); [by apply Rmono | done].
  - intros o l s1 r1 s2 r2 m1 m2 v1 v2 E1 E2 R1 R2 Hv1 Hv2.
    destruct (report_inter_distinct _ _ _ R1 Hv1) as (t1 & Et1 & Hne1 & ->).
    destruct (report_inter_distinct _ _ _ R2 Hv2) as (t2 & Et2 & Hne2 & ->).
    pose proof (update_inter_table _ _ _ _ _ _ E2 Et1) as Et2'.
    unfold inter_table in Et2, Et2'. rewrite Et2 in Et2'. injection Et2' as ->.
    destruct (text o) as [p |] eqn:Ep; [| apply Qle_refl].
    (* the table after the first call is the one before it plus the unigrams *)
    assert (∃ t0, inter_table t0 (do_calls (__init__ opt) cs)
                  ∧ t1 = counter_iadd t0 (_inter_distinct p 1)) as (t0 & Et0 & ->).
    { assert (adds_counter "inter-distinct-1" (_inter_distinct p 1) (update o l)) as Hadd.
      { unfold update.
        apply adds_counter_bind_r; [apply keeps_fold_cnt; discriminate | intros _].
        intros s s' r E. apply bind_ok in E as (sa & c & Ea & Eb).
        unfold update_text in Ea. rewrite Ep in Ea.
        apply bind_ok in Ea as (sb & [] & Ea1 & Ea).
        apply bind_ok in Ea as (sc & f1 & Ea2 & Ea).
        apply bind_ok in Ea as (sd & [] & Ea3 & Ea). injection Ea as <- _.
        injection Ea2 as <- _.
        destruct (adds_counter_fold_scores p l f1 _ _ _ Ea3) as (t & Ht & Ht').
        exists t. split.
        - rewrite <- Ht.
          pose proof (keeps_fold_correct_ne "inter-distinct-1"
                        (if _exact_match (Some p) (Some l) then 1%Q else 0%Q)
                        ltac:(discriminate) ltac:(discriminate) s) as Hk.
          by rewrite Ea1 in Hk.
        - pose proof (update_inter_table s o l s' r) as Hwhole. clear Hwhole.
          apply bind_ok in Eb as (se & [] & Eb1 & Eb).
          apply bind_ok in Eb as (sf & [] & Eb2 & Eb). injection Eb as <- _.
          assert (inter_table (counter_iadd t (_inter_distinct p 1)) se) as Hse.
          { unfold inter_table. rewrite <- Ht'.
            pose proof (keeps_update_ranking_metrics "inter-distinct-1" o l
                          ltac:(right; by_compute) sd) as Hk.
            by rewrite Eb1 in Hk. }
          assert (preserves (inter_table (counter_iadd t (_inter_distinct p 1)))
                    (update_user_metrics o)) as Hu.
          { unfold update_user_metrics. destruct (obs_metrics o); [| apply preserves_ret].
            apply preserves_for_each. intros kv _. apply inter_table_user_metric. }
          specialize (Hu se Hse). by rewrite Eb2 in Hu. }
      destruct (Hadd _ _ _ E1) as (t0 & Ht0 & Ht1). exists t0. split; [done |].
      unfold inter_table in Et1. rewrite Et1 in Ht1. by injection Ht1. }
    pose proof (Hpos _ _ Et0) as Hp0.
    pose proof (counter_of_positive (_ngram (split (normalize_answer p)) 1)) as Hpc.
    fold (_inter_distinct p 1) in Hpc.
    destruct (counter_iadd_again t0 (_inter_distinct p 1) Hp0 Hpc) as [Hsize Htot].
    destruct (inter_ratio_bounds _ (counter_iadd_positive _ (_inter_distinct p 1)) Hne2)
      as (E2' & H2pos & _).
    apply Rmono; [exact H2pos |]. rewrite E2'.
    destruct (inter_ratio_bounds _ (counter_iadd_positive t0 _) Hne1) as (-> & _ & _).
    rewrite Hsize.
    pose proof (size_le_total _ (counter_iadd_positive t0 (_inter_distinct p 1))) as Hst.
    unfold counter_len in Hne1.
    apply ratio_le.
    + rewrite <- (Zle_Qle 0). lia.
    + rewrite <- (Zlt_Qlt 0). lia.
    + by rewrite <- Zle_Qle.
Qed.
End inter_distinct.

(** *** The model of [round_sigfigs] rounds as the theorem on the ratio asks *)

Lemma pow10_Qpower e : (pow10 e == 10 ^ e)%Q.
Proof.
  unfold pow10. destruct (Z.leb_spec 0 e) as [Hle | Hlt].
  - by rewrite (Zpower_Qpower 10 e Hle).
  - rewrite (Zpower_Qpower 10 (- e)) by lia.
    change (inject_Z 10) with 10%Q. rewrite Qpower_opp. unfold Qdiv.
    rewrite Qmult_1_l, Qinv_involutive. reflexivity.
Qed.

Lemma pow10_pos e : (0 < pow10 e)%Q.
Proof. rewrite pow10_Qpower. by apply Qpower_0_lt. Qed.

Lemma pow10_plus a b : (pow10 (a + b) == pow10 a * pow10 b)%Q.
Proof. rewrite !pow10_Qpower. by apply Qpower_plus. Qed.

Lemma pow10_le a b : (a ≤ b)%Z → (pow10 a <= pow10 b)%Q.
Proof. intros Hab. rewrite !pow10_Qpower. by apply Qpower_le_compat_l. Qed.

Lemma pow10_lt_inv a b : (pow10 a < pow10 b)%Q → (a < b)%Z.
Proof.
  rewrite !pow10_Qpower. intros Hlt. by apply (Qpower_lt_compat_l_inv 10).
Qed.

Lemma pow10_nonneg_Z e : (0 ≤ e)%Z → pow10 e = inject_Z (10 ^ e).
Proof. intros He. unfold pow10. by destruct (Z.leb_spec 0 e); [| lia]. Qed.

Lemma ilog10_spec fuel n :
  (1 ≤ n < 2 ^ Z.of_nat fuel)%Z →
  (0 ≤ ilog10 fuel n)%Z
  ∧ (10 ^ ilog10 fuel n ≤ n < 10 ^ (ilog10 fuel n + 1))%Z.
Proof.
  revert n. induction fuel as [| fuel IH]; intros n Hn.
  - cbn in Hn. lia.
  - cbn [ilog10]. destruct (Z.ltb_spec n 10) as [Hlt | Hge].
    + cbn. lia.
    + assert (1 ≤ n / 10 < 2 ^ Z.of_nat fuel)%Z as Hdiv.
      { split; [apply Z.div_le_lower_bound; lia |].
        apply Z.div_lt_upper_bound; [lia |].
        rewrite Nat2Z.inj_succ, Z.pow_succ_r in Hn by lia. lia. }
      destruct (IH _ Hdiv) as (H0 & Hlo & Hhi). split; [lia |].
      set (e := ilog10 fuel (n / 10)) in *.
      assert (10 ^ (1 + e) = 10 * 10 ^ e)%Z as -> by (rewrite Z.pow_add_r by lia; lia).
      assert (10 ^ (1 + e + 1) = 10 * 10 ^ (e + 1))%Z as ->.
      { replace (1 + e + 1)%Z with (1 + (e + 1))%Z by lia. rewrite Z.pow_add_r by lia. lia. }
      pose proof (Z.div_mod n 10 ltac:(lia)). pose proof (Z.mod_pos_bound n 10 ltac:(lia)).
      lia.
Qed.

Lemma neg_log10_spec fuel x :
  (0 < x)%Q → (x < 10)%Q → (1 <= x * inject_Z (2 ^ Z.of_nat fuel))%Q →
  (pow10 (neg_log10 fuel x) <= x)%Q ∧ (x < pow10 (neg_log10 fuel x + 1))%Q.
Proof.
  revert x. induction fuel as [| fuel IH]; intros x H0 H10 Hf.
  - change (inject_Z (2 ^ Z.of_nat 0)) with 1%Q in Hf.
    cbn [neg_log10]. change (pow10 0) with 1%Q. change (pow10 (0 + 1)) with 10%Q.
    split; lra.
  - cbn [neg_log10]. destruct (Qle_bool 1 x) eqn:E1.
    + apply Qle_bool_iff in E1. change (pow10 0) with 1%Q. change (pow10 (0 + 1)) with 10%Q.
      split; lra.
    + assert (x < 1)%Q as Hx1.
      { destruct (Qlt_le_dec x 1) as [? | Hle]; [done |].
        apply Qle_bool_iff in Hle. congruence. }
      destruct (IH (x * 10)%Q) as [Hlo Hhi]; [lra | lra | |].
      { rewrite Nat2Z.inj_succ, Z.pow_succ_r, inject_Z_mult in Hf by lia.
        change (inject_Z 2) with 2%Q in Hf.
        assert (0 <= inject_Z (2 ^ Z.of_nat fuel))%Q as Hp.
        { rewrite <- (Zle_Qle 0). apply Z.pow_nonneg. lia. }
        nra. }
      set (e := neg_log10 fuel (x * 10)) in *.
      assert (pow10 e == pow10 (e - 1) * 10)%Q as He.
      { replace e with ((e - 1) + 1)%Z at 1 by lia. rewrite pow10_plus. reflexivity. }
      assert (pow10 (e + 1) == pow10 (e - 1 + 1) * 10)%Q as He'.
      { replace (e + 1)%Z with ((e - 1 + 1) + 1)%Z at 1 by lia. rewrite pow10_plus. reflexivity. }
      rewrite He in Hlo. rewrite He' in Hhi. split; lra.
Qed.

Lemma floor_log10_spec x :
  (0 < x)%Q →
  (pow10 (floor_log10 x) <= x)%Q ∧ (x < pow10 (floor_log10 x + 1))%Q.
Proof.
  intros H0. unfold floor_log10. destruct (Qle_bool 1 x) eqn:E1.
  - apply Qle_bool_iff in E1.
    assert (1 ≤ Qfloor x)%Z as Hf1.
    { rewrite <- (Qfloor_Z 1). by apply Qfloor_resp_le. }
    destruct (ilog10_spec (S (Z.to_nat (Z.log2 (Qfloor x)))) (Qfloor x)) as (He & Hlo & Hhi).
    { split; [done |]. rewrite Nat2Z.inj_succ, Z2Nat.id by apply Z.log2_nonneg.
      apply Z.log2_spec. lia. }
    set (e := ilog10 _ _) in *.
    rewrite !pow10_nonneg_Z by lia. split.
    + apply Qle_trans with (inject_Z (Qfloor x)); [by rewrite <- Zle_Qle | apply Qfloor_le].
    + apply Qlt_le_trans with (inject_Z (Qfloor x + 1)); [apply Qlt_floor |].
      rewrite <- Zle_Qle. lia.
  - assert (x < 1)%Q as Hx1.
    { destruct (Qlt_le_dec x 1) as [? | Hle]; [done |].
      apply Qle_bool_iff in Hle. congruence. }
    apply neg_log10_spec; [done | lra |].
    destruct x as [p q]. cbn [Qden].
    assert (0 < p)%Z as Hp by (unfold Qlt in H0; cbn in H0; lia).
    rewrite Nat2Z.inj_succ, Z2Nat.id by apply Z.log2_nonneg.
    pose proof (Z.log2_spec (Z.pos q) ltac:(lia)) as [_ Hq].
    set (T := (2 ^ Z.succ (Z.log2 (Z.pos q)))%Z) in *.
    unfold Qle, Qmult, inject_Z. cbn [Qnum Qden]. rewrite Pos.mul_1_r. nia.
Qed.

Lemma round_half_even_bounds x :
  (Qfloor x ≤ round_half_even x ≤ Qfloor x + 1)%Z.
Proof.
  unfold round_half_even. destruct (x - inject_Z (Qfloor x) ?= 1 # 2)%Q; [| lia | lia].
  destruct (Z.even (Qfloor x)); lia.
Qed.

Lemma round_half_even_ge z x : (inject_Z z <= x)%Q → (z ≤ round_half_even x)%Z.
Proof.
  intros Hz. pose proof (Qfloor_resp_le _ _ Hz) as Hf. rewrite Qfloor_Z in Hf.
  pose proof (round_half_even_bounds x). lia.
Qed.

Lemma round_half_even_le z x : (x <= inject_Z z)%Q → (round_half_even x ≤ z)%Z.
Proof.
  intros Hz. pose proof (Qfloor_resp_le _ _ Hz) as Hf. rewrite Qfloor_Z in Hf.
  pose proof (round_half_even_bounds x) as Hb.
  destruct (Z.eq_dec (Qfloor x) z) as [E | Hne]; [| lia].
  unfold round_half_even. rewrite E.
  pose proof (Qfloor_le x) as Hle. rewrite E in Hle.
  assert (x - inject_Z z == 0)%Q as H0 by lra.
  assert ((x - inject_Z z ?= 1 # 2)%Q = Lt) as ->; [| lia].
  apply Qlt_alt. rewrite H0. reflexivity.
Qed.

Lemma round_half_even_mono x y :
  (x <= y)%Q → (round_half_even x ≤ round_half_even y)%Z.
Proof.
  intros Hxy. pose proof (Qfloor_resp_le _ _ Hxy) as Hf.
  pose proof (round_half_even_bounds x) as Hx.
  pose proof (round_half_even_bounds y) as Hy.
  destruct (Z.eq_dec (Qfloor x) (Qfloor y)) as [E | Hne]; [| lia].
  unfold round_half_even in *. rewrite E in *.
  destruct (Qcompare_spec (x - inject_Z (Qfloor y)) (1 # 2)) as [Ex | Ex | Ex],
           (Qcompare_spec (y - inject_Z (Qfloor y)) (1 # 2)) as [Ey | Ey | Ey];
    try lia; try lra; destruct (Z.even (Qfloor y)); lia.
Qed.

(** To 4 significant figures, a positive number is rounded to a number
    between the powers of ten that enclose it. *)
Lemma round_sigfigs_model_bounds x :
  (0 < x)%Q →
  (pow10 (floor_log10 (Qabs x)) <= round_sigfigs_model x 4)%Q
  ∧ (round_sigfigs_model x 4 <= pow10 (floor_log10 (Qabs x) + 1))%Q.
Proof.
  intros H0. unfold round_sigfigs_model.
  assert (Qeq_bool x 0 = false) as ->.
  { destruct (Qeq_bool x 0) eqn:E; [| done]. apply Qeq_bool_eq in E. lra. }
  rewrite Qred_correct.
  assert (Qabs x == x)%Q as Ha by (apply Qabs_pos; lra).
  destruct (floor_log10_spec (Qabs x)) as [Hlo Hhi]; [lra |].
  set (e := floor_log10 (Qabs x)) in *. rewrite Ha in Hlo, Hhi.
  change (Z.of_nat 4) with 4%Z.
  replace (- (e - 4 + 1))%Z with (3 - e)%Z by lia.
  unfold round_to. replace (- (3 - e))%Z with (e - 3)%Z by lia.
  pose proof (pow10_pos (3 - e)) as Hp. pose proof (pow10_pos (e - 3)) as Hq.
  assert (pow10 e * pow10 (3 - e) == inject_Z 1000)%Q as E3.
  { rewrite <- pow10_plus. replace (e + (3 - e))%Z with 3%Z by lia. reflexivity. }
  assert (pow10 (e + 1) * pow10 (3 - e) == inject_Z 10000)%Q as E4.
  { rewrite <- pow10_plus. replace (e + 1 + (3 - e))%Z with 4%Z by lia. reflexivity. }
  assert (inject_Z 1000 * pow10 (e - 3) == pow10 e)%Q as F3.
  { change (inject_Z 1000) with (pow10 3). rewrite <- pow10_plus.
    by replace (3 + (e - 3))%Z with e by lia. }
  assert (inject_Z 10000 * pow10 (e - 3) == pow10 (e + 1))%Q as F4.
  { change (inject_Z 10000) with (pow10 4). rewrite <- pow10_plus.
    by replace (4 + (e - 3))%Z with (e + 1)%Z by lia. }
  assert (1000 ≤ round_half_even (x * pow10 (3 - e)))%Z as Hr3.
  { apply round_half_even_ge. rewrite <- E3. apply Qmult_le_compat_r; lra. }
  assert (round_half_even (x * pow10 (3 - e)) ≤ 10000)%Z as Hr4.
  { apply round_half_even_le. rewrite <- E4. apply Qmult_le_compat_r; lra. }
  rewrite (Zle_Qle 1000) in Hr3. rewrite (Zle_Qle _ 10000) in Hr4.
  split.
  - rewrite <- F3. apply Qmult_le_compat_r; lra.
  - rewrite <- F4. apply Qmult_le_compat_r; lra.
Qed.

Lemma round_sigfigs_model_pos x : (0 < x)%Q → (0 < round_sigfigs_model x 4)%Q.
Proof.
  intros H0. destruct (round_sigfigs_model_bounds x H0) as [Hlo _].
  eapply Qlt_le_trans; [apply pow10_pos | exact Hlo].
Qed.

Lemma round_sigfigs_model_mono x y :
  (0 < x)%Q → (x <= y)%Q → (round_sigfigs_model x 4 <= round_sigfigs_model y 4)%Q.
Proof.
  intros H0 Hxy. assert (0 < y)%Q as Hy by lra.
  destruct (round_sigfigs_model_bounds x H0) as [_ Hxhi].
  destruct (round_sigfigs_model_bounds y Hy) as [Hylo _].
  assert (Qabs x == x)%Q as Hax by (apply Qabs_pos; lra).
  assert (Qabs y == y)%Q as Hay by (apply Qabs_pos; lra).
  destruct (floor_log10_spec (Qabs x)) as [Hxl Hxh]; [lra |].
  destruct (floor_log10_spec (Qabs y)) as [Hyl Hyh]; [lra |].
  assert (floor_log10 (Qabs x) < floor_log10 (Qabs y) + 1)%Z as Hlt.
  { apply pow10_lt_inv. lra. }
  destruct (Z.eq_dec (floor_log10 (Qabs x)) (floor_log10 (Qabs y))) as [E | Hne].
  - unfold round_sigfigs_model.
    assert (Qeq_bool x 0 = false) as ->.
    { destruct (Qeq_bool x 0) eqn:Eb; [| done]. apply Qeq_bool_eq in Eb. lra. }
    assert (Qeq_bool y 0 = false) as ->.
    { destruct (Qeq_bool y 0) eqn:Eb; [| done]. apply Qeq_bool_eq in Eb. lra. }
    rewrite !Qred_correct, E. unfold round_to.
    set (d := (- (floor_log10 (Qabs y) - Z.of_nat 4 + 1))%Z).
    pose proof (pow10_pos d). pose proof (pow10_pos (- d)).
    apply Qmult_le_compat_r; [| lra].
    rewrite <- Zle_Qle. apply round_half_even_mono. apply Qmult_le_compat_r; lra.
  - apply Qle_trans with (pow10 (floor_log10 (Qabs x) + 1)); [done |].
    apply Qle_trans with (pow10 (floor_log10 (Qabs y))); [| done].
    apply pow10_le. lia.
Qed.

(** A prediction in which one word is repeated. *)
Definition obs_cats : Observation := obs_text "cat cat dog".

Definition state_cats (n : nat) : Metrics :=
  do_calls (H := plain_install) fresh (replicate n (Update obs_cats ["dog"])).

Definition report_cats (n : nat) : gmap string Q :=
  match report (H := plain_install) (state_cats n) with
  | Ok m => m
  | Raise _ => ∅
  end.

(** C8, witness: the rounding of the model has the three properties, and the
    prediction [cat cat dog] given twice is reported as 0.6667 and then as
    0.3333. *)
Lemma inter_distinct_report_witness :
  (∀ x, (0 < x)%Q → (0 < round_sigfigs_model x 4)%Q)
  ∧ (∀ x y, (0 < x)%Q → (x <= y)%Q → (round_sigfigs_model x 4 <= round_sigfigs_model y 4)%Q)
  ∧ (round_sigfigs_model 1 4 <= 1)%Q
  ∧ ∃ v1 v2,
      report (H := plain_install) (state_cats 1) = Ok (report_cats 1)
      ∧ report (H := plain_install) (state_cats 2) = Ok (report_cats 2)
      ∧ report_cats 1 !! "inter-distinct-1" = Some v1
      ∧ report_cats 2 !! "inter-distinct-1" = Some v2
      ∧ (v1 == 6667 # 10000)%Q ∧ (v2 == 3333 # 10000)%Q
      ∧ (0 < v1)%Q ∧ (v1 <= 1)%Q ∧ (v2 <= v1)%Q.
Proof.
  assert (round_sigfigs_model 1 4 <= 1)%Q as Rone by (vm_compute; discriminate).
  split; [exact round_sigfigs_model_pos |].
  split; [exact round_sigfigs_model_mono |].
  split; [exact Rone |].
  assert (report (H := plain_install) (state_cats 1) = Ok (report_cats 1)) as R1
    by (vm_compute; reflexivity).
  assert (report (H := plain_install) (state_cats 2) = Ok (report_cats 2)) as R2
    by (vm_compute; reflexivity).
  destruct (report_cats 1 !! "inter-distinct-1") as [v1 |] eqn:E1;
    [| vm_compute in E1; discriminate E1].
  destruct (report_cats 2 !! "inter-distinct-1") as [v2 |] eqn:E2;
    [| vm_compute in E2; discriminate E2].
  exists v1, v2. do 4 (split; [done |]).
  split; [vm_compute in E1; injection E1 as <-; reflexivity |].
  split; [vm_compute in E2; injection E2 as <-; reflexivity |].
  destruct (inter_distinct_report (H := plain_install) ∅ [Update obs_cats ["dog"]]
              round_sigfigs_model_pos round_sigfigs_model_mono Rone) as [Hb _].
  destruct (inter_distinct_report (H := plain_install) ∅ []
              round_sigfigs_model_pos round_sigfigs_model_mono Rone) as [_ Hm].
  split; [| split].
  - exact (proj1 (Hb _ _ R1 E1)).
  - exact (proj2 (Hb _ _ R1 E1)).
  - apply (Hm obs_cats ["dog"] (state_cats 1) {[ "correct" := 0%Q ]}
              (state_cats 2) {[ "correct" := 0%Q ]} (report_cats 1) (report_cats 2));
      first [exact R1 | exact R2 | exact E1 | exact E2 | vm_compute; reflexivity].
Defined.

(** ** The critical sections of [update] *)



Section lock_points.
Context `{Externals}.



End lock_points.










(** [user_metric] by cases on the state in which it starts. *)
Lemma user_metric_cases k v s :
  user_metric (k, v) s =
    if bool_decide (k ∉ reserved) then
      if bool_decide (k ∈ metrics_list s) then
        (iadd_num k v;; iadd_num (k +:+ "_cnt") 1) s
      else if shared s then (s, Ok tt)
      else if bool_decide (is_Some (metrics s !! k)) then iadd_num k v s
      else (setitem k (VNum v);; append_metrics_list k;;
            setitem (k +:+ "_cnt") (VNum 1)) s
    else (s, Ok tt).
Proof.
  unfold user_metric, with_lock. destruct (bool_decide (k ∉ reserved)); [| done].
  rewrite bind_unfold. cbn [get_metrics_list].
  destruct (bool_decide (k ∈ metrics_list s)); [done |].
  rewrite bind_unfold. cbn [is_shared]. destruct (shared s); [done |].
  rewrite bind_unfold. cbn [contains].
  by destruct (bool_decide (is_Some (metrics s !! k))).
Qed.








Section update_sections.
Context `{Externals}.



End update_sections.



(** * Further properties of the module *)

(** ** Definitions *)

(** The number of common tokens that [_prec_recall_f1_score] counts. *)
Definition num_same (pred_items gold_items : list string) : Z :=
  counter_total (counter_and (counter_of gold_items) (counter_of pred_items)).

(** What a call does to the number of examples counted. *)
Definition count_call (n : Q) (c : call) : Q :=
  match c with
  | Update _ _ => (n + 1)%Q
  | Clear => 0%Q
  end.

(** What [report] returns, the empty dict when it raises. *)
Definition report_of (s : Metrics) : gmap string Q :=
  match report (H := plain_install) s with
  | Ok m => m
  | Raise _ => ∅
  end.

(** The flag [print_prediction_metrics] is set. *)
Definition prints_predictions (s : Metrics) : Prop :=
  print_prediction_metrics (flags s) = true.

(** The entry is the number zero; the entry is the empty [Counter]. *)
Definition is_zero_num (v : option value) : Prop :=
  match v with
  | Some (VNum x) => Qnum x = 0%Z
  | _ => False
  end.

Definition is_empty_counter (v : option value) : Prop :=
  match v with
  | Some (VCounter c) => c = ∅
  | _ => False
  end.

#[export] Instance is_zero_num_dec v : Decision (is_zero_num v).
Proof. destruct v as [[x | c] |]; apply _. Defined.

#[export] Instance is_empty_counter_dec v : Decision (is_empty_counter v).
Proof. destruct v as [[x | c] |]; apply _. Defined.

(** The turn of [k0] in the loop of [report] has nothing to write: the
    counter that goes with [k0] is zero, or [k0] is an inter-distinct key
    with an empty [Counter]. *)
Definition quiet_key (t : gmap string value) (k0 : string) : Prop :=
  if startswith "inter-distinct" k0 then is_empty_counter (t !! k0)
  else is_zero_num (t !! cnt_key k0).

#[export] Instance quiet_key_dec t k0 : Decision (quiet_key t k0).
Proof. unfold quiet_key. destruct (startswith "inter-distinct" k0); apply _. Defined.

(** Each key of [K] holds a number. *)
Definition numbers_at (K : list string) (s : Metrics) : Prop :=
  ∀ k, k ∈ K → holds_num k s.

(** An installation with py-rouge and without nltk, whose ROUGE scorer
    raises [LookupError]. *)
Definition rouge_lookup_install : Externals := {|
  nltkbleu_available := false;
  rouge_available := true;
  sentence_bleu := λ _ _ _, Raise OtherError;
  rouge_get_scores := λ _ _, Raise LookupError;
  round_sigfigs := round_sigfigs_model
|}.

(** Every character of the string satisfies [p]. *)
Fixpoint all_chars (p : ascii → bool) (s : string) : bool :=
  match s with
  | EmptyString => true
  | String c r => p c && all_chars p r
  end.

Definition not_space (c : ascii) : bool := negb (is_space c).
Definition not_punc (c : ascii) : bool := negb (is_punc c).
Definition lower_stable (c : ascii) : bool := bool_decide (lower_char c = c).

(** A character of a normalised token: no white space, no punctuation, no
    upper-case letter. *)
Definition plain_char (c : ascii) : bool :=
  not_space c && not_punc c && negb (in_range 65 90 c).

(** The text is ASCII: the steps of [normalize_answer] are modelled on ASCII
    characters. *)
Definition ascii_text (s : string) : Prop :=
  all_chars (λ c, (code c <? 128)%nat) s = true.

(** A token of a normalised text. *)
Definition plain_token (w : string) : Prop :=
  w ≠ EmptyString ∧ all_chars plain_char w = true.

(** No maximal run of word characters of [word ++ text] that ends in [text]
    spells an article; [word] is the run read so far. *)
Fixpoint no_article_from (word text : string) : bool :=
  match text with
  | EmptyString => negb (is_article word)
  | String c r =>
      if is_word c then no_article_from (word +:+ String c EmptyString) r
      else negb (is_article word) && no_article_from EmptyString r
  end.

Definition no_article (text : string) : bool := no_article_from EmptyString text.


Section further_definitions.
Context `{Externals}.

(** The object is shared and has the registered keys and the table keys of
    the fresh accumulator. *)
Definition shared_keys (opt : gmap string Z) (s : Metrics) : Prop :=
  shared s = true
  ∧ metrics_list s = initial_metrics_list
  ∧ dom (metrics s) = dom (metrics (__init__ opt)).

(** [k] is a key of the table of the fresh accumulator. *)
Definition has_key (opt : gmap string Z) (k : string) : Prop :=
  is_Some (metrics (__init__ opt) !! k).

(** The keys that the text part of [update] adds numbers to before it asks
    for the ROUGE scores. *)
Definition keys_before_rouge : list string :=
  ["cnt"; "correct"; "correct_cnt"; "f1"; "f1_cnt"; "bleu_cnt"; "rouge-1"]
  ++ (if nltkbleu_available then ["bleu-1"; "bleu-2"; "bleu-3"; "bleu-4"] else []).

(** The BLEU part of the third critical section of [update]. *)
Definition bleu_part (p : string) (l : list string) : M unit :=
  if nltkbleu_available then
    for_each (seq 1 4) (λ i,
      b ← lift (_bleu p l i);
      iadd_opt ("bleu-" +:+ str i) b);;
    iadd_num "bleu_cnt" 1
  else ret tt.
End further_definitions.

(** ** More on the scorer functions *)

Section counter_more.
Context {K : Type} `{Countable K}.
Implicit Types (a b t : gmap K Z).

Lemma counter_of_from_total (l : list K) t :
  counter_total (foldl (λ c k, <[k := (counter_get c k + 1)%Z]> c) t l)
  = (counter_total t + Z.of_nat (length l))%Z.
Proof.
  revert t. induction l as [| x l IH]; intros t; [cbn [foldl length]; lia |].
  cbn [foldl length]. rewrite IH. unfold counter_get.
  destruct (t !! x) as [n |] eqn:E; cbn [default from_option]; unfold id.
  - rewrite (counter_total_insert_Some t x _ n E). lia.
  - rewrite (counter_total_insert t x _ E). lia.
Qed.

(** [sum(Counter(l).values())] is [len(l)]. *)
Lemma counter_of_total (l : list K) :
  counter_total (counter_of l) = Z.of_nat (length l).
Proof. unfold counter_of. rewrite counter_of_from_total, counter_total_empty. lia. Qed.

Lemma counter_total_nonneg_values t :
  (∀ k w, t !! k = Some w → (0 ≤ w)%Z) → (0 ≤ counter_total t)%Z.
Proof.
  induction t as [| k w t Hk IH] using map_ind; intros Hpos.
  - unfold counter_total. by rewrite map_fold_empty.
  - rewrite counter_total_insert by done.
    pose proof (Hpos k w (lookup_insert_eq _ _ _)).
    assert (0 ≤ counter_total t)%Z; [| lia].
    apply IH. intros k' w' E. apply (Hpos k' w').
    rewrite lookup_insert_ne; [done |]. intros ->. congruence.
Qed.

Lemma counter_total_le t1 t2 :
  (∀ k v, t1 !! k = Some v → ∃ w, t2 !! k = Some w ∧ (v ≤ w)%Z) →
  (∀ k w, t2 !! k = Some w → (0 ≤ w)%Z) →
  (counter_total t1 ≤ counter_total t2)%Z.
Proof.
  revert t2. induction t1 as [| k v t1 Hk IH] using map_ind; intros t2 Hsub Hpos.
  - unfold counter_total at 1. rewrite map_fold_empty.
    by apply counter_total_nonneg_values.
  - destruct (Hsub k v (lookup_insert_eq _ _ _)) as (w & Hw & Hvw).
    rewrite counter_total_insert by done.
    rewrite (counter_total_delete t2 k w Hw).
    assert (counter_total t1 ≤ counter_total (delete k t2))%Z; [| lia].
    apply IH.
    + intros k' v' E. assert (k ≠ k') by (intros ->; congruence).
      destruct (Hsub k' v') as (w' & Hw' & Hle); [by rewrite lookup_insert_ne |].
      exists w'. by rewrite lookup_delete_ne.
    + intros k' w' E. apply lookup_delete_Some in E as [_ E]. by apply (Hpos k' w').
Qed.

Lemma counter_and_lookup a b k v :
  counter_and a b !! k = Some v →
  ∃ x y, a !! k = Some x ∧ b !! k = Some y ∧ v = Z.min x y ∧ (0 < v)%Z.
Proof.
  unfold counter_and, keep_positive. intros Hv.
  apply map_lookup_filter_Some in Hv as [Hv Hpos]. cbn in Hpos.
  apply lookup_intersection_with_Some in Hv as (x & y & Hx & Hy & [= <-]).
  by exists x, y.
Qed.

Lemma counter_and_comm a b : counter_and a b = counter_and b a.
Proof.
  unfold counter_and. f_equal. apply intersection_with_comm.
  intros k x y _ _. by rewrite Z.min_comm.
Qed.

Lemma counter_and_positive a b : positive_counts (counter_and a b).
Proof. apply keep_positive_positive. Qed.

(** The common part of two [Counter]s has no more occurrences than the first
    of them. *)
Lemma counter_and_total_l a b :
  positive_counts a → (counter_total (counter_and a b) ≤ counter_total a)%Z.
Proof.
  intros Ha. apply counter_total_le.
  - intros k v Hv. apply counter_and_lookup in Hv as (x & y & Hx & Hy & -> & _).
    exists x. split; [done | lia].
  - intros k w Hw. specialize (Ha k w Hw). cbn in Ha. lia.
Qed.

Lemma counter_and_total_r a b :
  positive_counts b → (counter_total (counter_and a b) ≤ counter_total b)%Z.
Proof. intros Hb. rewrite counter_and_comm. by apply counter_and_total_l. Qed.

Lemma counter_and_self a : positive_counts a → counter_and a a = a.
Proof.
  intros Ha. unfold counter_and.
  assert (intersection_with (λ x y : Z, Some (x `min` y)%Z) a a = a) as ->.
  { apply map_eq. intros k. rewrite lookup_intersection_with.
    destruct (a !! k) as [x |]; cbn; [| done]. by rewrite Z.min_id. }
  by apply keep_positive_id.
Qed.

Lemma counter_total_nonneg t : positive_counts t → (0 ≤ counter_total t)%Z.
Proof. intros Ht. pose proof (size_le_total t Ht). lia. Qed.

(** A [Counter] with positive counts and no occurrence is empty. *)
Lemma counter_total_zero t : positive_counts t → counter_total t = 0%Z → t = ∅.
Proof.
  intros Ht H0. pose proof (size_le_total t Ht) as Hs.
  apply map_size_empty_iff. lia.
Qed.
End counter_more.

Lemma num_same_bounds pred gold :
  (0 ≤ num_same pred gold)%Z
  ∧ (num_same pred gold ≤ Z.of_nat (length pred))%Z
  ∧ (num_same pred gold ≤ Z.of_nat (length gold))%Z.
Proof.
  unfold num_same. split; [| split].
  - apply counter_total_nonneg, counter_and_positive.
  - rewrite <- (counter_of_total pred). apply counter_and_total_r, counter_of_positive.
  - rewrite <- (counter_of_total gold). apply counter_and_total_l, counter_of_positive.
Qed.

Lemma num_same_comm pred gold : num_same pred gold = num_same gold pred.
Proof. unfold num_same. by rewrite counter_and_comm. Qed.

Lemma num_same_self l : num_same l l = Z.of_nat (length l).
Proof.
  unfold num_same. rewrite counter_and_self by apply counter_of_positive.
  apply counter_of_total.
Qed.

Lemma prf_unfold pred gold :
  _prec_recall_f1_score pred gold =
    if decide (num_same pred gold = 0%Z) then (0, 0, 0)%Q
    else
      let precision := (1 * inject_Z (num_same pred gold)
                        / inject_Z (Z.of_nat (length pred)))%Q in
      let recall := (1 * inject_Z (num_same pred gold)
                     / inject_Z (Z.of_nat (length gold)))%Q in
      (precision, recall, ((2 * precision * recall) / (precision + recall))%Q).
Proof. reflexivity. Qed.

Lemma ratio_unit (n d : Z) :
  (0 < n)%Z → (n ≤ d)%Z →
  (0 < 1 * inject_Z n / inject_Z d)%Q ∧ (1 * inject_Z n / inject_Z d <= 1)%Q.
Proof.
  intros Hn Hd.
  assert (0 < inject_Z n)%Q by (by rewrite <- (Zlt_Qlt 0)).
  assert (inject_Z n <= inject_Z d)%Q by (by rewrite <- Zle_Qle).
  split.
  - apply Qlt_shift_div_l; lra.
  - apply Qle_shift_div_r; lra.
Qed.


Lemma harmonic_comm (p r : Q) : (2 * p * r / (p + r) == 2 * r * p / (r + p))%Q.
Proof.
  assert (p + r == r + p)%Q as -> by ring.
  assert (2 * p * r == 2 * r * p)%Q as -> by ring. reflexivity.
Qed.

Lemma foldl_max2_elem x l : foldl max2 x l ∈ x :: l.
Proof.
  revert x. induction l as [| y l IH]; intros x; [left |].
  cbn [foldl]. specialize (IH (max2 x y)). unfold max2 in *.
  destruct (Qlt_le_dec x y).
  - by right.
  - apply elem_of_cons in IH as [-> | IH]; [left | do 2 right; exact IH].
Qed.

Lemma foldl_max2_ge x l : Forall (λ y, (y <= foldl max2 x l)%Q) (x :: l).
Proof.
  revert x. induction l as [| y l IH]; intros x.
  - repeat constructor. apply Qle_refl.
  - cbn [foldl]. specialize (IH (max2 x y)).
    apply Forall_cons in IH as [Hm IH].
    assert ((x <= max2 x y)%Q ∧ (y <= max2 x y)%Q) as [Hx Hy].
    { unfold max2. destruct (Qlt_le_dec x y); split; lra. }
    constructor; [lra |]. constructor; [lra | done].
Qed.

Lemma prf_f1_range pred gold :
  (0 <= (_prec_recall_f1_score pred gold).2)%Q ∧ ((_prec_recall_f1_score pred gold).2 <= 1)%Q.
Proof.
  rewrite prf_unfold. destruct (num_same_bounds pred gold) as (H0 & Hp & Hg).
  destruct (decide (num_same pred gold = 0%Z)) as [E | Hne]; [cbn; lra |].
  cbv zeta. cbn [snd].
  destruct (ratio_unit (num_same pred gold) (Z.of_nat (length pred))) as [Hp0 Hp1]; [lia .. |].
  destruct (ratio_unit (num_same pred gold) (Z.of_nat (length gold))) as [Hr0 Hr1]; [lia .. |].
  set (p := (1 * inject_Z (num_same pred gold) / inject_Z (Z.of_nat (length pred)))%Q) in *.
  set (r := (1 * inject_Z (num_same pred gold) / inject_Z (Z.of_nat (length gold)))%Q) in *.
  split.
  - apply Qle_shift_div_l; [lra | nra].
  - apply Qle_shift_div_r; [lra | nra].
Qed.

Lemma prf_no_pred gold : _prec_recall_f1_score [] gold = (0, 0, 0)%Q.
Proof.
  rewrite prf_unfold. destruct (num_same_bounds [] gold) as (? & ? & ?).
  cbn [length] in *. rewrite decide_True; [done | lia].
Qed.

Lemma prf_same_f1 x l : ((_prec_recall_f1_score (x :: l) (x :: l)).2 == 1)%Q.
Proof.
  rewrite prf_unfold, num_same_self. rewrite decide_False by (cbn [length]; lia).
  cbv zeta. cbn [snd]. set (n := inject_Z (Z.of_nat (length (x :: l)))).
  assert (0 < n)%Q as Hn by (unfold n; rewrite <- (Zlt_Qlt 0); cbn [length]; lia).
  field. lra.
Qed.

(** ** Properties of the scorer functions *)


(** X2. Where [_prec_recall_f1_score] divides, the divisor is not zero: with a
    common token, neither list is empty and precision plus recall is
    positive; without one, and so for an empty list, the result is
    [(0, 0, 0)]. *)
Theorem prec_recall_f1_divisors pred gold :
  ((num_same pred gold = 0%Z ∧ _prec_recall_f1_score pred gold = (0, 0, 0)%Q)
   ∨ ((0 < length pred)%nat ∧ (0 < length gold)%nat
      ∧ (0 < (_prec_recall_f1_score pred gold).1.1
             + (_prec_recall_f1_score pred gold).1.2)%Q))
  ∧ _prec_recall_f1_score [] gold = (0, 0, 0)%Q
  ∧ _prec_recall_f1_score pred [] = (0, 0, 0)%Q.
Proof.
  destruct (num_same_bounds pred gold) as (H0 & Hp & Hg).
  split; [| split].
  - destruct (decide (num_same pred gold = 0%Z)) as [E | Hne].
    { left. split; [done |]. rewrite prf_unfold. by rewrite decide_True. }
    right. rewrite prf_unfold, decide_False by done. cbv zeta. cbn [fst snd].
    destruct (ratio_unit (num_same pred gold) (Z.of_nat (length pred))); [lia .. |].
    destruct (ratio_unit (num_same pred gold) (Z.of_nat (length gold))); [lia .. |].
    split; [lia |]. split; [lia | lra].
  - rewrite prf_unfold. destruct (num_same_bounds [] gold) as (? & ? & ?).
    cbn [length] in *. rewrite decide_True; [done | lia].
  - rewrite prf_unfold. destruct (num_same_bounds pred []) as (? & ? & ?).
    cbn [length] in *. rewrite decide_True; [done | lia].
Qed.

(** X3. Exchanging the prediction and the gold items exchanges precision and
    recall and keeps the value of F1. *)
Theorem prec_recall_f1_swap pred gold :
  (_prec_recall_f1_score pred gold).1.1 = (_prec_recall_f1_score gold pred).1.2
  ∧ (_prec_recall_f1_score pred gold).1.2 = (_prec_recall_f1_score gold pred).1.1
  ∧ ((_prec_recall_f1_score pred gold).2 == (_prec_recall_f1_score gold pred).2)%Q.
Proof.
  rewrite !prf_unfold, (num_same_comm gold pred).
  destruct (decide (num_same pred gold = 0%Z)); [done |].
  cbv zeta. cbn [fst snd]. split; [done |]. split; [done |]. apply harmonic_comm.
Qed.

(** X4. A list of items that is not empty scores 1 against itself. *)
Theorem prec_recall_f1_same x l :
  let '(p, r, f1) := _prec_recall_f1_score (x :: l) (x :: l) in
  (p == 1)%Q ∧ (r == 1)%Q ∧ (f1 == 1)%Q.
Proof.
  rewrite prf_unfold, num_same_self. rewrite decide_False by (cbn [length]; lia).
  cbv zeta. set (n := inject_Z (Z.of_nat (length (x :: l)))).
  assert (0 < n)%Q as Hn by (unfold n; rewrite <- (Zlt_Qlt 0); cbn [length]; lia).
  assert (1 * n / n == 1)%Q as E by (field; lra).
  split; [done |]. split; [done |]. rewrite !E. reflexivity.
Qed.

(** X6. With at least one answer, [_f1_score] returns the greatest of the F1
    scores of the guess against the answers: it is one of them, none is
    greater, and it lies between 0 and 1. *)
Theorem f1_score_is_max guess a answers :
  let scores :=
    map (λ a', (_prec_recall_f1_score (split (normalize_answer guess))
                  (split (normalize_answer a'))).2) (a :: answers) in
  ∃ m, _f1_score (Some guess) (Some (a :: answers)) = Ok m
       ∧ m ∈ scores
       ∧ Forall (λ x, (x <= m)%Q) scores
       ∧ (0 <= m)%Q ∧ (m <= 1)%Q.
Proof.
  cbv zeta. unfold _f1_score. rewrite map_map. cbn [map max_of].
  set (f := λ a', (_prec_recall_f1_score (split (normalize_answer guess))
                     (split (normalize_answer a'))).2).
  change ((_prec_recall_f1_score (split (normalize_answer guess))
             (split (normalize_answer a))).2) with (f a).
  eexists. split; [reflexivity |].
  pose proof (foldl_max2_elem (f a) (map f answers)) as Hin.
  split; [exact Hin |]. split; [apply foldl_max2_ge |].
  change (f a :: map f answers) with (map f (a :: answers)) in Hin.
  apply list_elem_of_fmap in Hin as (a' & -> & _). unfold f.
  apply prf_f1_range.
Qed.

Lemma f1_no_tokens answers :
  Forall (λ x, x = 0%Q)
    (map (λ a, (_prec_recall_f1_score [] (split (normalize_answer a))).2) answers).
Proof.
  induction answers as [| a l IH]; constructor; [| done]. by rewrite prf_no_pred.
Qed.

Lemma foldl_max2_const x l : Forall (λ y, y = x) l → foldl max2 x l = x.
Proof.
  induction 1 as [| y l -> _ IH]; [done |]. cbn [foldl].
  assert (max2 x x = x) as -> by (unfold max2; by destruct (Qlt_le_dec x x)). done.
Qed.

(** X7. When the guess matches an answer exactly, [_f1_score] is 1, unless the
    guess normalises to no token at all: then it is 0. *)
Theorem exact_match_f1 guess answers :
  _exact_match (Some guess) (Some answers) = true →
  ∃ m, _f1_score (Some guess) (Some answers) = Ok m
       ∧ (m == if decide (split (normalize_answer guess) = []) then 0 else 1)%Q.
Proof.
  unfold _exact_match. intros Hex. apply existsb_exists in Hex as (a & Hin & Ha).
  apply bool_decide_eq_true in Ha. apply list_elem_of_In in Hin.
  destruct answers as [| a0 answers]; [by apply elem_of_nil in Hin |].
  unfold _f1_score. rewrite map_map. cbn [map max_of].
  set (f := λ a', (_prec_recall_f1_score (split (normalize_answer guess))
                     (split (normalize_answer a'))).2).
  change ((_prec_recall_f1_score (split (normalize_answer guess))
             (split (normalize_answer a0))).2) with (f a0).
  eexists. split; [reflexivity |].
  pose proof (foldl_max2_elem (f a0) (map f answers)) as Hm.
  pose proof (foldl_max2_ge (f a0) (map f answers)) as Hmax.
  change (f a0 :: map f answers) with (map f (a0 :: answers)) in Hm, Hmax.
  set (m := foldl max2 (f a0) (map f answers)) in *.
  destruct (decide (split (normalize_answer guess) = [])) as [E | Hne].
  - unfold f in Hm. rewrite E in Hm. pose proof (f1_no_tokens (a0 :: answers)) as Hz.
    rewrite Forall_forall in Hz. by rewrite (Hz m Hm).
  - apply Qle_antisym.
    + apply list_elem_of_fmap in Hm as (a' & -> & _). apply prf_f1_range.
    + rewrite Forall_forall in Hmax.
      assert (f a <= m)%Q as Hle by (apply Hmax, list_elem_of_fmap; by exists a).
      unfold f in Hle. rewrite <- Ha in Hle.
      destruct (split (normalize_answer guess)) as [| x l]; [done |].
      by rewrite <- (prf_same_f1 x l).
Qed.

(** X7, witness: the guess [Hello.] against the answers [hi] and [hello]. *)
Lemma exact_match_f1_witness :
  _exact_match (Some "Hello.") (Some ["hi"; "hello"]) = true
  ∧ ∃ m, _f1_score (Some "Hello.") (Some ["hi"; "hello"]) = Ok m
         ∧ (m == if decide (split (normalize_answer "Hello.") = []) then 0 else 1)%Q.
Proof.
  split; [reflexivity |].
  apply (exact_match_f1 "Hello." ["hi"; "hello"]). reflexivity.
Defined.

Lemma ngram_length (sequence : list string) (n : nat) :
  length (_ngram sequence n) = (length sequence + 1 - n)%nat.
Proof. unfold _ngram. by rewrite length_map, length_seq. Qed.

Lemma inter_distinct_total guess n :
  counter_total (_inter_distinct guess n)
  = Z.of_nat (length (split (normalize_answer guess)) + 1 - n).
Proof. unfold _inter_distinct. by rewrite counter_of_total, ngram_length. Qed.

(** X8. [_ngram(seq, n)] yields [len(seq) - n + 1] tuples, none when that is
    negative; each of them has [n] items, and the tuple at position [i]
    holds the items of the sequence from position [i] on. *)
Theorem ngram_windows (sequence : list string) (n : nat) :
  length (_ngram sequence n) = (length sequence + 1 - n)%nat
  ∧ Forall (λ w, length w = n) (_ngram sequence n)
  ∧ ∀ i j w, _ngram sequence n !! i = Some w → (j < n)%nat →
             w !! j = sequence !! (i + j)%nat.
Proof.
  unfold _ngram. split; [by rewrite length_map, length_seq |]. split.
  - apply Forall_fmap, Forall_forall. intros i Hi. apply elem_of_seq in Hi.
    cbn. rewrite length_take, length_drop. lia.
  - intros i j w Hw Hj. rewrite list_lookup_fmap in Hw.
    destruct (seq 0 (length sequence + 1 - n) !! i) as [i' |] eqn:Ei; [| done].
    apply lookup_seq in Ei as [-> _]. cbn in Hw. injection Hw as <-.
    by rewrite lookup_take_lt, lookup_drop.
Qed.

(** X9. The [Counter] of [_inter_distinct] counts every n-gram of the
    normalised guess once: its counts are positive and add up to the number
    of n-grams, so that it has no more keys than that. *)
Theorem inter_distinct_counts guess n :
  let tokens := split (normalize_answer guess) in
  let c := _inter_distinct guess n in
  positive_counts c
  ∧ counter_total c = Z.of_nat (length tokens + 1 - n)
  ∧ (Z.of_nat (counter_len c) ≤ counter_total c)%Z.
Proof.
  cbv zeta.
  pose proof (counter_of_positive (_ngram (split (normalize_answer guess)) n)) as Hpos.
  fold (_inter_distinct guess n) in Hpos.
  split; [done |]. split; [apply inter_distinct_total |]. by apply size_le_total.
Qed.

(** X10. [_intra_distinct] is [1e-12 / 1e-5] for a guess with fewer than [n]
    tokens, where there is no n-gram, and lies in (0, 1] otherwise. *)
Theorem intra_distinct_bounds guess n :
  if decide (length (split (normalize_answer guess)) + 1 - n = 0)%nat
  then _intra_distinct guess n = (eps12 / eps5)%Q
  else (0 < _intra_distinct guess n)%Q ∧ (_intra_distinct guess n <= 1)%Q.
Proof.
  change (_intra_distinct guess n) with (inter_ratio (_inter_distinct guess n)).
  pose proof (counter_of_positive (_ngram (split (normalize_answer guess)) n)) as Hpos.
  fold (_inter_distinct guess n) in Hpos.
  pose proof (inter_distinct_total guess n) as Htot.
  destruct (decide (length (split (normalize_answer guess)) + 1 - n = 0)%nat) as [E | Hne].
  - rewrite E in Htot. rewrite (counter_total_zero _ Hpos Htot). reflexivity.
  - assert (counter_len (_inter_distinct guess n) ≠ 0%nat) as Hsz.
    { unfold counter_len. intros Hz. apply map_size_empty_iff in Hz.
      rewrite Hz in Htot. unfold counter_total in Htot. rewrite map_fold_empty in Htot. lia. }
    by destruct (inter_ratio_bounds _ Hpos Hsz) as (_ & ? & ?).
Qed.

(** *** The order of the tokens *)

Section counter_order.
Context {K : Type} `{Countable K}.

Lemma counter_step_comm (t : gmap K Z) x y :
  <[x := (counter_get (<[y := (counter_get t y + 1)%Z]> t) x + 1)%Z]>
    (<[y := (counter_get t y + 1)%Z]> t)
  = <[y := (counter_get (<[x := (counter_get t x + 1)%Z]> t) y + 1)%Z]>
      (<[x := (counter_get t x + 1)%Z]> t).
Proof.
  destruct (decide (x = y)) as [-> | Hne]; [done |].
  unfold counter_get. rewrite !lookup_insert_ne by done.
  by apply insert_insert_ne.
Qed.

Lemma counter_of_from_perm (l l' : list K) (t : gmap K Z) :
  l ≡ₚ l' →
  foldl (λ c k, <[k := (counter_get c k + 1)%Z]> c) t l
  = foldl (λ c k, <[k := (counter_get c k + 1)%Z]> c) t l'.
Proof.
  intros Hp. revert t. induction Hp as [| x l l' _ IH | x y l | l1 l2 l3 _ IH1 _ IH2];
    intros t; cbn [foldl].
  - done.
  - apply IH.
  - by rewrite counter_step_comm.
  - by rewrite IH1, IH2.
Qed.

(** [Counter(l)] does not depend on the order of [l]. *)
Lemma counter_of_perm (l l' : list K) : l ≡ₚ l' → counter_of l = counter_of l'.
Proof. apply counter_of_from_perm. Qed.
End counter_order.

(** X5. Precision, recall and F1 take the prediction and the gold items as
    bags: the order of the items of either list does not matter. *)
Theorem prec_recall_f1_order pred pred' gold gold' :
  pred ≡ₚ pred' → gold ≡ₚ gold' →
  _prec_recall_f1_score pred gold = _prec_recall_f1_score pred' gold'.
Proof.
  intros Hp Hg. unfold _prec_recall_f1_score.
  rewrite (counter_of_perm _ _ Hp), (counter_of_perm _ _ Hg).
  by rewrite (Permutation_length Hp), (Permutation_length Hg).
Qed.

(** X5, witness: the same words in another order. *)
Lemma prec_recall_f1_order_witness :
  ["a"; "b"; "c"] ≡ₚ ["c"; "a"; "b"] ∧ ["x"; "a"] ≡ₚ ["a"; "x"]
  ∧ _prec_recall_f1_score ["a"; "b"; "c"] ["x"; "a"]
    = _prec_recall_f1_score ["c"; "a"; "b"] ["a"; "x"].
Proof.
  assert (["a"; "b"; "c"] ≡ₚ ["c"; "a"; "b"]) as H1.
  { symmetry. apply (Permutation_cons_append ["a"; "b"] "c"). }
  assert (["x"; "a"] ≡ₚ ["a"; "x"]) as H2 by apply perm_swap.
  split; [exact H1 |]. split; [exact H2 |].
  exact (prec_recall_f1_order _ _ _ _ H1 H2).
Defined.

(** ** More on the accumulator *)

(** *** The example counter *)

Section example_counter.
Context `{Externals}.

Lemma update_cnt o l s c :
  avoids ["cnt"] o → metrics s !! "cnt" = Some (VNum c) →
  metrics (run (update o l) s) !! "cnt" = Some (VNum (c + 1)%Q).
Proof.
  intros Hav Ec. unfold run. rewrite (update_after_cnt _ _ _ _ Ec).
  match goal with
  | |- metrics (?m ?s0).1 !! _ = _ => assert (keeps "cnt" m) as Hk
  end.
  { apply keeps_bind; [apply keeps_update_text; right; by_compute | intros c0].
    apply keeps_bind; [apply keeps_update_ranking_metrics; right; by_compute | intros _].
    apply keeps_bind; [by apply keeps_update_user_metrics | intros _; apply keeps_ret]. }
  rewrite Hk. cbn. by rewrite lookup_insert_eq.
Qed.

(** X13. The entry [cnt] is the number of [update] calls since the last
    [clear], or since the construction: a call counts whether it returned or
    raised, as long as no user-reported metric writes [cnt]. *)
Theorem cnt_counts_calls opt cs :
  Forall (call_avoids ["cnt"]) cs →
  metrics (do_calls (__init__ opt) cs) !! "cnt" = Some (VNum (foldl count_call 0%Q cs)).
Proof.
  assert (metrics (__init__ opt) !! "cnt" = Some (VNum 0)) as H0
    by (apply init_num; by_compute).
  revert H0. generalize (__init__ opt) as s. generalize 0%Q as n.
  induction cs as [| [o l |] cs IH]; intros n s Hn Hav; [done | |].
  - apply Forall_cons in Hav as [Ho Hav]. cbn [do_calls foldl do_call count_call].
    apply (IH (n + 1)%Q); [| done]. by apply update_cnt.
  - apply Forall_cons in Hav as [_ Hav]. cbn [do_calls foldl do_call count_call].
    apply (IH 0%Q); [| done]. apply clear_sets_cnt.
Qed.

(** X14. An [update] with a prediction and no label raises after it has counted
    the example: [cnt] and [correct_cnt] have advanced, the flag is set, and
    every other entry of the table is as before. *)
Theorem update_failed_example_counted s o p c x y :
  text o = Some p →
  metrics s !! "cnt" = Some (VNum c) →
  metrics s !! "correct" = Some (VNum x) →
  metrics s !! "correct_cnt" = Some (VNum y) →
  let s' := run (update o []) s in
  outcome (update o []) s = Raise ValueError
  ∧ metrics s' !! "cnt" = Some (VNum (c + 1)%Q)
  ∧ metrics s' !! "correct" = Some (VNum (x + 0)%Q)
  ∧ metrics s' !! "correct_cnt" = Some (VNum (y + 1)%Q)
  ∧ print_prediction_metrics (flags s') = true
  ∧ (∀ k, k ∉ ["cnt"; "correct"; "correct_cnt"] → metrics s' !! k = metrics s !! k)
  ∧ metrics_list s' = metrics_list s.
Proof.
  intros Et Ec Ex Ey. cbv zeta.
  assert (update o [] s =
          ({| metrics := <["correct_cnt" := VNum (y + 1)%Q]>
                           (<["correct" := VNum (x + 0)%Q]>
                              (<["cnt" := VNum (c + 1)%Q]> (metrics s)));
              metrics_list := metrics_list s;
              flags := {| has_text_cands := has_text_cands (flags s);
                          print_prediction_metrics := true |};
              shared := shared s |}, Raise ValueError)) as E.
  { unfold update. rewrite bind_unfold, (fold_cnt_run _ _ Ec).
    rewrite bind_unfold. unfold update_text. rewrite Et.
    rewrite bind_unfold.
    erewrite fold_correct_run; cycle 1.
    { cbn [set_metrics metrics]. rewrite lookup_insert_ne by done. exact Ex. }
    { cbn [set_metrics metrics]. rewrite lookup_insert_ne by done. exact Ey. }
    rewrite bind_unfold, f1_score_no_labels. reflexivity. }
  unfold outcome, run. rewrite E. cbn [fst snd metrics flags metrics_list print_prediction_metrics].
  split; [done |].
  split; [by rewrite !lookup_insert_ne, lookup_insert_eq by done |].
  split; [by rewrite lookup_insert_ne, lookup_insert_eq by done |].
  split; [by rewrite lookup_insert_eq |].
  split; [done |]. split; [| done].
  intros k Hk. rewrite !lookup_insert_ne; [done | ..]; intros <-; apply Hk; by_compute.
Qed.
End example_counter.

(** X13, witness: two calls that raise, a [clear], and one call that returns. *)
Lemma cnt_counts_calls_witness :
  let cs := [Update (obs_text "a") []; Update (obs_text "b") []; Clear;
             Update (obs_text "c") ["c"]] in
  Forall (call_avoids ["cnt"]) cs
  ∧ metrics (do_calls (H := plain_install) (__init__ (H := plain_install) ∅) cs) !! "cnt"
    = Some (VNum (foldl count_call 0%Q cs)).
Proof.
  cbv zeta. split; [repeat constructor |].
  apply (cnt_counts_calls (H := plain_install) ∅). repeat constructor.
Defined.

(** X14, witness: a prediction with no label, on a fresh accumulator. *)
Lemma update_failed_example_counted_witness :
  let s' := run (update (H := plain_install) (obs_text "a") []) fresh in
  outcome (update (H := plain_install) (obs_text "a") []) fresh = Raise ValueError
  ∧ metrics s' !! "cnt" = Some (VNum (0 + 1)%Q)
  ∧ metrics s' !! "correct" = Some (VNum (0 + 0)%Q)
  ∧ metrics s' !! "correct_cnt" = Some (VNum (0 + 1)%Q)
  ∧ print_prediction_metrics (flags s') = true
  ∧ (∀ k, k ∉ ["cnt"; "correct"; "correct_cnt"] → metrics s' !! k = metrics fresh !! k)
  ∧ metrics_list s' = metrics_list fresh.
Proof.
  apply (update_failed_example_counted (H := plain_install) fresh (obs_text "a") "a");
    reflexivity.
Defined.

(** *** The flags *)

Section flags_kept.
Context `{Externals}.

Lemma prints_setitem k v : preserves prints_predictions (setitem k v).
Proof. by intros s. Qed.

Lemma prints_iadd_num k x : preserves prints_predictions (iadd_num k x).
Proof. apply preserves_iadd_num. by intros s y. Qed.

Lemma prints_iadd_opt k x : preserves prints_predictions (iadd_opt k x).
Proof. apply preserves_iadd_opt. by intros s y z. Qed.

Lemma prints_iadd_counter k c : preserves prints_predictions (iadd_counter k c).
Proof. apply preserves_iadd_counter. by intros s d. Qed.

Lemma prints_set_has_text_cands : preserves prints_predictions set_has_text_cands.
Proof. by intros s. Qed.

Lemma prints_set_print : preserves prints_predictions set_print_prediction_metrics.
Proof. by intros s. Qed.

Lemma prints_append k : preserves prints_predictions (append_metrics_list k).
Proof. by intros s. Qed.

Ltac prints_tac :=
  unfold with_lock; simpl for_each;
  repeat first
    [ apply prints_setitem | apply prints_iadd_num | apply prints_iadd_opt
    | apply prints_iadd_counter | apply prints_set_has_text_cands
    | apply prints_set_print | apply prints_append | preserves_step ].

Lemma prints_update o l : preserves prints_predictions (update o l).
Proof.
  unfold update, fold_cnt.
  apply preserves_bind; [prints_tac | intros _].
  apply preserves_bind; [| intros c].
  { unfold update_text, fold_correct, fold_scores. destruct (text o); prints_tac. }
  apply preserves_bind; [| intros _].
  { unfold update_ranking_metrics, fold_ranking. destruct (text_candidates o); prints_tac. }
  apply preserves_bind; [| intros _; apply preserves_ret].
  unfold update_user_metrics. destruct (obs_metrics o); [| apply preserves_ret].
  apply preserves_for_each. intros [k v] _. unfold user_metric. prints_tac.
Qed.

Lemma prints_clear : preserves prints_predictions clear.
Proof.
  unfold clear, with_lock.
  apply preserves_bind; [apply prints_setitem | intros _].
  apply preserves_bind; [apply preserves_get_metrics_list | intros l].
  apply preserves_bind; [| intros _; prints_tac].
  apply preserves_for_each. intros k _. unfold clear_key. prints_tac.
Qed.

Lemma update_text_sets_flag o l p s s' r :
  text o = Some p → update o l s = (s', Ok r) → prints_predictions s'.
Proof.
  intros Et E. unfold update in E.
  apply bind_ok in E as (s1 & [] & E1 & E).
  apply bind_ok in E as (s2 & c & E2 & E).
  assert (prints_predictions s2) as H2.
  { unfold update_text in E2. rewrite Et in E2.
    apply bind_ok in E2 as (sa & [] & Ea & E2).
    assert (prints_predictions sa) as Ha.
    { unfold fold_correct, with_lock in Ea.
      apply bind_ok in Ea as (sb & [] & Eb & Ea). injection Eb as <-.
      match type of Ea with
      | ?m ?s0 = _ =>
          assert (preserves prints_predictions m) as Hp by prints_tac;
          specialize (Hp s0 eq_refl); by rewrite Ea in Hp
      end. }
    assert (preserves prints_predictions
              (f1 ← lift (_f1_score (Some p) (Some l));
               fold_scores p l f1;;
               ret (if _exact_match (Some p) (Some l) then 1%Q else 0%Q))) as Hp
      by (unfold fold_scores; prints_tac).
    specialize (Hp sa Ha). by rewrite E2 in Hp. }
  match type of E with
  | ?m s2 = _ => assert (preserves prints_predictions m) as Hp
  end.
  { apply preserves_bind; [| intros _].
    { unfold update_ranking_metrics, fold_ranking. destruct (text_candidates o); prints_tac. }
    apply preserves_bind; [| intros _; apply preserves_ret].
    unfold update_user_metrics. destruct (obs_metrics o); [| apply preserves_ret].
    apply preserves_for_each. intros [k v] _. unfold user_metric. prints_tac. }
  specialize (Hp s2 H2). by rewrite E in Hp.
Qed.

(** With the flag set and a positive example counter, a report has the
    entries [accuracy] and [f1]. *)
Lemma report_flagged s m total :
  report s = Ok m → metrics s !! "cnt" = Some (VNum total) → (0 < total)%Q →
  prints_predictions s → is_Some (m !! "accuracy") ∧ is_Some (m !! "f1").
Proof.
  intros E Ec Hpos Hf. unfold report in E.
  assert (num_at s "cnt" = Ok total) as En by (unfold num_at; by rewrite Ec).
  rewrite En in E. apply res_bind_ok in E as (t & [= <-] & E).
  rewrite (proj2 (Qgtb_true total) Hpos) in E.
  apply res_bind_ok in E as (ma & Ea & E).
  apply res_bind_ok in E as (mb & Eb & E).
  unfold prints_predictions in Hf. rewrite Hf in Ea.
  assert (is_Some (ma !! "accuracy") ∧ is_Some (ma !! "f1")) as [Ha1 Ha2].
  { destruct (num_at s "correct"); [| done]. destruct (num_at s "correct_cnt"); [| done].
    destruct (num_at s "f1"); [| done]. destruct (num_at s "f1_cnt"); [| done].
    cbn in Ea. injection Ea as <-. split.
    - rewrite lookup_insert_ne, lookup_insert_eq by done. by eexists.
    - rewrite lookup_insert_eq. by eexists. }
  assert (mb !! "accuracy" = ma !! "accuracy" ∧ mb !! "f1" = ma !! "f1") as [Hb1 Hb2].
  { destruct (has_text_cands (flags s)); [| by injection Eb as <-].
    split; apply (report_hits_lookup _ _ _ _ _ Eb); by_compute. }
  rewrite <- Hb1 in Ha1. rewrite <- Hb2 in Ha2.
  rewrite (report_keys_lookup _ _ _ _ "accuracy" E), (report_keys_lookup _ _ _ _ "f1" E).
  destruct Ha1 as [a Ha], Ha2 as [f Hf2]. rewrite Ha, Hf2.
  split.
  - destruct (decide ("accuracy" ∈ metrics_list s)); [| by eexists].
    destruct (key_entry s "accuracy"); by eexists.
  - destruct (decide ("f1" ∈ metrics_list s)); [| by eexists].
    destruct (key_entry s "f1"); by eexists.
Qed.

(** X15. No call resets the flag [print_prediction_metrics], [clear] included:
    once an [update] with a prediction has returned, every later report of a
    positive number of examples has the entries [accuracy] and [f1], whatever
    calls came in between. *)
Theorem prediction_flag_persists s o l p s1 r cs m total :
  text o = Some p → update o l s = (s1, Ok r) →
  report (do_calls s1 cs) = Ok m →
  metrics (do_calls s1 cs) !! "cnt" = Some (VNum total) → (0 < total)%Q →
  print_prediction_metrics (flags (do_calls s1 cs)) = true
  ∧ is_Some (m !! "accuracy") ∧ is_Some (m !! "f1").
Proof.
  intros Et E Er Ec Hpos.
  assert (prints_predictions (do_calls s1 cs)) as Hf.
  { apply do_calls_ind; [apply prints_update | apply prints_clear |].
    by apply (update_text_sets_flag o l p s s1 r). }
  split; [exact Hf |]. by apply (report_flagged (do_calls s1 cs) m total).
Qed.

(** X16. No report has an entry [correct], and [f1] is reported only when the
    flag [print_prediction_metrics] is set: the loop over the registered
    keys writes neither of the two. *)
Theorem report_skips_correct_and_f1 s m :
  report s = Ok m →
  m !! "correct" = None
  ∧ (print_prediction_metrics (flags s) = false → m !! "f1" = None).
Proof.
  intros E. pose proof E as E0. unfold report in E.
  destruct (num_at s "cnt") as [total | e] eqn:En; [| done].
  apply res_bind_ok in E as (t & [= <-] & E).
  destruct (Qgtb total 0) eqn:Eg.
  2: { injection E as <-. split; [| intros _]; by rewrite lookup_insert_ne, lookup_empty. }
  apply res_bind_ok in E as (ma & Ea & E).
  apply res_bind_ok in E as (mb & Eb & E).
  assert (key_entry s "correct" = None) as Kc.
  { unfold key_entry, report_key. cbn [startswith Ascii.eqb negb andb].
    change (startswith "inter-distinct" "correct") with false. cbn [negb].
    destruct (num_at s (cnt_key "correct")) as [c | e]; [| done]. cbn.
    rewrite andb_false_r. done. }
  assert (key_entry s "f1" = None) as Kf.
  { unfold key_entry, report_key.
    change (startswith "inter-distinct" "f1") with false. cbn [negb].
    destruct (num_at s (cnt_key "f1")) as [c | e]; [| done]. cbn.
    rewrite andb_false_r. done. }
  assert (∀ k, k ∉ report_head_keys → ma !! k = None) as Hma.
  { intros k Hk.
    destruct (print_prediction_metrics (flags s)).
    - destruct (num_at s "correct"); [| done]. destruct (num_at s "correct_cnt"); [| done].
      destruct (num_at s "f1"); [| done]. destruct (num_at s "f1_cnt"); [| done].
      cbn in Ea. injection Ea as <-.
      rewrite !lookup_insert_ne, lookup_empty; [done | ..];
        intros <-; apply Hk; by_compute.
    - injection Ea as <-.
      rewrite !lookup_insert_ne, lookup_empty; [done | ..]; intros <-; apply Hk; by_compute. }
  assert (∀ k, k ∉ map (λ n, "hits@" +:+ str n) eval_pr → mb !! k = ma !! k) as Hmb.
  { intros k Hk. destruct (has_text_cands (flags s)); [| by injection Eb as <-].
    by apply (report_hits_lookup _ _ _ _ _ Eb). }
  split.
  - rewrite (report_keys_lookup _ _ _ _ "correct" E), Kc. cbn [from_option].
    rewrite Hmb by by_compute. rewrite Hma by by_compute.
    by destruct (decide ("correct" ∈ metrics_list s)).
  - intros Hf. rewrite (report_keys_lookup _ _ _ _ "f1" E), Kf. cbn [from_option].
    rewrite Hmb by by_compute. rewrite Hf in Ea. injection Ea as <-.
    rewrite lookup_insert_ne, lookup_empty by done.
    by destruct (decide ("f1" ∈ metrics_list s)).
Qed.
End flags_kept.

(** X15, witness: a prediction, then [clear], then an example without a
    prediction: the report has an accuracy. *)
Lemma prediction_flag_persists_witness :
  let s1 := run (update (H := plain_install) (obs_text "a") ["a"]) fresh in
  let s2 := do_calls (H := plain_install) s1 [Clear; Update obs_empty []] in
  print_prediction_metrics (flags s2) = true
  ∧ is_Some (report_of s2 !! "accuracy") ∧ is_Some (report_of s2 !! "f1").
Proof.
  cbv zeta.
  apply (prediction_flag_persists (H := plain_install) fresh (obs_text "a") ["a"] "a"
           _ {[ "correct" := 1%Q ]} [Clear; Update obs_empty []] _ 1%Q).
  - reflexivity.
  - vm_compute. reflexivity.
  - vm_compute. reflexivity.
  - vm_compute. reflexivity.
  - reflexivity.
Defined.

(** X16, witness: the report after one example with a prediction. *)
Lemma report_skips_correct_and_f1_witness :
  report_hello !! "correct" = None
  ∧ (print_prediction_metrics (flags state_hello) = false → report_hello !! "f1" = None).
Proof.
  apply (report_skips_correct_and_f1 (H := plain_install) state_hello).
  vm_compute. reflexivity.
Defined.

(** *** A user-reported key with a hyphen *)

Lemma res_fold_app {A B : Type} (step : B → A → res B) b l1 l2 :
  res_fold step b (l1 ++ l2) = res_bind (res_fold step b l1) (λ b', res_fold step b' l2).
Proof.
  revert b. induction l1 as [| x l1 IH]; intros b; [done |].
  cbn [app]. rewrite !res_fold_cons. destruct (step b x) as [b' | e]; [apply IH | done].
Qed.

Lemma string_length_app (a b : string) :
  String.length (a +:+ b) = (String.length a + String.length b)%nat.
Proof.
  induction a as [| c a IH]; [done |].
  change (String c a +:+ b) with (String c (a +:+ b)).
  cbn [String.length]. by rewrite IH.
Qed.

Lemma cnt_key_not_cnt k : cnt_key k ≠ "cnt".
Proof.
  unfold cnt_key. intros E. apply (f_equal String.length) in E.
  rewrite string_length_app in E. cbn in E. lia.
Qed.

Section hyphen_key.
Context `{Externals}.

Lemma report_key_quiet s m k0 : quiet_key (metrics s) k0 → report_key s m k0 = Ok m.
Proof.
  unfold quiet_key, report_key.
  destruct (startswith "inter-distinct" k0); cbn [negb].
  - destruct (metrics s !! k0) as [[x | c] |]; [done | | done]. cbn. by intros ->.
  - unfold num_at. destruct (metrics s !! cnt_key k0) as [[x | c] |]; [| done | done].
    cbn. intros Hx.
    assert (Qgtb x 0 = false) as ->; [| done].
    unfold Qgtb. destruct (Qlt_le_dec 0 x) as [Hlt | _]; [| done].
    unfold Qlt in Hlt. rewrite Hx in Hlt. cbn in Hlt. lia.
Qed.

Lemma res_fold_quiet s m l :
  Forall (quiet_key (metrics s)) l → res_fold (report_key s) m l = Ok m.
Proof.
  induction 1 as [| k0 l0 Hk0 _ IH]; [done |].
  rewrite res_fold_cons, (report_key_quiet s m k0 Hk0). exact IH.
Qed.

Lemma init_quiet opt : Forall (quiet_key (metrics (__init__ opt))) initial_metrics_list.
Proof.
  unfold __init__, initial_metrics_list. cbn [metrics].
  destruct nltkbleu_available, rouge_available; by_compute.
Qed.

Lemma init_list opt : metrics_list (__init__ opt) = initial_metrics_list.
Proof. reflexivity. Qed.

Lemma init_flags opt :
  flags (__init__ opt) = {| has_text_cands := false; print_prediction_metrics := false |}.
Proof. reflexivity. Qed.

(** X17. On an accumulator that is not shared, a user-reported metric under a
    new key [k] is registered with the counter [k_cnt], while [report] looks
    for the counter of [k] under the part of [k] before its last hyphen:
    when that is another key, which the table does not have, [update]
    returns and the next [report] raises [KeyError]. *)
Theorem report_hyphen_key_raises opt k v l :
  shared (__init__ opt) = false →
  k ∉ reserved →
  startswith "inter-distinct" k = false →
  metrics (__init__ opt) !! k = None →
  metrics (__init__ opt) !! (k +:+ "_cnt") = None →
  metrics (__init__ opt) !! cnt_key k = None →
  cnt_key k ≠ k → cnt_key k ≠ k +:+ "_cnt" →
  outcome (update (obs_user k v) l) (__init__ opt) = Ok {[ "correct" := 0%Q ]}
  ∧ report (run (update (obs_user k v) l) (__init__ opt)) = Raise (KeyError (cnt_key k)).
Proof.
  intros Hsh Hres Hinter Hk Hkc Hck Hne1 Hne2.
  set (s0 := __init__ opt) in *.
  assert (metrics s0 !! "cnt" = Some (VNum 0)) as Ec by (apply init_num; by_compute).
  assert (k ∉ metrics_list s0) as Hreg.
  { intros Hin. pose proof (init_registered_present opt) as Hp.
    unfold registered_present in Hp. rewrite Forall_forall in Hp.
    destruct (Hp k Hin) as [x Hx]. fold s0 in Hx. congruence. }
  assert (k ≠ "cnt") as Hkcnt by (intros ->; congruence).
  assert (k +:+ "_cnt" ≠ "cnt") as Hkccnt by (intros E; rewrite E in Hkc; congruence).
  set (s1 := {| metrics := <[k +:+ "_cnt" := VNum 1]>
                             (<[k := VNum v]> (<["cnt" := VNum (0 + 1)%Q]> (metrics s0)));
                metrics_list := metrics_list s0 ++ [k];
                flags := flags s0; shared := shared s0 |}).
  assert (update (obs_user k v) l s0 = (s1, Ok {[ "correct" := 0%Q ]})) as E.
  { rewrite (update_after_cnt _ _ _ _ Ec). unfold update_text, update_ranking_metrics,
      update_user_metrics, obs_user. cbn [text text_candidates obs_metrics for_each].
    unfold mbind, M_mbind, bind, ret. cbv beta iota.
    rewrite user_metric_unfold by done. cbn [shared set_metrics metrics metrics_list flags].
    rewrite Hsh. rewrite lookup_insert_ne by done. rewrite Hk.
    unfold s1. by rewrite Hsh. }
  unfold outcome, run. rewrite E. cbn [fst snd]. split; [done |].
  (* lookups in the table that [update] leaves *)
  assert (∀ j, j ≠ "cnt" → j ≠ k → j ≠ k +:+ "_cnt" → metrics s1 !! j = metrics s0 !! j) as Hs1.
  { intros j H1 H2 H3. unfold s1. cbn [metrics]. by rewrite !lookup_insert_ne. }
  assert (∀ j, j ≠ "cnt" → is_Some (metrics s0 !! j) → metrics s1 !! j = metrics s0 !! j) as Hdom.
  { intros j H1 [x Hx]. apply Hs1; [done | |]; intros ->; congruence. }
  assert (Forall (quiet_key (metrics s1)) (metrics_list s0)) as Hq.
  { eapply Forall_impl; [apply (init_quiet opt) |]. fold s0. intros k0. unfold quiet_key.
    destruct (startswith "inter-distinct" k0) eqn:Ei.
    - intros Hc. rewrite Hdom; [done | | ].
      + intros ->. discriminate Ei.
      + destruct (metrics s0 !! k0); [by eexists | done].
    - intros Hz. rewrite Hdom; [done | apply cnt_key_not_cnt |].
      destruct (metrics s0 !! cnt_key k0); [by eexists | done]. }
  unfold report.
  assert (num_at s1 "cnt" = Ok (0 + 1)%Q) as ->.
  { unfold num_at, s1. cbn [metrics]. by rewrite !lookup_insert_ne, lookup_insert_eq by done. }
  cbn [mbind res_mbind res_bind]. change (Qgtb (0 + 1) 0) with true. cbv iota.
  assert (flags s1 = {| has_text_cands := false; print_prediction_metrics := false |})
    as -> by reflexivity.
  cbn [print_prediction_metrics has_text_cands res_bind].
  change (metrics_list s1) with (metrics_list s0 ++ [k])%list.
  unfold mbind, res_mbind, res_bind. cbv beta iota.
  rewrite res_fold_app.
  rewrite (res_fold_quiet s1 _ _ Hq).
  cbn [res_bind res_fold]. unfold report_key. rewrite Hinter. cbn [negb].
  unfold num_at. rewrite Hs1; [| apply cnt_key_not_cnt | done | done].
  by rewrite Hck.
Qed.
End hyphen_key.

(** X17, witness: the user-reported metric [my-loss]: its counter is
    [my-loss_cnt], and [report] asks for [my_cnt]. *)
Lemma report_hyphen_key_raises_witness :
  outcome (update (H := plain_install) (obs_user "my-loss" 2) []) fresh
  = Ok {[ "correct" := 0%Q ]}
  ∧ report (H := plain_install) (run (update (H := plain_install) (obs_user "my-loss" 2) []) fresh)
    = Raise (KeyError "my_cnt").
Proof.
  apply (report_hyphen_key_raises (H := plain_install) ∅ "my-loss" 2 []);
    first [reflexivity | by_compute | discriminate].
Defined.

(** *** A shared table takes no new key *)

Section shared_table.
Context `{Externals}.

(** The keys that [clear] assigns besides the registered ones are keys of
    the fresh table. *)
Lemma init_fixed_keys opt :
  Forall (has_key opt)
    (["cnt"; "hits@_cnt"] ++ map (λ k, "hits@" +:+ str k) eval_pr
     ++ ["bleu_cnt"; "rouge_cnt"; "intra-distinct_cnt"]).
Proof.
  unfold has_key, __init__, initial_metrics_list. cbn [metrics].
  destruct nltkbleu_available, rouge_available; by_compute.
Qed.

Lemma init_registered_keys opt :
  Forall (λ k, has_key opt k ∧ (negb (is_crs k) = true → has_key opt (k +:+ "_cnt")))
    initial_metrics_list.
Proof.
  unfold has_key, __init__, initial_metrics_list. cbn [metrics].
  destruct nltkbleu_available, rouge_available; by_compute.
Qed.

Lemma shared_keys_insert opt s k v :
  shared_keys opt s → is_Some (metrics s !! k) →
  shared_keys opt (set_metrics (<[k := v]> (metrics s)) s).
Proof.
  intros (Hsh & Hl & Hd) Hk. split; [done |]. split; [done |].
  cbn [set_metrics metrics]. rewrite dom_insert_lookup_L; done.
Qed.

Lemma shared_keys_has_key opt s k : shared_keys opt s → has_key opt k → is_Some (metrics s !! k).
Proof.
  intros (_ & _ & Hd) Hk. apply elem_of_dom. rewrite Hd. by apply elem_of_dom.
Qed.

Lemma shared_keys_setitem opt k v :
  has_key opt k → preserves (shared_keys opt) (setitem k v).
Proof.
  intros Hk s Hs. apply shared_keys_insert; [done |]. by apply (shared_keys_has_key opt).
Qed.

Lemma shared_keys_iadd_num opt k x : preserves (shared_keys opt) (iadd_num k x).
Proof.
  apply preserves_iadd_num. intros s y Hs Ey. apply shared_keys_insert; [done | by eexists].
Qed.

Lemma shared_keys_iadd_opt opt k x : preserves (shared_keys opt) (iadd_opt k x).
Proof.
  apply preserves_iadd_opt. intros s y z Hs Ey. apply shared_keys_insert; [done | by eexists].
Qed.

Lemma shared_keys_iadd_counter opt k c : preserves (shared_keys opt) (iadd_counter k c).
Proof.
  apply preserves_iadd_counter. intros s d Hs Ey. apply shared_keys_insert; [done | by eexists].
Qed.

Lemma shared_keys_set_has_text_cands opt : preserves (shared_keys opt) set_has_text_cands.
Proof. by intros s. Qed.

Lemma shared_keys_set_print opt : preserves (shared_keys opt) set_print_prediction_metrics.
Proof. by intros s. Qed.

Ltac shared_tac :=
  unfold with_lock; simpl for_each;
  repeat first
    [ apply shared_keys_iadd_num | apply shared_keys_iadd_opt
    | apply shared_keys_iadd_counter | apply shared_keys_set_has_text_cands
    | apply shared_keys_set_print | preserves_step ].

(** On a shared table a user-reported metric is added to a registered key or
    dropped. *)
Lemma shared_keys_user_metric opt kv : preserves (shared_keys opt) (user_metric kv).
Proof.
  destruct kv as [k v]. intros s Hs. rewrite user_metric_cases.
  destruct (bool_decide (k ∉ reserved)); [| done].
  destruct (bool_decide (k ∈ metrics_list s)).
  - assert (preserves (shared_keys opt) (iadd_num k v;; iadd_num (k +:+ "_cnt") 1)) as Hp
      by shared_tac.
    exact (Hp s Hs).
  - destruct Hs as (Hsh & Hl & Hd). rewrite Hsh. done.
Qed.

Lemma shared_keys_update opt o l : preserves (shared_keys opt) (update o l).
Proof.
  unfold update, fold_cnt.
  apply preserves_bind; [shared_tac | intros _].
  apply preserves_bind; [| intros c].
  { unfold update_text, fold_correct, fold_scores. destruct (text o); shared_tac. }
  apply preserves_bind; [| intros _].
  { unfold update_ranking_metrics, fold_ranking. destruct (text_candidates o); shared_tac. }
  apply preserves_bind; [| intros _; apply preserves_ret].
  unfold update_user_metrics. destruct (obs_metrics o); [| apply preserves_ret].
  apply preserves_for_each. intros kv _. apply shared_keys_user_metric.
Qed.

Lemma shared_keys_clear_key opt k :
  k ∈ initial_metrics_list → preserves (shared_keys opt) (clear_key k).
Proof.
  intros Hk. pose proof (init_registered_keys opt) as Hr. rewrite Forall_forall in Hr.
  destruct (Hr k Hk) as [Hk1 Hk2]. unfold clear_key.
  apply preserves_bind; [apply preserves_getitem | intros _].
  apply preserves_bind.
  - destruct (startswith "inter-distinct" k); by apply shared_keys_setitem.
  - intros _. destruct (negb (is_crs k)); [| apply preserves_ret].
    apply shared_keys_setitem. by apply Hk2.
Qed.

Lemma shared_keys_clear opt : preserves (shared_keys opt) clear.
Proof.
  pose proof (init_fixed_keys opt) as Hf. rewrite Forall_forall in Hf.
  intros s Hs. unfold clear, with_lock. rewrite bind_unfold. cbn [setitem].
  assert (shared_keys opt (set_metrics (<["cnt" := VNum 0]> (metrics s)) s)) as H1.
  { apply (shared_keys_setitem opt "cnt" (VNum 0)); [apply Hf; by_compute | done]. }
  revert H1. generalize (set_metrics (<["cnt" := VNum 0]> (metrics s)) s). clear s Hs.
  intros s Hs. rewrite bind_unfold. cbn [get_metrics_list].
  destruct Hs as (Hsh & Hl & Hd). rewrite Hl.
  assert (preserves (shared_keys opt)
            (for_each initial_metrics_list clear_key;;
             for_each crs_metrics (λ crs_metric,
               if negb (bool_decide (crs_metric = "inter-distinct"))
               then setitem (crs_metric +:+ "_cnt") (VNum 0) else ret tt);;
             for_each eval_pr (λ k, setitem ("hits@" +:+ str k) (VNum 0));;
             setitem "hits@_cnt" (VNum 0))) as Hp.
  { apply preserves_bind; [| intros _].
    { apply preserves_for_each. intros k Hk. by apply shared_keys_clear_key. }
    simpl for_each.
    repeat first [ apply shared_keys_setitem; apply Hf; by_compute | preserves_step ]. }
  by apply Hp.
Qed.

(** X18. With [numthreads] above one, the table is shared, and after every
    sequence of calls it has the keys it was constructed with and the
    registered keys it was constructed with: a user-reported metric under a
    new key is never added. *)
Theorem shared_table_keeps_keys opt cs :
  (1 < default 1 (opt !! "numthreads"))%Z →
  let s := do_calls (__init__ opt) cs in
  shared s = true
  ∧ metrics_list s = initial_metrics_list
  ∧ dom (metrics s) = dom (metrics (__init__ opt)).
Proof.
  intros Hn. cbv zeta. change (shared_keys opt (do_calls (__init__ opt) cs)).
  apply do_calls_ind; [apply shared_keys_update | apply shared_keys_clear |].
  split; [| done]. unfold __init__. cbn [shared]. by apply bool_decide_eq_true_2.
Qed.
End shared_table.

(** X18, witness: two threads; a user-reported metric under a new key, and a
    [clear]. *)
Lemma shared_table_keeps_keys_witness :
  let opt : gmap string Z := {[ "numthreads" := 2%Z ]} in
  let s := do_calls (H := plain_install) (__init__ (H := plain_install) opt)
             [Update (obs_user "my_metric" 3) []; Clear] in
  shared s = true
  ∧ metrics_list s = initial_metrics_list (H := plain_install)
  ∧ dom (metrics s) = dom (metrics (__init__ (H := plain_install) opt)).
Proof.
  apply (shared_table_keeps_keys (H := plain_install) {[ "numthreads" := 2%Z ]}).
  vm_compute. reflexivity.
Defined.

(** *** A [LookupError] inside [_rouge] *)

Lemma stable_numbers_at K :
  Forall (λ k, startswith "inter-distinct" k = false) K → stable (numbers_at K).
Proof.
  intros HK. unfold numbers_at. apply stable_forall. intros k.
  apply stable_impl. intros Hk. apply stable_holds_num.
  rewrite Forall_forall in HK. by apply HK.
Qed.

Lemma returns_state {A : Type} (P : Metrics → Prop) (m : M A) s :
  returns_when P m → preserves P m → P s → ∃ s1 a, m s = (s1, Ok a) ∧ P s1.
Proof.
  intros Hr Hp Hs. destruct (Hr s Hs) as [a Ha]. specialize (Hp s Hs).
  destruct (m s) as [s1 r]. cbn in *. subst r. by exists s1, a.
Qed.

Lemma returns_iadd_opt (P : Metrics → Prop) k x :
  (∀ s, P s → holds_num k s) → returns_when P (iadd_opt k (Some x)).
Proof.
  intros HP s Hs. destruct (HP s Hs) as [y Hy]. unfold iadd_opt.
  rewrite bind_unfold. unfold getitem. rewrite Hy. by exists tt.
Qed.

Lemma returns_for_each {A : Type} (P : Metrics → Prop) (l : list A) body :
  (∀ x, x ∈ l → preserves P (body x)) → (∀ x, x ∈ l → returns_when P (body x)) →
  returns_when P (for_each l body).
Proof.
  induction l as [| x l IH]; intros Hp Hr; [apply returns_ret |].
  cbn [for_each]. apply returns_bind; [apply Hp; left | apply Hr; left | intros _].
  apply IH; intros y Hy; [apply Hp | apply Hr]; by right.
Qed.

Lemma returns_set_print (P : Metrics → Prop) : returns_when P set_print_prediction_metrics.
Proof. intros s _. by exists tt. Qed.

Section rouge_lookup_error.
Context `{Externals}.

Lemma keys_before_rouge_scalar :
  Forall (λ k, startswith "inter-distinct" k = false) keys_before_rouge.
Proof. unfold keys_before_rouge. destruct nltkbleu_available; by repeat constructor. Qed.

Lemma init_numbers_before_rouge opt :
  rouge_available = true → numbers_at keys_before_rouge (__init__ opt).
Proof.
  intros Hr. unfold numbers_at, holds_num, keys_before_rouge, __init__, initial_metrics_list.
  cbn [metrics]. rewrite Hr. intros k Hk.
  destruct nltkbleu_available;
    repeat (apply elem_of_cons in Hk as [-> | Hk]; [eexists; vm_compute; reflexivity |]);
    by apply elem_of_nil in Hk.
Qed.

Lemma bleu_some p l i b :
  nltkbleu_available = true → _bleu p l i = Ok b → ∃ x, b = Some x.
Proof.
  intros Hn. unfold _bleu. rewrite Hn. cbn [negb].
  destruct (sentence_bleu _ _ _) as [x | e]; [| done]. intros [= <-]. by exists x.
Qed.

Lemma rouge_none p l :
  rouge_scores_of p l = Ok None → _rouge p l "r" = Ok [None; None; None; None; None].
Proof. intros E. unfold _rouge. by rewrite E. Qed.

Local Abbreviation P := (numbers_at keys_before_rouge).

Lemma P_key k s : k ∈ keys_before_rouge → P s → holds_num k s.
Proof. intros Hk Hs. by apply Hs. Qed.

Lemma base_key k :
  k ∈ ["cnt"; "correct"; "correct_cnt"; "f1"; "f1_cnt"; "bleu_cnt"; "rouge-1"] →
  k ∈ keys_before_rouge.
Proof. intros Hk. unfold keys_before_rouge. apply elem_of_app. by left. Qed.

Lemma bleu_key k :
  nltkbleu_available = true → k ∈ ["bleu-1"; "bleu-2"; "bleu-3"; "bleu-4"] →
  k ∈ keys_before_rouge.
Proof. intros Hn Hk. unfold keys_before_rouge. rewrite Hn. apply elem_of_app. by right. Qed.

Lemma P_stable : stable P.
Proof. apply stable_numbers_at, keys_before_rouge_scalar. Qed.

Lemma bleu_step_returns p l i :
  nltkbleu_available = true → i ∈ seq 1 4 →
  (∃ b, _bleu p l i = Ok b) →
  returns_when P (b ← lift (_bleu p l i); iadd_opt ("bleu-" +:+ str i) b).
Proof.
  intros Hn Hi [b Hb]. destruct (bleu_some _ _ _ _ Hn Hb) as [x ->].
  intros s Hs. rewrite bind_unfold. unfold lift. rewrite Hb.
  apply (returns_iadd_opt P); [| done]. intros s' Hs'. apply (P_key _ s'); [| done].
  apply bleu_key; [done |]. revert Hi. cbn [seq]. rewrite !elem_of_cons, elem_of_nil.
  intros [-> | [-> | [-> | [-> | []]]]]; by_compute.
Qed.

Lemma bleu_step_preserves p l i :
  preserves P (b ← lift (_bleu p l i); iadd_opt ("bleu-" +:+ str i) b).
Proof.
  apply preserves_bind; [apply preserves_lift | intros b].
  apply (stable_iadd_opt _ P_stable).
Qed.

Lemma bleu_part_returns p l :
  (∀ i, i ∈ seq 1 4 → ∃ b, _bleu p l i = Ok b) → returns_when P (bleu_part p l).
Proof.
  intros Hb. unfold bleu_part. destruct nltkbleu_available eqn:Hn; [| apply returns_ret].
  apply returns_bind.
  - apply preserves_for_each. intros i _. apply bleu_step_preserves.
  - apply returns_for_each.
    + intros i _. apply bleu_step_preserves.
    + intros i Hi. apply bleu_step_returns; [done | done | by apply Hb].
  - intros _. apply returns_iadd_num. intros s Hs. apply (P_key _ s); [| done].
    apply base_key. by_compute.
Qed.

Lemma bleu_part_preserves p l : preserves P (bleu_part p l).
Proof.
  unfold bleu_part. destruct nltkbleu_available; [| apply preserves_ret].
  apply preserves_bind; [| intros _; apply (stable_iadd_num _ P_stable)].
  apply preserves_for_each. intros i _. apply bleu_step_preserves.
Qed.

Lemma keeps_bleu_part k p l :
  k ∉ ["bleu-1"; "bleu-2"; "bleu-3"; "bleu-4"; "bleu_cnt"] → keeps k (bleu_part p l).
Proof. intros Hk. unfold bleu_part. keeps_tac. Qed.

(** X19. With py-rouge installed, when its scorer raises [LookupError] [_rouge]
    returns a list of [None], and [update] then adds [None] to a number:
    after every sequence of calls, an [update] with a prediction and at
    least one label, whose BLEU scores could be computed, raises
    [TypeError] inside the third critical section; it leaves [f1_cnt]
    advanced, and [rouge_cnt] and [intra-distinct_cnt] as they were. *)
Theorem update_rouge_lookup_error opt cs o p a l :
  rouge_available = true →
  text o = Some p →
  rouge_scores_of p (a :: l) = Ok None →
  (∀ i, i ∈ seq 1 4 → ∃ b, _bleu p (a :: l) i = Ok b) →
  let s := do_calls (__init__ opt) cs in
  let s' := run (update o (a :: l)) s in
  outcome (update o (a :: l)) s = Raise TypeError
  ∧ (∃ c, metrics s !! "f1_cnt" = Some (VNum c)
          ∧ metrics s' !! "f1_cnt" = Some (VNum (c + 1)%Q))
  ∧ metrics s' !! "rouge_cnt" = metrics s !! "rouge_cnt"
  ∧ metrics s' !! "intra-distinct_cnt" = metrics s !! "intra-distinct_cnt".
Proof.
  intros Hr Et Erouge Hbleu. cbv zeta.
  assert (P (do_calls (__init__ opt) cs)) as Hs
    by (apply (stable_do_calls _ P_stable); by apply init_numbers_before_rouge).
  revert Hs. generalize (do_calls (__init__ opt) cs). intros s Hs.
  set (correct := if _exact_match (Some p) (Some (a :: l)) then 1%Q else 0%Q).
  assert (∀ k, k ∈ ["cnt"; "correct"; "correct_cnt"; "f1"; "f1_cnt"; "bleu_cnt"; "rouge-1"] →
               ∀ s0, P s0 → holds_num k s0) as Hnum.
  { intros k Hk s0 Hs0. apply (P_key _ s0); [by apply base_key | done]. }
  (* the steps that return *)
  destruct (returns_state P fold_cnt s) as (s1 & [] & E1 & H1); [| | done |].
  { apply returns_iadd_num, Hnum. by_compute. }
  { apply (stable_fold_cnt _ P_stable). }
  destruct (returns_state P (fold_correct correct) s1) as (s2 & [] & E2 & H2); [| | done |].
  { unfold fold_correct, with_lock.
    apply returns_bind; [apply (stable_set_print _ P_stable) | apply returns_set_print | intros _].
    apply returns_bind; [apply (stable_iadd_num _ P_stable) | | intros _];
      apply returns_iadd_num, Hnum; by_compute. }
  { apply (stable_fold_correct _ P_stable). }
  destruct (_f1_score (Some p) (Some (a :: l))) as [f1 | e] eqn:Ef; [| done].
  destruct (returns_state P (iadd_num "f1" f1) s2) as (sa & [] & Ea & Ha); [| | done |].
  { apply returns_iadd_num, Hnum. by_compute. }
  { apply (stable_iadd_num _ P_stable). }
  destruct (returns_state P (iadd_num "f1_cnt" 1) sa) as (sb & [] & Eb & Hb); [| | done |].
  { apply returns_iadd_num, Hnum. by_compute. }
  { apply (stable_iadd_num _ P_stable). }
  destruct (returns_state P (bleu_part p (a :: l)) sb) as (sc & [] & Ec & Hc); [| | done |].
  { by apply bleu_part_returns. }
  { apply bleu_part_preserves. }
  (* the step that raises *)
  destruct (Hnum "rouge-1" ltac:(by_compute) sc Hc) as [y Hy].
  assert (update o (a :: l) s = (sc, Raise TypeError)) as E.
  { unfold update. rewrite bind_unfold, E1. rewrite bind_unfold.
    unfold update_text. rewrite Et. fold correct.
    rewrite bind_unfold, E2. rewrite bind_unfold. unfold lift at 1. rewrite Ef.
    rewrite bind_unfold. unfold fold_scores, with_lock.
    rewrite bind_unfold, Ea. rewrite bind_unfold, Eb.
    fold (bleu_part p (a :: l)). rewrite bind_unfold, Ec.
    rewrite Hr. rewrite (rouge_none _ _ Erouge).
    rewrite !bind_unfold. unfold lift. cbn [lookup list_lookup mjoin option_join].
    rewrite bind_unfold. unfold iadd_opt at 1. rewrite bind_unfold. unfold getitem.
    rewrite Hy. reflexivity. }
  unfold outcome, run. rewrite E. cbn [fst snd]. split; [done |].
  (* the state that is left *)
  assert (∀ k, k ∉ ["cnt"; "correct"; "correct_cnt"; "f1"; "f1_cnt";
                    "bleu-1"; "bleu-2"; "bleu-3"; "bleu-4"; "bleu_cnt"] →
               metrics sc !! k = metrics s !! k) as Hkeep.
  { intros k Hk.
    assert (k ≠ "cnt" ∧ k ≠ "correct" ∧ k ≠ "correct_cnt" ∧ k ≠ "f1" ∧ k ≠ "f1_cnt"
            ∧ k ∉ ["bleu-1"; "bleu-2"; "bleu-3"; "bleu-4"; "bleu_cnt"])
      as (N1 & N2 & N3 & N4 & N5 & N6).
    { repeat split; try (intros ->; apply Hk; by_compute).
      intros Hin. apply Hk. do 5 right. exact Hin. }
    pose proof (keeps_bleu_part k p (a :: l) N6 sb) as Kc. rewrite Ec in Kc.
    pose proof (keeps_iadd_num k "f1_cnt" 1 ltac:(done) sa) as Kb. rewrite Eb in Kb.
    pose proof (keeps_iadd_num k "f1" f1 ltac:(done) s2) as Ka. rewrite Ea in Ka.
    pose proof (keeps_fold_correct_ne k correct N2 N3 s1) as K2. rewrite E2 in K2.
    pose proof (keeps_fold_cnt k N1 s) as K1. rewrite E1 in K1.
    cbn [fst] in *. congruence. }
  split; [| split; apply Hkeep; by_compute].
  destruct (advances_iadd_num "f1_cnt" 1 sa sb tt Eb) as (c & Hc0 & Hc1).
  exists c. split.
  - pose proof (keeps_iadd_num "f1_cnt" "f1" f1 ltac:(done) s2) as Ka. rewrite Ea in Ka.
    pose proof (keeps_fold_correct_ne "f1_cnt" correct ltac:(done) ltac:(done) s1) as K2.
    rewrite E2 in K2.
    pose proof (keeps_fold_cnt "f1_cnt" ltac:(done) s) as K1. rewrite E1 in K1.
    cbn [fst] in *. congruence.
  - pose proof (keeps_bleu_part "f1_cnt" p (a :: l) ltac:(by_compute) sb) as Kc.
    rewrite Ec in Kc. cbn [fst] in Kc. congruence.
Qed.
End rouge_lookup_error.

(** X19, witness: the prediction [hello] with the label [hello], after one
    example without a prediction. *)
Lemma update_rouge_lookup_error_witness :
  let s := do_calls (H := rouge_lookup_install) (__init__ (H := rouge_lookup_install) ∅)
             [Update obs_empty []] in
  let s' := run (update (H := rouge_lookup_install) (obs_text "hello") ["hello"]) s in
  outcome (update (H := rouge_lookup_install) (obs_text "hello") ["hello"]) s = Raise TypeError
  ∧ (∃ c, metrics s !! "f1_cnt" = Some (VNum c)
          ∧ metrics s' !! "f1_cnt" = Some (VNum (c + 1)%Q))
  ∧ metrics s' !! "rouge_cnt" = metrics s !! "rouge_cnt"
  ∧ metrics s' !! "intra-distinct_cnt" = metrics s !! "intra-distinct_cnt".
Proof.
  apply (update_rouge_lookup_error (H := rouge_lookup_install) ∅ [Update obs_empty []]
           (obs_text "hello") "hello" "hello" []).
  - reflexivity.
  - reflexivity.
  - reflexivity.
  - intros i _. by exists None.
Defined.

(** ** Properties of [normalize_answer] *)

Ltac by_cases_on_char c :=
  destruct c as [[] [] [] [] [] [] [] []]; vm_compute; first [reflexivity | discriminate | tauto].

Lemma lower_char_idemp c : lower_char (lower_char c) = lower_char c.
Proof. by_cases_on_char c. Qed.

Lemma space_not_word c : is_space c = true → is_word c = false.
Proof. revert c. intros [[] [] [] [] [] [] [] []]; vm_compute; first [reflexivity | discriminate]. Qed.

Lemma single_space_is_space c : Ascii.eqb c " "%char = true → is_space c = true.
Proof. revert c. intros [[] [] [] [] [] [] [] []]; vm_compute; first [reflexivity | discriminate]. Qed.

Lemma lower_stable_not_upper c : lower_stable c = true → in_range 65 90 c = false.
Proof. revert c. intros [[] [] [] [] [] [] [] []]; vm_compute; first [reflexivity | discriminate]. Qed.

Lemma str_app_String c (a b : string) : String c a +:+ b = String c (a +:+ b).
Proof. reflexivity. Qed.

Lemma str_app_empty (b : string) : "" +:+ b = b.
Proof. reflexivity. Qed.

Lemma str_app_nil_r (s : string) : s +:+ "" = s.
Proof. induction s as [| c s IH]; [done |]. rewrite ?str_app_String, ?str_app_empty. by rewrite IH. Qed.

Lemma str_app_assoc (a b c : string) : (a +:+ b) +:+ c = a +:+ (b +:+ c).
Proof. induction a as [| x a IH]; [done |]. rewrite ?str_app_String, ?str_app_empty. by rewrite IH. Qed.

Lemma str_app_cons (a : string) c (b : string) :
  (a +:+ String c EmptyString) +:+ b = a +:+ String c b.
Proof. by rewrite str_app_assoc. Qed.

Lemma all_chars_app p a b : all_chars p (a +:+ b) = all_chars p a && all_chars p b.
Proof.
  induction a as [| c a IH]; [done |]. rewrite ?str_app_String, ?str_app_empty. cbn [all_chars]. rewrite IH.
  by rewrite andb_assoc.
Qed.

Lemma all_chars_impl (p q : ascii → bool) s :
  (∀ c, p c = true → q c = true) → all_chars p s = true → all_chars q s = true.
Proof.
  intros Hpq. induction s as [| c s IH]; [done |]. cbn [all_chars].
  rewrite !andb_true_iff. intros [Hc Hs]. split; [by apply Hpq | by apply IH].
Qed.

Lemma all_chars_and p q s :
  all_chars p s = true → all_chars q s = true → all_chars (λ c, p c && q c) s = true.
Proof.
  induction s as [| c s IH]; [done |]. cbn [all_chars].
  rewrite !andb_true_iff. intros [Hp Hs] [Hq Hs']. split; [by split | by apply IH].
Qed.

(** *** The four steps *)

Lemma lower_chars s : all_chars lower_stable (lower s) = true.
Proof.
  induction s as [| c s IH]; [done |]. cbn [lower all_chars]. rewrite IH, andb_true_r.
  apply bool_decide_eq_true_2, lower_char_idemp.
Qed.

Lemma lower_fixed s : all_chars lower_stable s = true → lower s = s.
Proof.
  induction s as [| c s IH]; [done |]. cbn [lower all_chars].
  rewrite andb_true_iff. intros [Hc Hs]. apply bool_decide_eq_true in Hc.
  by rewrite Hc, IH.
Qed.

Lemma remove_punc_chars p s :
  p " "%char = true → all_chars p s = true →
  all_chars (λ c, p c && not_punc c) (remove_punc s) = true.
Proof.
  intros Hsp. induction s as [| c s IH]; [done |]. cbn [remove_punc all_chars].
  rewrite !andb_true_iff. intros [Hc Hs]. split; [| by apply IH].
  unfold not_punc. destruct (is_punc c) eqn:E; [by rewrite Hsp | by rewrite Hc, E].
Qed.

Lemma remove_punc_fixed s : all_chars not_punc s = true → remove_punc s = s.
Proof.
  induction s as [| c s IH]; [done |]. cbn [remove_punc all_chars].
  rewrite andb_true_iff. unfold not_punc at 1. intros [Hc Hs].
  apply negb_true_iff in Hc. by rewrite Hc, IH.
Qed.

Lemma flush_word_chars p word :
  p " "%char = true → all_chars p word = true → all_chars p (flush_word word) = true.
Proof.
  intros Hsp Hw. unfold flush_word. destruct (is_article word); [| done].
  cbn. by rewrite Hsp.
Qed.

Lemma remove_articles_from_chars p word text :
  p " "%char = true → all_chars p word = true → all_chars p text = true →
  all_chars p (remove_articles_from word text) = true.
Proof.
  intros Hsp. revert word. induction text as [| c r IH]; intros word Hw Ht.
  - by apply flush_word_chars.
  - cbn [all_chars] in Ht. apply andb_true_iff in Ht as [Hc Hr].
    cbn [remove_articles_from]. destruct (is_word c).
    + apply IH; [| done]. rewrite all_chars_app, Hw. cbn. by rewrite Hc.
    + rewrite all_chars_app, flush_word_chars by done. cbn [all_chars andb].
      rewrite Hc. by apply IH.
Qed.

Lemma split_from_chars p cur text :
  all_chars p cur = true → all_chars p text = true →
  Forall (λ w, all_chars p w = true) (split_from cur text).
Proof.
  revert cur. induction text as [| c r IH]; intros cur Hcur Ht; cbn [split_from].
  - destruct (decide (cur = EmptyString)); by repeat constructor.
  - cbn [all_chars] in Ht. apply andb_true_iff in Ht as [Hc Hr].
    destruct (is_space c).
    + apply Forall_app. split; [| by apply IH].
      destruct (decide (cur = EmptyString)); by repeat constructor.
    + apply IH; [| done]. rewrite all_chars_app, Hcur. cbn. by rewrite Hc.
Qed.

(** The tokens of [split] are not empty and hold no white space. *)
Lemma split_from_tokens cur text :
  all_chars not_space cur = true →
  Forall (λ w, w ≠ EmptyString ∧ all_chars not_space w = true) (split_from cur text).
Proof.
  revert cur. induction text as [| c r IH]; intros cur Hcur; cbn [split_from].
  - destruct (decide (cur = EmptyString)); by repeat constructor.
  - destruct (is_space c) eqn:E.
    + apply Forall_app. split; [| by apply IH].
      destruct (decide (cur = EmptyString)); by repeat constructor.
    + apply IH. rewrite all_chars_app, Hcur. cbn. unfold not_space. by rewrite E.
Qed.

Lemma concat_chars p toks :
  p " "%char = true → Forall (λ w, all_chars p w = true) toks →
  all_chars p (String.concat " " toks) = true.
Proof.
  intros Hsp. induction 1 as [| w toks Hw Htoks IH]; [done |].
  destruct toks as [| w2 toks]; [done |].
  change (String.concat " " (w :: w2 :: toks))
    with (w +:+ (" " +:+ String.concat " " (w2 :: toks))).
  rewrite all_chars_app, Hw. rewrite ?str_app_String, ?str_app_empty. cbn [all_chars andb]. by rewrite Hsp.
Qed.

(** *** Splitting what was joined *)

Lemma split_from_token cur w rest :
  all_chars not_space w = true →
  split_from cur (w +:+ rest) = split_from (cur +:+ w) rest.
Proof.
  revert cur. induction w as [| c w IH]; intros cur Hw.
  - by rewrite str_app_nil_r.
  - cbn [all_chars] in Hw. apply andb_true_iff in Hw as [Hc Hw].
    apply negb_true_iff in Hc. rewrite ?str_app_String, ?str_app_empty. cbn [split_from]. rewrite Hc.
    rewrite IH by done. by rewrite str_app_cons.
Qed.

Lemma split_concat toks :
  Forall (λ w, w ≠ EmptyString ∧ all_chars not_space w = true) toks →
  split (String.concat " " toks) = toks.
Proof.
  unfold split. induction 1 as [| w toks [Hne Hw] Htoks IH]; [done |].
  destruct toks as [| w2 toks].
  - cbn [String.concat]. rewrite <- (str_app_nil_r w) at 1.
    rewrite split_from_token by done. rewrite ?str_app_String, ?str_app_empty. cbn [split_from].
    by rewrite decide_False.
  - change (String.concat " " (w :: w2 :: toks))
      with (w +:+ String " " (String.concat " " (w2 :: toks))).
    rewrite split_from_token by done. rewrite ?str_app_String, ?str_app_empty. cbn [split_from].
    change (is_space " ") with true. cbv iota.
    rewrite decide_False by done. cbn [app]. by rewrite IH.
Qed.

Lemma split_on_space_from_token cur w rest :
  all_chars not_space w = true →
  split_on_space_from cur (w +:+ rest) = split_on_space_from (cur +:+ w) rest.
Proof.
  revert cur. induction w as [| c w IH]; intros cur Hw.
  - by rewrite str_app_nil_r.
  - cbn [all_chars] in Hw. apply andb_true_iff in Hw as [Hc Hw].
    apply negb_true_iff in Hc. rewrite ?str_app_String, ?str_app_empty. cbn [split_on_space_from].
    destruct (Ascii.eqb c " ") eqn:E.
    { apply single_space_is_space in E. congruence. }
    rewrite IH by done. by rewrite str_app_cons.
Qed.

Lemma split_on_space_concat w toks :
  Forall (λ w, all_chars not_space w = true) (w :: toks) →
  split_on_space (String.concat " " (w :: toks)) = w :: toks.
Proof.
  unfold split_on_space. revert w. induction toks as [| w2 toks IH]; intros w Hall.
  - apply Forall_cons in Hall as [Hw _]. cbn [String.concat].
    rewrite <- (str_app_nil_r w) at 1. by rewrite split_on_space_from_token.
  - apply Forall_cons in Hall as [Hw Hall].
    change (String.concat " " (w :: w2 :: toks))
      with (w +:+ String " " (String.concat " " (w2 :: toks))).
    rewrite split_on_space_from_token by done. rewrite ?str_app_String, ?str_app_empty. cbn [split_on_space_from].
    change (Ascii.eqb " " " ") with true. cbv iota. by rewrite IH.
Qed.

(** *** Runs of word characters *)

Lemma no_article_from_word word w rest :
  all_chars is_word w = true →
  no_article_from word (w +:+ rest) = no_article_from (word +:+ w) rest.
Proof.
  revert word. induction w as [| c w IH]; intros word Hw.
  - by rewrite str_app_nil_r.
  - cbn [all_chars] in Hw. apply andb_true_iff in Hw as [Hc Hw].
    rewrite str_app_String. cbn [no_article_from]. rewrite Hc.
    rewrite IH by done. by rewrite str_app_cons.
Qed.

(** A character that is not a word character ends the run before it. *)
Lemma no_article_from_break word a c b :
  is_word c = false →
  no_article_from word (a +:+ String c b)
  = no_article_from word a && no_article_from EmptyString b.
Proof.
  intros Hc. revert word. induction a as [| x a IH]; intros word.
  - rewrite str_app_empty. cbn [no_article_from]. by rewrite Hc.
  - rewrite str_app_String. cbn [no_article_from]. destruct (is_word x); [apply IH |].
    rewrite IH. by rewrite andb_assoc.
Qed.

(** Where no run spells an article, [remove_articles] changes nothing. *)
Lemma remove_articles_from_fixed word text :
  no_article_from word text = true → remove_articles_from word text = word +:+ text.
Proof.
  revert word. induction text as [| c r IH]; intros word; cbn [no_article_from remove_articles_from].
  - intros Hw. apply negb_true_iff in Hw. unfold flush_word. by rewrite Hw, str_app_nil_r.
  - destruct (is_word c).
    + intros Hr. rewrite IH by done. by rewrite str_app_cons.
    + rewrite andb_true_iff. intros [Hw Hr]. apply negb_true_iff in Hw.
      unfold flush_word. rewrite Hw. rewrite (IH EmptyString Hr). by rewrite str_app_empty.
Qed.

(** What [remove_articles] returns has no run that spells an article. *)
Lemma remove_articles_from_no_article word text :
  all_chars is_word word = true →
  no_article (remove_articles_from word text) = true.
Proof.
  unfold no_article. revert word. induction text as [| c r IH]; intros word Hw;
    cbn [remove_articles_from].
  - unfold flush_word. destruct (is_article word) eqn:E; [reflexivity |].
    rewrite <- (str_app_nil_r word) at 1. rewrite no_article_from_word by done.
    rewrite str_app_empty. cbn [no_article_from]. by rewrite E.
  - destruct (is_word c) eqn:Ec.
    + apply IH. rewrite all_chars_app, Hw. cbn. by rewrite Ec.
    + unfold flush_word. destruct (is_article word) eqn:E.
      * rewrite str_app_String, str_app_empty. cbn [no_article_from].
        change (is_word " ") with false. cbv iota. rewrite Ec.
        change (is_article "") with false. cbn [negb andb]. by apply IH.
      * rewrite no_article_from_word by done. rewrite str_app_empty.
        cbn [no_article_from]. rewrite Ec, E. cbn [negb andb]. by apply IH.
Qed.

Lemma split_from_no_article cur text :
  no_article (cur +:+ text) = true →
  Forall (λ w, no_article w = true) (split_from cur text).
Proof.
  revert cur. induction text as [| c r IH]; intros cur; cbn [split_from].
  - rewrite str_app_nil_r. intros Hc. destruct (decide (cur = EmptyString)); by repeat constructor.
  - destruct (is_space c) eqn:E.
    + unfold no_article at 1. rewrite no_article_from_break by (by apply space_not_word).
      rewrite andb_true_iff. intros [Hcur Hr]. apply Forall_app. split.
      * destruct (decide (cur = EmptyString)); by repeat constructor.
      * apply IH. by rewrite str_app_empty.
    + intros Hc. apply IH. by rewrite str_app_cons.
Qed.

Lemma concat_no_article toks :
  Forall (λ w, no_article w = true) toks → no_article (String.concat " " toks) = true.
Proof.
  induction 1 as [| w toks Hw Htoks IH]; [done |].
  destruct toks as [| w2 toks]; [done |].
  change (String.concat " " (w :: w2 :: toks))
    with (w +:+ String " " (String.concat " " (w2 :: toks))).
  unfold no_article. rewrite no_article_from_break by done.
  fold (no_article w). fold (no_article (String.concat " " (w2 :: toks))).
  by rewrite Hw, IH.
Qed.

(** *** The normalised text *)

Lemma plain_of_parts c :
  not_space c = true → lower_stable c = true → not_punc c = true → plain_char c = true.
Proof.
  intros H1 H2 H3. unfold plain_char. rewrite H1, H3.
  by rewrite (lower_stable_not_upper c H2).
Qed.

(** The text before the last step of [normalize_answer]: lower case, no
    punctuation, no article. *)
Lemma before_white_space_fix s :
  let y := remove_articles (remove_punc (lower s)) in
  all_chars (λ c, lower_stable c && not_punc c) y = true ∧ no_article y = true.
Proof.
  cbv zeta. split.
  - unfold remove_articles. apply remove_articles_from_chars; [done | done |].
    apply remove_punc_chars; [done | apply lower_chars].
  - by apply remove_articles_from_no_article.
Qed.

(** X11. On ASCII text, [normalize_answer] returns its tokens joined by single
    spaces; a token is not empty and holds no white space, no punctuation and
    no upper-case letter; [split()] gives these tokens back, and so does
    [split(' ')], except that for a text without tokens it gives one empty
    token. *)
Theorem normalize_answer_tokens s :
  ascii_text s →
  let t := normalize_answer s in
  let toks := split (remove_articles (remove_punc (lower s))) in
  t = String.concat " " toks
  ∧ Forall plain_token toks
  ∧ split t = toks
  ∧ split_on_space t = (if decide (toks = []) then [EmptyString] else toks).
Proof.
  intros _. cbv zeta. set (y := remove_articles (remove_punc (lower s))).
  destruct (before_white_space_fix s) as [Hy _]. fold y in Hy.
  pose proof (split_from_tokens EmptyString y eq_refl) as Htok.
  pose proof (split_from_chars _ EmptyString y eq_refl Hy) as Hch.
  fold (split y) in Htok, Hch.
  assert (Forall plain_token (split y)) as Hplain.
  { rewrite Forall_forall in Htok, Hch. apply Forall_forall. intros w Hw.
    destruct (Htok w Hw) as [Hne Hsp]. split; [done |].
    pose proof (all_chars_and _ _ _ Hsp (Hch w Hw)) as Hall.
    eapply all_chars_impl; [| exact Hall]. intros c. cbv beta.
    rewrite !andb_true_iff. intros (? & ? & ?). by apply plain_of_parts. }
  split; [done |]. split; [done |].
  change (normalize_answer s) with (String.concat " " (split y)).
  split; [by apply split_concat |].
  destruct (split y) as [| w toks] eqn:E; [done |].
  rewrite decide_False by done. apply split_on_space_concat.
  eapply Forall_impl; [exact Htok |]. by intros w' [_ ?].
Qed.

(** X11, witness: the text [The  Cat, a DOG!] has the tokens [cat] and [dog];
    a text of punctuation has none, and [split(' ')] gives one empty token. *)
Lemma normalize_answer_tokens_witness :
  ascii_text "The  Cat, a DOG!"
  ∧ normalize_answer "The  Cat, a DOG!" = "cat dog"
  ∧ split (normalize_answer "The  Cat, a DOG!") = ["cat"; "dog"]
  ∧ split_on_space (normalize_answer "The  Cat, a DOG!") = ["cat"; "dog"]
  ∧ split (normalize_answer "?!") = []
  ∧ split_on_space (normalize_answer "?!") = [EmptyString].
Proof.
  split; [reflexivity |].
  destruct (normalize_answer_tokens "The  Cat, a DOG!" eq_refl) as (E1 & _ & E2 & E3).
  destruct (normalize_answer_tokens "?!" eq_refl) as (_ & _ & E4 & E5).
  split; [exact E1 |]. split; [exact E2 |]. split; [exact E3 |].
  split; [exact E4 | exact E5].
Defined.

Lemma normalize_idem s : normalize_answer (normalize_answer s) = normalize_answer s.
Proof.
  set (y := remove_articles (remove_punc (lower s))).
  destruct (before_white_space_fix s) as [Hy Hart]. fold y in Hy, Hart.
  pose proof (split_from_tokens EmptyString y eq_refl) as Htok.
  pose proof (split_from_chars _ EmptyString y eq_refl Hy) as Hch.
  pose proof (split_from_no_article EmptyString y) as Hna.
  rewrite str_app_empty in Hna. specialize (Hna Hart).
  fold (split y) in Htok, Hch, Hna.
  change (normalize_answer s) with (String.concat " " (split y)).
  set (t := String.concat " " (split y)).
  assert (all_chars (λ c, lower_stable c && not_punc c) t = true) as Ht
    by (by apply concat_chars).
  assert (lower t = t) as E1.
  { apply lower_fixed. eapply all_chars_impl; [| exact Ht].
    intros c Hc. by apply andb_true_iff in Hc as [? _]. }
  assert (remove_punc t = t) as E2.
  { apply remove_punc_fixed. eapply all_chars_impl; [| exact Ht].
    intros c Hc. by apply andb_true_iff in Hc as [_ ?]. }
  assert (remove_articles t = t) as E3.
  { unfold remove_articles. rewrite remove_articles_from_fixed; [apply str_app_empty |].
    by apply concat_no_article. }
  unfold normalize_answer at 1. rewrite E1, E2, E3. unfold white_space_fix, t.
  by rewrite split_concat.
Qed.

(** X12. On ASCII text, [normalize_answer] is idempotent: a normalised text is
    its own normalisation; so scoring a normalised guess against normalised
    answers gives the exact match and the F1 of the guess against the
    answers. *)
Theorem normalize_answer_idempotent s answers :
  ascii_text s → Forall ascii_text answers →
  normalize_answer (normalize_answer s) = normalize_answer s
  ∧ _exact_match (Some (normalize_answer s)) (Some (map normalize_answer answers))
    = _exact_match (Some s) (Some answers)
  ∧ _f1_score (Some (normalize_answer s)) (Some (map normalize_answer answers))
    = _f1_score (Some s) (Some answers).
Proof.
  intros _ _. split; [apply normalize_idem |].
  unfold _exact_match, _f1_score. rewrite normalize_idem. split.
  - induction answers as [| a l IH]; [done |]. cbn [map existsb].
    by rewrite normalize_idem, IH.
  - f_equal. rewrite !map_map. apply map_ext. intros a. by rewrite normalize_idem.
Qed.

(** X12, witness: the guess [The  Cat, a DOG!] and the answers [a cat] and
    [Dog?]. *)
Lemma normalize_answer_idempotent_witness :
  ascii_text "The  Cat, a DOG!" ∧ Forall ascii_text ["a cat"; "Dog?"]
  ∧ normalize_answer (normalize_answer "The  Cat, a DOG!") = normalize_answer "The  Cat, a DOG!"
  ∧ _exact_match (Some (normalize_answer "The  Cat, a DOG!"))
      (Some (map normalize_answer ["a cat"; "Dog?"]))
    = _exact_match (Some "The  Cat, a DOG!") (Some ["a cat"; "Dog?"])
  ∧ _f1_score (Some (normalize_answer "The  Cat, a DOG!"))
      (Some (map normalize_answer ["a cat"; "Dog?"]))
    = _f1_score (Some "The  Cat, a DOG!") (Some ["a cat"; "Dog?"]).
Proof.
  assert (Forall ascii_text ["a cat"; "Dog?"]) as Ha by (by repeat constructor).
  split; [reflexivity |]. split; [exact Ha |].
  exact (normalize_answer_idempotent "The  Cat, a DOG!" ["a cat"; "Dog?"] eq_refl Ha).
Defined.

(** ** More on [aggregate_metrics] *)



Section fresh_ids.
Context {V : Type}.
Implicit Types (tasks : gmap string V).


End fresh_ids.



Section aggregate_tasks.
Context `{Externals}.



End aggregate_tasks.

